(** * Runstatus / Pinnacle AI back end: slack prediction, chat2sql, retry loops

    A shallow embedding of the functions of the repository that carry
    checkable behaviour:

    - [prediction.py]: [normalize_endpoint], [improve_route_predictions],
      [calculate_synthetic_route_slack], [generate_synthetic_data], the
      endpoint alignment of [train_model], [api_train],
      [slack_prediction_train] and [handle_train_command]; of [predict] the
      request checks, the alignment, the reported slack values and the
      storing of the predictions; the table groups of
      [get_available_tables];
    - [improved_chat2sql_backend.py] and [dynamic_query_handler.py]: the
      connection retry loops, [execute_sql] and
      [process_natural_language_query];
    - [consistent_query_handler.py]: [extract_metrics], [get_query_type]
      and [generate_consistent_sql];
    - [CHAT2SQL-MODULE/backend.py]: [generate_sql_with_ollama] and
      [get_database_schema].

    Conventions.  The slack arithmetic is given twice.  In [Prediction] a
    Python [float] is a rational number ([Q]) and its arithmetic is exact:
    rounding, infinities and NaN are outside that model (a missing numeric
    cell of a data frame is [None]), and the built-ins whose result the
    interpreter fixes per process ([hash] of a string, the formatting of a
    float) are parameters.  In [Binary64] a [float] is a binary64 float with
    its NaN, its two zeros and its rounding, the two formats of a float are
    those of the interpreter ([PyFloat]), and [hash] is a request to the
    interpreter.  A Python [str] is a [string] of bytes (UTF-8).  An
    exception is a value of an error type. *)

From Stdlib Require Import QArith Qabs Qminmax Lqa ZArith Lia.
From Stdlib Require Import String Ascii List.
From Stdlib Require Import DecimalString DecimalN.
From Stdlib Require Floats.
From stdpp Require Import base option list gmap sets strings sorting pretty.
From Equations Require Import Equations.

#[global] Set Warnings "-clear-no-such-hyp".
(* A decimal literal of the source stands for the nearest binary64 float. *)
#[global] Set Warnings "-inexact-float".

(** * Part I: the program *)

(** ** Python numbers *)

Module PyNum.
Local Open Scope Q_scope.

(** [x < y] and [x > y] on floats. *)
Definition ltb (x y : Q) : bool := negb (Qle_bool y x).
Definition gtb (x y : Q) : bool := ltb y x.

(** The built-in [min(a, b)] keeps [a] unless [b < a]; [max(a, b)] keeps [a]
    unless [b > a]. *)
Definition py_min (a b : Q) : Q := if ltb b a then b else a.
Definition py_max (a b : Q) : Q := if gtb b a then b else a.

(** The built-in [abs]. *)
Definition py_abs (x : Q) : Q := Qabs x.

(** [a % b] on integers takes the sign of the divisor, as [Z.modulo] does. *)
Definition py_mod (a b : Z) : Z := (a mod b)%Z.

End PyNum.

(** ** Python sequences *)

Module PySeq.

(** [l[i]] with Python's negative indices; [None] stands for [IndexError]. *)
Definition index {A : Type} (l : list A) (i : Z) : option A :=
  let n := Z.of_nat (length l) in
  if (i <? - n)%Z then None
  else if (i <? 0)%Z then l !! Z.to_nat (i + n)
  else l !! Z.to_nat i.

(** [s.split(sep)] for a one-character separator: every occurrence of the
    separator cuts, and the result is never empty. *)
Fixpoint split (sep : ascii) (s : string) : list string :=
  match s with
  | EmptyString => [EmptyString]
  | String c rest =>
      if Ascii.eqb c sep then EmptyString :: split sep rest
      else match split sep rest with
           | [] => [String c EmptyString]
           | part :: parts => String c part :: parts
           end
  end.

(** [sep.join(parts)]. *)
Fixpoint join (sep : string) (parts : list string) : string :=
  match parts with
  | [] => EmptyString
  | [part] => part
  | part :: rest => (part ++ sep ++ join sep rest)%string
  end.

(** [needle in haystack] on strings. *)
Fixpoint contains (needle haystack : string) : bool :=
  String.prefix needle haystack
  || match haystack with
     | EmptyString => false
     | String _ rest => contains needle rest
     end.

(** The text of the leading parts of a joined string: each part followed by
    the separator. *)
Fixpoint leading (sep : string) (front : list string) : string :=
  match front with
  | [] => EmptyString
  | part :: rest => (part ++ sep ++ leading sep rest)%string
  end.

(** The character [c] occurs in [s]. *)
Definition has_char (c : ascii) (s : string) : Prop :=
  In c (list_ascii_of_string s).

End PySeq.

(** ** prediction.py: endpoints and slack arithmetic *)

Module Prediction.
Import PyNum PySeq.

(** A cell read from a data frame: a [str], or any other object, which is
    kept with the text [str()] gives for it. *)
Inductive pyval : Type :=
| PStr (s : string)
| PObj (str_of : string).

(** [normalize_endpoint], on a [str] argument.  The two negative indices are
    guarded by [len(parts) >= 2]; the last branch of the [match] stands for
    the [IndexError] that the guard excludes. *)
Definition normalize_endpoint_str (endpoint : string) : string :=
  let parts := split "/" endpoint in
  if (2 <=? length parts)%nat then
    match index parts (-2), index parts (-1) with
    | Some p2, Some p1 => (p2 ++ "/" ++ p1)%string
    | _, _ => endpoint
    end
  else endpoint.

Definition normalize_endpoint (endpoint : pyval) : string :=
  match endpoint with
  | PStr s => normalize_endpoint_str s
  | PObj str_of => str_of
  end.

Local Open Scope Q_scope.

(** The body of the loop of [improve_route_predictions] for one index. *)
Definition improve_route_prediction (raw_pred place_slack cts_slack : Q) : Q :=
  let min_input_slack := py_min place_slack cts_slack in
  let max_input_slack := py_max place_slack cts_slack in
  let avg_input_slack := (place_slack + cts_slack) / 2 in
  let slack_difference := py_abs (place_slack - cts_slack) in
  let base_expectation := min_input_slack * 0.85 + avg_input_slack * 0.15 in
  let optimization_factor := py_min (slack_difference * 0.1) 0.03 in
  let expected_route_slack := base_expectation + optimization_factor in
  let prediction_error := py_abs (raw_pred - expected_route_slack) in
  let corrected :=
    if ltb prediction_error 0.02 then
      raw_pred * 0.8 + expected_route_slack * 0.2
    else if ltb prediction_error 0.05 then
      raw_pred * 0.6 + expected_route_slack * 0.4
    else if ltb prediction_error 0.1 then
      raw_pred * 0.4 + expected_route_slack * 0.6
    else
      raw_pred * 0.2 + expected_route_slack * 0.8 in
  let upper_bound := max_input_slack + 0.02 in
  let lower_bound := min_input_slack - 0.05 in
  let corrected := py_max corrected lower_bound in
  let corrected := py_min corrected upper_bound in
  corrected.

(** [improve_route_predictions]: the loop runs over [range(len(raw_predictions))]
    and indexes the three arrays; [None] is the [IndexError] of a slack array
    shorter than the predictions. *)
Definition improve_route_predictions
  (raw_predictions place_slacks cts_slacks : list Q) : option (list Q) :=
  foldl
    (fun (acc : option (list Q)) (i : nat) =>
       improved_predictions ← acc;
       raw_pred ← raw_predictions !! i;
       place_slack ← place_slacks !! i;
       cts_slack ← cts_slacks !! i;
       Some (improved_predictions
               ++ [improve_route_prediction raw_pred place_slack cts_slack]))
    (Some [])
    (seq 0 (length raw_predictions)).

(** The interpreter's part in [calculate_synthetic_route_slack]: the hash of
    a string (an integer, fixed for one process) and [format(x, spec)] on a
    float. *)
Section Runtime.
Variable hash : string -> Z.
Variable format_float : string -> Q -> string.

(** [f"{place_slack:.6f}_{cts_slack:.6f}"] and [f"{place_slack}_{cts_slack}"]. *)
Definition fstring_6f (place_slack cts_slack : Q) : string :=
  (format_float ".6f" place_slack ++ "_" ++ format_float ".6f" cts_slack)%string.

Definition fstring_plain (place_slack cts_slack : Q) : string :=
  (format_float "" place_slack ++ "_" ++ format_float "" cts_slack)%string.

Definition calculate_synthetic_route_slack (place_slack cts_slack : Q) : Q :=
  let min_slack := py_min place_slack cts_slack in
  let max_slack := py_max place_slack cts_slack in
  let avg_slack := (place_slack + cts_slack) / 2 in
  let slack_difference := py_abs (place_slack - cts_slack) in
  let '(critical_weight, avg_weight) :=
    if gtb (py_abs min_slack) 0.5 then (0.92, 0.08)
    else if gtb (py_abs min_slack) 0.3 then (0.89, 0.11)
    else (0.85, 0.15) in
  let base_route_slack := min_slack * critical_weight + avg_slack * avg_weight in
  let optimization_factor :=
    if gtb slack_difference 0.1 then 0.025
    else if gtb slack_difference 0.05 then 0.015
    else 0.008 in
  let slack_hash :=
    inject_Z (py_mod (hash (fstring_6f place_slack cts_slack)) 1000) / 1000 in
  let optimization_applied := optimization_factor * (0.4 + 0.6 * slack_hash) in
  let route_slack := base_route_slack + optimization_applied in
  let variation_seed :=
    py_mod (Z.abs (hash (fstring_plain place_slack cts_slack))) 100 in
  let variation := (inject_Z variation_seed / 100 - 0.5) * 0.008 in
  let route_slack := route_slack + variation in
  let upper_bound := max_slack + 0.012 in
  let lower_bound := min_slack - 0.025 in
  let route_slack := py_max route_slack lower_bound in
  let route_slack := py_min route_slack upper_bound in
  route_slack.

End Runtime.

(** The correction in the words of its comments: the physics-based
    expectation, the weights chosen by the size of the prediction error, and
    the plausible interval. *)
Definition expected_route_slack (place_slack cts_slack : Q) : Q :=
  py_min place_slack cts_slack * 0.85
  + (place_slack + cts_slack) / 2 * 0.15
  + py_min (py_abs (place_slack - cts_slack) * 0.1) 0.03.

Definition correction_weights (prediction_error : Q) : Q * Q :=
  if ltb prediction_error 0.02 then (0.8, 0.2)
  else if ltb prediction_error 0.05 then (0.6, 0.4)
  else if ltb prediction_error 0.1 then (0.4, 0.6)
  else (0.2, 0.8).

(** The synthetic slack in the words of its comments: the weights chosen by
    the magnitude of the worse slack, the optimization potential chosen by
    the slack difference, and the two hash-derived terms. *)
Definition critical_weights (min_slack : Q) : Q * Q :=
  if gtb (py_abs min_slack) 0.5 then (0.92, 0.08)
  else if gtb (py_abs min_slack) 0.3 then (0.89, 0.11)
  else (0.85, 0.15).

Definition optimization_potential (slack_difference : Q) : Q :=
  if gtb slack_difference 0.1 then 0.025
  else if gtb slack_difference 0.05 then 0.015
  else 0.008.

Definition hash_fraction (h : Z) : Q := inject_Z (py_mod h 1000) / 1000.

Definition hash_variation (h : Z) : Q :=
  (inject_Z (py_mod (Z.abs h) 100) / 100 - 0.5) * 0.008.

(** A sample interpreter for running the functions: a polynomial string hash
    with both signs, and a format that prints the reduced fraction after the
    format specification. *)
Fixpoint sample_hash_from (acc : Z) (s : string) : Z :=
  match s with
  | EmptyString => acc
  | String c rest =>
      sample_hash_from (acc * 31 + Z.of_nat (nat_of_ascii c))%Z rest
  end.

Definition sample_hash (s : string) : Z :=
  (sample_hash_from 7 s mod 2000003 - 1000001)%Z.

Definition sample_format (spec : string) (x : Q) : string :=
  (spec ++ ":" ++ pretty (Qnum (Qred x)) ++ "/"
     ++ pretty (Zpos (Qden (Qred x))))%string.

End Prediction.

(** ** Python floats: binary64 and its two formats *)

Module PyFloat.
Import Floats.
Local Open Scope string_scope.
Local Open Scope Z_scope.

(** A finite non-zero float is [m * 2^e] up to its sign, which [Prim2SF]
    gives with [m] of 53 bits, or of fewer bits and [e = -1074]. *)

(** The sign of the value's text. *)
Definition sign_text (s : bool) : string := if s then "-" else "".

(** The nearest integer to [num / den], ties to even ([0 < den]). *)
Definition round_half_even (num den : Z) : Z :=
  let q := num / den in
  match 2 * (num mod den) ?= den with
  | Lt => q
  | Gt => q + 1
  | Eq => if Z.even q then q else q + 1
  end.

Fixpoint zeros (n : nat) : string :=
  match n with
  | O => ""
  | S n => String "0" (zeros n)
  end.

(** [format(x, '.6f')]: the value rounded to six decimals, correctly and
    to even. *)
Definition fixed_6 (m : positive) (e : Z) : string :=
  let scaled :=
    if 0 <=? e then Z.pos m * 2 ^ e * 10 ^ 6
    else round_half_even (Z.pos m * 10 ^ 6) (2 ^ (- e)) in
  let fraction := pretty (scaled mod 10 ^ 6) in
  pretty (scaled / 10 ^ 6) ++ "."
    ++ zeros (6 - String.length fraction) ++ fraction.

Definition format_6f (x : float) : string :=
  match Prim2SF x with
  | S754_nan => "nan"
  | S754_infinity s => sign_text s ++ "inf"
  | S754_zero s => sign_text s ++ "0.000000"
  | S754_finite s m e => sign_text s ++ fixed_6 m e
  end.

(** [d * 10^k] compared with [l * 2^g]. *)
Definition compare_scaled (d k l g : Z) : comparison :=
  d * 10 ^ Z.max k 0 * 2 ^ Z.max (- g) 0
  ?= l * 2 ^ Z.max g 0 * 10 ^ Z.max (- k) 0.

(** The decimal exponent of [m * 2^e]: the greatest [d] with
    [10^d <= m * 2^e]. *)
Definition decimal_exponent (m : positive) (e : Z) : Z :=
  let estimate := (Z.log2 (Z.pos m) + e) * 30103 / 100000 in
  let below d :=
    match compare_scaled 1 d (Z.pos m) e with Gt => false | _ => true end in
  if below (estimate + 1) then estimate + 1
  else if below estimate then estimate
  else estimate - 1.

(** The decimals that read back as the float [m * 2^e]: those between the
    midpoints to its two neighbours, the midpoints included when [m] is
    even.  In units of [2^(e-2)] the float is [4 * m] and the midpoints are
    [4 * m + 2] and [4 * m - 2], or [4 * m - 1] above a power of two. *)
Definition reads_back (m : positive) (e : Z) (d k : Z) : bool :=
  let low :=
    if (Z.pos m =? 2 ^ 52) && (-1074 <? e) then 4 * Z.pos m - 1
    else 4 * Z.pos m - 2 in
  let high := 4 * Z.pos m + 2 in
  let even := Z.even (Z.pos m) in
  match compare_scaled d k low (e - 2) with
  | Gt => true
  | Eq => even
  | Lt => false
  end
  && match compare_scaled d k high (e - 2) with
     | Lt => true
     | Eq => even
     | Gt => false
     end.

(** The shortest decimal [d * 10^k] that reads back as [m * 2^e], from [n]
    digits on: the value cut after [n] digits or the next decimal, and of
    the two the nearer one (the even one on a tie).  Seventeen digits always
    read back, so the search from one digit on ends within its fuel. *)
Fixpoint shortest_from (fuel : nat) (n : Z) (m : positive) (e : Z)
  : Z * Z :=
  let k := decimal_exponent m e - n + 1 in
  let down :=
    Z.pos m * 2 ^ Z.max e 0 * 10 ^ Z.max (- k) 0
    / (2 ^ Z.max (- e) 0 * 10 ^ Z.max k 0) in
  let up := down + 1 in
  match fuel with
  | O => (down, k)
  | S fuel =>
      match reads_back m e down k, reads_back m e up k with
      | true, true =>
          match compare_scaled (down + up) k (8 * Z.pos m) (e - 2) with
          | Gt => (down, k)
          | Lt => (up, k)
          | Eq => if Z.even down then (down, k) else (up, k)
          end
      | true, false => (down, k)
      | false, true => (up, k)
      | false, false => shortest_from fuel (n + 1) m e
      end
  end.

(** Trailing zeros move into the exponent. *)
Fixpoint drop_zeros (fuel : nat) (d k : Z) : Z * Z :=
  match fuel with
  | O => (d, k)
  | S fuel =>
      if (d mod 10 =? 0) && negb (d =? 0) then
        drop_zeros fuel (d / 10) (k + 1)
      else (d, k)
  end.

Definition shortest (m : positive) (e : Z) : Z * Z :=
  let '(d, k) := shortest_from 17 1 m e in
  drop_zeros 17 d k.

(** [repr(x)] of a finite non-zero float, from its shortest digits:
    exponent notation when the decimal point would lie more than four
    places before the digits or more than sixteen places into them. *)
Definition repr_finite (m : positive) (e : Z) : string :=
  let '(d, k) := shortest m e in
  let digits := pretty d in
  let n := Z.of_nat (String.length digits) in
  let decpt := n + k in
  if (decpt <=? -4) || (16 <? decpt) then
    let exponent := pretty (Z.abs (decpt - 1)) in
    String.substring 0 1 digits
      ++ (if 1 <? n then
            "." ++ String.substring 1 (String.length digits - 1) digits
          else "")
      ++ "e" ++ (if decpt - 1 <? 0 then "-" else "+")
      ++ zeros (2 - String.length exponent) ++ exponent
  else if decpt <=? 0 then
    "0." ++ zeros (Z.to_nat (- decpt)) ++ digits
  else if n <=? decpt then
    digits ++ zeros (Z.to_nat (decpt - n)) ++ ".0"
  else
    String.substring 0 (Z.to_nat decpt) digits ++ "."
      ++ String.substring (Z.to_nat decpt) (Z.to_nat (n - decpt)) digits.

(** [repr(x)], which is also [str(x)] and [format(x, '')]. *)
Definition repr (x : float) : string :=
  match Prim2SF x with
  | S754_nan => "nan"
  | S754_infinity s => sign_text s ++ "inf"
  | S754_zero s => sign_text s ++ "0.0"
  | S754_finite s m e => sign_text s ++ repr_finite m e
  end.

End PyFloat.

(** ** prediction.py: the slack arithmetic on binary64 floats *)

Module Binary64.
Import Floats PyFloat.
Local Open Scope string_scope.
Local Open Scope float_scope.

(** The built-ins [min(a, b)], [max(a, b)] and [abs] on floats: [min] keeps
    [a] unless [b < a] and [max] keeps [a] unless [b > a], so a NaN, with
    which every comparison is false, stays when it comes first and is
    dropped when it comes second. *)
Definition py_min (a b : float) : float := if b <? a then b else a.
Definition py_max (a b : float) : float := if a <? b then b else a.
Definition py_abs (x : float) : float := abs x.

(** An [int] as a float, as the division of an [int] by a float converts
    it, for an [int] below [2^63] in size; the code divides residues below
    [1000], which are floats themselves. *)
Definition float_of_int (n : Z) : float :=
  if (n <? 0)%Z then - of_uint63 (Uint63.of_Z (- n))
  else of_uint63 (Uint63.of_Z n).


(** The body of the loop of [improve_route_predictions] for one index.  The
    slacks are elements of float64 arrays; the raw prediction of the model
    is taken as a float64 value too. *)
Definition improve_route_prediction (raw_pred place_slack cts_slack : float)
  : float :=
  let min_input_slack := py_min place_slack cts_slack in
  let max_input_slack := py_max place_slack cts_slack in
  let avg_input_slack := (place_slack + cts_slack) / 2 in
  let slack_difference := py_abs (place_slack - cts_slack) in
  let base_expectation := min_input_slack * 0.85 + avg_input_slack * 0.15 in
  let optimization_factor := py_min (slack_difference * 0.1) 0.03 in
  let expected_route_slack := base_expectation + optimization_factor in
  let prediction_error := py_abs (raw_pred - expected_route_slack) in
  let corrected :=
    if prediction_error <? 0.02 then
      raw_pred * 0.8 + expected_route_slack * 0.2
    else if prediction_error <? 0.05 then
      raw_pred * 0.6 + expected_route_slack * 0.4
    else if prediction_error <? 0.1 then
      raw_pred * 0.4 + expected_route_slack * 0.6
    else
      raw_pred * 0.2 + expected_route_slack * 0.8 in
  let upper_bound := max_input_slack + 0.02 in
  let lower_bound := min_input_slack - 0.05 in
  let corrected := py_max corrected lower_bound in
  let corrected := py_min corrected upper_bound in
  corrected.

(** [improve_route_predictions]; [None] is the [IndexError] of a slack
    array shorter than the predictions. *)
Definition improve_route_predictions
  (raw_predictions place_slacks cts_slacks : list float)
  : option (list float) :=
  foldl
    (fun (acc : option (list float)) (i : nat) =>
       improved_predictions ← acc;
       raw_pred ← raw_predictions !! i;
       place_slack ← place_slacks !! i;
       cts_slack ← cts_slacks !! i;
       Some (improved_predictions
               ++ [improve_route_prediction raw_pred place_slack cts_slack])%list)
    (Some [])
    (seq 0 (length raw_predictions)).

(** A computation that may ask the interpreter for [hash(s)] of a [str] and
    goes on with the answer. *)
Inductive hashing (A : Type) : Type :=
| Return (a : A)
| Hash (s : string) (k : Z -> hashing A).
Arguments Return {A} a.
Arguments Hash {A} s k.

(** [f"{place_slack:.6f}_{cts_slack:.6f}"] and [f"{place_slack}_{cts_slack}"]. *)
Definition fstring_6f (place_slack cts_slack : float) : string :=
  format_6f place_slack ++ "_" ++ format_6f cts_slack.

Definition fstring_plain (place_slack cts_slack : float) : string :=
  repr place_slack ++ "_" ++ repr cts_slack.

(** [calculate_synthetic_route_slack], after the two conversions
    [float(place_slack)] and [float(cts_slack)] of its first lines. *)
Definition calculate_synthetic_route_slack (place_slack cts_slack : float)
  : hashing float :=
  let min_slack := py_min place_slack cts_slack in
  let max_slack := py_max place_slack cts_slack in
  let avg_slack := (place_slack + cts_slack) / 2 in
  let slack_difference := py_abs (place_slack - cts_slack) in
  let '(critical_weight, avg_weight) :=
    if 0.5 <? py_abs min_slack then (0.92, 0.08)
    else if 0.3 <? py_abs min_slack then (0.89, 0.11)
    else (0.85, 0.15) in
  let base_route_slack := min_slack * critical_weight + avg_slack * avg_weight in
  let optimization_factor :=
    if 0.1 <? slack_difference then 0.025
    else if 0.05 <? slack_difference then 0.015
    else 0.008 in
  Hash (fstring_6f place_slack cts_slack) (fun h =>
  let slack_hash := float_of_int (PyNum.py_mod h 1000) / 1000 in
  let optimization_applied := optimization_factor * (0.4 + 0.6 * slack_hash) in
  let route_slack := base_route_slack + optimization_applied in
  Hash (fstring_plain place_slack cts_slack) (fun h =>
  let variation_seed := PyNum.py_mod (Z.abs h) 100 in
  let variation := (float_of_int variation_seed / 100 - 0.5) * 0.008 in
  let route_slack := route_slack + variation in
  let upper_bound := max_slack + 0.012 in
  let lower_bound := min_slack - 0.025 in
  let route_slack := py_max route_slack lower_bound in
  let route_slack := py_min route_slack upper_bound in
  Return route_slack)).

(** A run in a process whose [hash] is the function [hash]. *)
Fixpoint result {A : Type} (hash : string -> Z) (p : hashing A) : A :=
  match p with
  | Return a => a
  | Hash s k => result hash (k (hash s))
  end.

(** A run against an interpreter with a state of its own: [hash] answers
    in a state and may change it. *)
Fixpoint run {world A : Type} (hash : string -> world -> Z * world)
  (p : hashing A) (w : world) : A * world :=
  match p with
  | Return a => (a, w)
  | Hash s k => let '(h, w) := hash s w in run hash (k h) w
  end.




End Binary64.

(** ** prediction.py: the endpoint alignment of [train_model] *)

Module Train.
Import Prediction.

(** A row of a timing table: the [endpoint] cell, the [slack] cell and the
    other feature cells ([None] is a NULL of the database). *)
Record row : Type := Row {
  endpoint : pyval;
  slack : option Q;
  features : list (option Q)
}.

(** A row once the column [normalized_endpoint] has been added. *)
Record nrow : Type := NRow {
  base : row;
  normalized_endpoint : string
}.

Inductive train_error : Type :=
| NoCommonEndpoints
| SizeMismatch (place cts route : nat).

(** [data['normalized_endpoint'] = data['endpoint'].apply(normalize_endpoint)] *)
Definition add_normalized_endpoint (data : list row) : list nrow :=
  (fun r => NRow r (normalize_endpoint (endpoint r))) <$> data.

(** [set(data['normalized_endpoint'])] *)
Definition endpoint_set (data : list nrow) : gset string :=
  list_to_set (normalized_endpoint <$> data).

(** [data[data['normalized_endpoint'].isin(common_endpoints)]] *)
Definition filter_isin (common_endpoints : list string) (data : list nrow)
  : list nrow :=
  filter (fun r => normalized_endpoint r ∈ common_endpoints) data.

(** [data.drop_duplicates(subset=['normalized_endpoint'], keep='first')]:
    a row is kept when its key was not seen in an earlier row. *)
Fixpoint drop_duplicates_from (seen : gset string) (data : list nrow)
  : list nrow :=
  match data with
  | [] => []
  | r :: rest =>
      if decide (normalized_endpoint r ∈ seen) then
        drop_duplicates_from seen rest
      else
        r :: drop_duplicates_from ({[normalized_endpoint r]} ∪ seen) rest
  end.

Definition drop_duplicates (data : list nrow) : list nrow :=
  drop_duplicates_from ∅ data.

(** The rows of a table that carry the key [e]. *)
Definition rows_with (e : string) (data : list nrow) : list nrow :=
  filter (fun r => normalized_endpoint r = e) data.

(** What the alignment promises of one of its three tables: the rows come
    from the input table, every common endpoint has exactly one row and no
    other endpoint has any, so there is one row per common endpoint. *)
Definition aligned (common : gset string) (input output : list nrow) : Prop :=
  output ⊆+ input
  /\ (forall e, length (rows_with e output) = if decide (e ∈ common) then 1 else 0)
  /\ length output = size common.

Section Alignment.
(** [data.sort_values(by='normalized_endpoint')]: pandas sorts with an
    unstable quicksort by default, so the order among equal keys is the
    library's choice. *)
Variable sort_values : list nrow -> list nrow.

(** Lines 2039-2075 of [train_model]: normalize, intersect, filter, sort,
    drop duplicates, compare the sizes. *)
Definition train_model_align (place_data cts_data route_data : list row)
  : train_error + (list nrow * list nrow * list nrow) :=
  let place_data := add_normalized_endpoint place_data in
  let cts_data := add_normalized_endpoint cts_data in
  let route_data := add_normalized_endpoint route_data in
  let common_endpoints :=
    elements (endpoint_set place_data ∩ endpoint_set cts_data
                ∩ endpoint_set route_data) in
  if (length common_endpoints =? 0)%nat then inl NoCommonEndpoints
  else
    let place_data := filter_isin common_endpoints place_data in
    let cts_data := filter_isin common_endpoints cts_data in
    let route_data := filter_isin common_endpoints route_data in
    let place_data := sort_values place_data in
    let cts_data := sort_values cts_data in
    let route_data := sort_values route_data in
    let place_data := drop_duplicates place_data in
    let cts_data := drop_duplicates cts_data in
    let route_data := drop_duplicates route_data in
    if negb (length place_data =? length cts_data)%nat
       || negb (length cts_data =? length route_data)%nat
    then inl (SizeMismatch (length place_data) (length cts_data)
                (length route_data))
    else inr (place_data, cts_data, route_data).

End Alignment.

(** A merge sort on the key: one of the orders pandas may produce (like
    pandas' default, it may reorder rows with equal keys). *)
Definition key_le (r1 r2 : nrow) : Prop :=
  String.leb (normalized_endpoint r1) (normalized_endpoint r2) = true.

#[global] Instance key_le_dec : RelDecision key_le :=
  fun r1 r2 =>
    decide (String.leb (normalized_endpoint r1) (normalized_endpoint r2) = true).

Definition sort_values_merge (data : list nrow) : list nrow :=
  merge_sort key_le data.

(** Three small tables: the endpoints [reg/D] and [clk] are common, [reg/D]
    is duplicated in the place table and one CTS endpoint is not a string. *)
Definition sample_place : list row :=
  [Row (PStr "top/u2/reg/D") (Some (-0.52)%Q) [];
   Row (PStr "top/u1/reg/D") (Some (-0.40)%Q) [];
   Row (PStr "clk") (Some 0.10%Q) [];
   Row (PStr "top/u1/only_place") None []].

Definition sample_cts : list row :=
  [Row (PStr "clk") (Some 0.12%Q) [];
   Row (PStr "u1/reg/D") (Some (-0.61)%Q) [];
   Row (PObj "nan") None []].

Definition sample_route : list row :=
  [Row (PStr "reg/D") (Some (-0.58)%Q) [];
   Row (PStr "clk") (Some 0.11%Q) [];
   Row (PStr "clk") (Some 0.13%Q) []].

End Train.


(** ** The connection retry loops *)

Module Retry.

(** What a run does to the outside world. *)
Inductive event : Type :=
| EvConnect
| EvSleep (seconds : Z).

(** How a run ends: with a connection, with a raised error, with the
    [TypeError] of [raise None], or with the [ValueError] of [time.sleep] on a
    negative length. *)
Inductive outcome (conn exn : Type) : Type :=
| Returned (c : conn)
| Raised (e : exn)
| RaisedNone
| SleepValueError.
Arguments Returned {conn exn} c.
Arguments Raised {conn exn} e.
Arguments RaisedNone {conn exn}.
Arguments SleepValueError {conn exn}.

Section Loop.
Context {conn exn : Type}.

(** The database as one run sees it: the result of the [n]-th call of
    [psycopg2.connect], counted from 0. *)
Variable connect : nat -> exn + conn.

(** The local variables of the loop, with the calls made and the events so
    far. *)
Record loop_state : Type := LoopState {
  retries : Z;
  last_error : option exn;
  calls : nat;
  trace : list event
}.

Definition initial_state : loop_state :=
  {| retries := 0; last_error := None; calls := 0; trace := [] |}.

(** [while retries < max_retries: try: return connect(...) except: ...;
    retries += 1; time.sleep(retry_delay)], then [raise last_error]. *)
Equations? retry_loop (max_retries retry_delay : Z) (st : loop_state)
  : outcome conn exn * list event
  by wf (Z.to_nat (max_retries - retries st)) lt :=
retry_loop max_retries retry_delay st with Z_lt_dec (retries st) max_retries := {
  | left Hlt with connect (calls st) := {
      | inr c => (Returned c, trace st ++ [EvConnect])
      | inl e with Z_lt_dec retry_delay 0 := {
          | left _ => (SleepValueError, trace st ++ [EvConnect])
          | right _ =>
              retry_loop max_retries retry_delay
                {| retries := retries st + 1;
                   last_error := Some e;
                   calls := S (calls st);
                   trace := trace st ++ [EvConnect; EvSleep retry_delay] |} } }
  | right _ =>
      (match last_error st with
       | Some e => Raised e
       | None => RaisedNone
       end, trace st) }.
Proof. simpl. lia. Qed.

(** The events of [k] failed attempts: each is a call followed by a sleep of
    the fixed delay. *)
Definition failed_attempts (k : nat) (retry_delay : Z) : list event :=
  concat (replicate k [EvConnect; EvSleep retry_delay]).

(** The state after a failed attempt with error [e]. *)
Definition after_failure (retry_delay : Z) (e : exn) (st : loop_state)
  : loop_state :=
  {| retries := retries st + 1;
     last_error := Some e;
     calls := S (calls st);
     trace := trace st ++ [EvConnect; EvSleep retry_delay] |}.

(** [get_connection_with_retry(max_retries=3, retry_delay=2)] of
    improved_chat2sql_backend.py. *)
Definition get_connection_with_retry (max_retries retry_delay : Z)
  : outcome conn exn * list event :=
  retry_loop max_retries retry_delay initial_state.

Definition get_connection_with_retry_default : outcome conn exn * list event :=
  get_connection_with_retry 3 2.

(** [DynamicQueryHandler._get_connection(max_retries=3)] of
    dynamic_query_handler.py: the same loop, statement for statement, with
    the sleep fixed to two seconds. *)
Definition _get_connection (max_retries : Z) : outcome conn exn * list event :=
  retry_loop max_retries 2 initial_state.

End Loop.

(** Two sample databases: one that refuses the first two calls and then
    accepts, one that refuses every call. *)
Definition sample_recovering (n : nat) : string + nat :=
  match n with
  | 0 => inl "refused 0"%string
  | 1 => inl "refused 1"%string
  | _ => inr n
  end.

Definition sample_down (n : nat) : string + nat :=
  inl ("refused " ++ pretty n)%string.

End Retry.


(** ** CHAT2SQL-MODULE/backend.py: [generate_sql_with_ollama] *)

Module Chat2SQL.
Import PySeq.
Local Open Scope string_scope.

(** What [requests.post] gives back: an exception (with its text), or a
    response with its status, its body, and the ['response'] field of the
    body read as JSON ([inl msg]: the body is not JSON and [.json()] raises
    with that text; [inr None]: the field is absent). *)
Record http_response : Type := HttpResponse {
  status_code : Z;
  text : string;
  json_response : string + option string
}.

(** A computation that may call the Ollama API: it returns, raises, or posts
    a prompt to a URL for a model and goes on with the reply. *)
Inductive prog (A : Type) : Type :=
| Ret (a : A)
| Raise (msg : string)
| Post (url model prompt : string) (k : string + http_response -> prog A).
Arguments Ret {A} a.
Arguments Raise {A} msg.
Arguments Post {A} url model prompt k.

(** The number of API calls of a computation against a given server. *)
Fixpoint api_calls {A : Type} (server : string -> string + http_response)
  (p : prog A) : nat :=
  match p with
  | Ret _ | Raise _ => 0
  | Post _ _ prompt k => S (api_calls server (k (server prompt)))
  end.

Definition OLLAMA_API_URL : string := "http://localhost:11434/api/generate".
Definition MODEL_NAME : string := "mistral".

(** The phrases of the table-listing test. *)
Definition table_listing_phrases : list string :=
  ["list tables"; "show tables"; "all tables"; "list all tables";
   "show all tables"; "database"].

(** The SQL text returned for a table-listing query, as in the source. *)
Definition table_listing_sql : string :=
"
                SELECT 
                    table_name
                FROM 
                    information_schema.tables
                WHERE 
                    table_schema = 'public'
                    AND table_type = 'BASE TABLE'
                ORDER BY 
                    table_name;
            ".

(** The white space of [str.strip()], which is that of [str.isspace]: the
    ASCII characters U+0009 to U+000D and U+001C to U+0020, and beyond ASCII
    U+0085, U+00A0, U+1680, U+2000 to U+200A, U+2028, U+2029, U+202F, U+205F
    and U+3000, which take two or three bytes in UTF-8. *)
Definition is_space (c : ascii) : bool :=
  let n := nat_of_ascii c in
  ((9 <=? n) && (n <=? 13) || (28 <=? n) && (n <=? 32))%nat.

Definition is_space2 (c1 c2 : ascii) : bool :=
  let n1 := nat_of_ascii c1 in
  let n2 := nat_of_ascii c2 in
  ((n1 =? 194) && ((n2 =? 133) || (n2 =? 160)))%nat.

Definition is_space3 (c1 c2 c3 : ascii) : bool :=
  let n1 := nat_of_ascii c1 in
  let n2 := nat_of_ascii c2 in
  let n3 := nat_of_ascii c3 in
  ((n1 =? 225) && (n2 =? 154) && (n3 =? 128)
   || (n1 =? 226) && (n2 =? 128)
      && ((128 <=? n3) && (n3 <=? 138)
          || (n3 =? 168) || (n3 =? 169) || (n3 =? 175))
   || (n1 =? 226) && (n2 =? 129) && (n3 =? 159)
   || (n1 =? 227) && (n2 =? 128) && (n3 =? 128))%nat.

Fixpoint lstrip (s : string) : string :=
  match s with
  | EmptyString => EmptyString
  | String c1 rest1 =>
      if is_space c1 then lstrip rest1
      else
        match rest1 with
        | EmptyString => s
        | String c2 rest2 =>
            if is_space2 c1 c2 then lstrip rest2
            else
              match rest2 with
              | EmptyString => s
              | String c3 rest3 =>
                  if is_space3 c1 c2 c3 then lstrip rest3 else s
              end
        end
  end.

(** The text is cut where nothing but white space follows. *)
Fixpoint rstrip (s : string) : string :=
  match s with
  | EmptyString => EmptyString
  | String c rest =>
      match lstrip s with
      | EmptyString => EmptyString
      | _ => String c (rstrip rest)
      end
  end.

Definition strip (s : string) : string := rstrip (lstrip s).

(** [re.sub(r'```sql|```', '', s)]: at each position the first alternative
    that matches is removed. *)
Fixpoint remove_fences_fuel (fuel : nat) (s : string) : string :=
  match fuel with
  | O => s
  | S fuel =>
      if String.prefix "```sql" s then
        remove_fences_fuel fuel (String.substring 6 (String.length s - 6) s)
      else if String.prefix "```" s then
        remove_fences_fuel fuel (String.substring 3 (String.length s - 3) s)
      else match s with
           | EmptyString => EmptyString
           | String c rest => String c (remove_fences_fuel fuel rest)
           end
  end.

Definition remove_fences (s : string) : string :=
  remove_fences_fuel (String.length s) s.

(** [s.replace('`', '')]. *)
Fixpoint remove_backticks (s : string) : string :=
  match s with
  | EmptyString => EmptyString
  | String c rest =>
      if Ascii.eqb c "`" then remove_backticks rest
      else String c (remove_backticks rest)
  end.

(** [s.split(';')[0]]. *)
Definition before_semicolon (s : string) : string :=
  match split ";" s with
  | first :: _ => first
  | [] => s
  end.

Section Generate.
(** [str.lower()], and [json.dumps(schema, indent=2)] on the schema. *)
Variable lower : string -> string.
Variable schema : Type.
Variable json_dumps : schema -> string.

Definition is_table_listing (query : string) : bool :=
  let query_lower := lower query in
  existsb (fun phrase => contains phrase query_lower) table_listing_phrases.

Definition ollama_prompt (query : string) (sch : schema) : string :=
"Given the following database schema:
" ++ json_dumps sch ++ "

Generate a valid PostgreSQL SQL query for this question: " ++ query ++ "

Rules:
1. Only use tables that exist in the schema
2. Return valid PostgreSQL syntax
3. Do not include any explanations, only the SQL query
4. Do not use backticks or any special characters
5. Use proper table names from the schema
6. If asking about users, use the correct table name from the schema

SQL Query:".

(** The [except Exception as e] of the function re-raises every error under
    one message. *)
Definition failed (msg : string) : string :=
  "Failed to generate SQL query: " ++ msg.

Definition generate_sql_with_ollama (query : string) (sch : schema)
  : prog string :=
  if is_table_listing query then Ret table_listing_sql
  else
    Post OLLAMA_API_URL MODEL_NAME (ollama_prompt query sch)
      (fun reply =>
         match reply with
         | inl error => Raise (failed error)
         | inr response =>
             if negb (status_code response =? 200)%Z then
               Raise (failed "Failed to generate SQL query")
             else
               match json_response response with
               | inl error => Raise (failed error)
               | inr field =>
                   let sql_query := strip (default "" field) in
                   let sql_query := remove_fences sql_query in
                   let sql_query := before_semicolon sql_query ++ ";" in
                   let sql_query := remove_backticks sql_query in
                   Ret sql_query
               end
         end).

End Generate.

(** Lower-casing of the ASCII letters, which is what [str.lower()] does on
    ASCII text. *)
Definition ascii_lower_char (c : ascii) : ascii :=
  let n := nat_of_ascii c in
  if ((65 <=? n) && (n <=? 90))%nat then ascii_of_nat (n + 32) else c.

Fixpoint ascii_lower (s : string) : string :=
  match s with
  | EmptyString => EmptyString
  | String c rest => String (ascii_lower_char c) (ascii_lower rest)
  end.

End Chat2SQL.


(** ** prediction.py: [api_train] and [handle_train_command] *)

Module TrainApi.
Import PySeq.
Local Open Scope string_scope.

(** A query parameter is a string or [None]; [None] and the empty string are
    false. *)
Definition truthy (v : option string) : bool :=
  match v with
  | Some s => negb (String.eqb s "")
  | None => false
  end.

(** [a or b] and [a and b] return one of their operands. *)
Definition py_or (a b : option string) : option string :=
  if truthy a then a else b.
Definition py_and (a b : option string) : option string :=
  if truthy a then b else a.

Record TrainRequest : Type := MkTrainRequest {
  place_table : string;
  cts_table : string;
  route_table : string
}.

(** A Python dict with string values, in insertion order. *)
Definition dict : Type := list (string * string).

Section Api.
(** [train_model]: its result, or the text of the exception it raises. *)
Variable train_result : Type.
Variable train_model : TrainRequest -> string + train_result.

(** What the handler gives back: a [JSONResponse] with a status code, the
    value [train_model] returned, or an exception it let through. *)
Inductive response : Type :=
| JSONResponse (status_code : Z) (content : dict)
| Trained (result : train_result)
| Uncaught (msg : string).

Definition missing_parameters : response :=
  JSONResponse 400
    [("status", "error");
     ("message", "Missing required parameters. Please provide at least place_table (or place) and cts_table (or cts).")].

Definition api_train
  (place_table cts_table route_table place cts route : option string)
  : response :=
  let place_table := py_or place_table place in
  let cts_table := py_or cts_table cts in
  let route_table := py_or route_table route in
  if negb (truthy (py_and place_table cts_table)) then missing_parameters
  else
    let route_table :=
      if negb (truthy route_table) then cts_table else route_table in
    match place_table, cts_table, route_table with
    | Some p, Some c, Some r =>
        match train_model (MkTrainRequest p c r) with
        | inr result => Trained result
        | inl e => JSONResponse 500 [("status", "error"); ("message", e)]
        end
    | _, _, _ => Uncaught "ValidationError"
    end.

End Api.
Arguments JSONResponse {train_result} status_code content.
Arguments Trained {train_result} result.
Arguments Uncaught {train_result} msg.

Section Chat.
(** [message.split()]: the words of the message between runs of white
    space. *)
Variable split_whitespace : string -> list string.

Definition train_usage : string :=
"I need at least two table names for training.

Please use this format:
train <place_table> <cts_table> [route_table]

Example: train ariane_place_sorted_csv ariane_cts_sorted_csv
Or: train ariane_place_sorted_csv ariane_cts_sorted_csv ariane_route_sorted_csv".

Definition training_message (place_table cts_table route_table : string)
  : string :=
  "🔧 **Starting Model Training**

" ++ "📊 **Training Configuration:**
" ++ "• Place table: " ++ place_table ++ "
" ++ "• CTS table: " ++ cts_table ++ "
" ++ "• Route table: " ++ route_table ++ "
" ++ "• Model type: Neural Network (Route Slack Prediction)

" ++ "⏳ Training in progress... This may take a few moments.".

Definition handle_train_command (message : string) : option dict :=
  let parts := split_whitespace message in
  if (length parts <? 3)%nat then
    Some [("status", "error"); ("message", train_usage)]
  else
    place_table ← index parts 1;
    cts_table ← index parts 2;
    let route_table :=
      if (3 <? length parts)%nat then index parts 3 else None in
    let route_table :=
      if negb (truthy route_table) then Some cts_table else route_table in
    route_table ← route_table;
    Some [("status", "training");
          ("place_table", place_table);
          ("cts_table", cts_table);
          ("route_table", route_table);
          ("message", training_message place_table cts_table route_table)].

End Chat.

(** [str.split()] on ASCII white space. *)
Fixpoint split_ascii_whitespace_from (word : string) (s : string)
  : list string :=
  let flush := match word with EmptyString => [] | _ => [word] end in
  match s with
  | EmptyString => flush
  | String c rest =>
      if Chat2SQL.is_space c then flush ++ split_ascii_whitespace_from "" rest
      else split_ascii_whitespace_from (word ++ String c "") rest
  end.

Definition split_ascii_whitespace (s : string) : list string :=
  split_ascii_whitespace_from "" s.

(** A sample [train_model]: it counts the distinct tables of the request. *)
Definition sample_train_model (request : TrainRequest) : string + nat :=
  inr (length (remove_dups
                 [place_table request; cts_table request;
                  route_table request])).

End TrainApi.


(** ** prediction.py: [generate_synthetic_data] *)

Module Synthetic.
Import PyNum.

(** A column of a data frame: numeric (a missing value is [None]) or of
    objects (strings). *)
Inductive column : Type :=
| NumCol (values : list (option Q))
| ObjCol (values : list string).

(** A data frame: its number of rows and its columns in order. *)
Record frame : Type := Frame {
  nrows : nat;
  columns : list (string * column)
}.

(** Data frames are objects: a variable holds a reference into the store.
    The state of a run is the store and the position in the stream of
    [np.random]. *)
Definition ref : Type := nat.

Record world : Type := World {
  heap : gmap ref frame;
  rng : nat
}.

(** Computations on the state that may raise (the text of the exception). *)
Definition M (A : Type) : Type := world -> (string + A) * world.

Definition ret {A : Type} (a : A) : M A := fun w => (inr a, w).
Definition raise {A : Type} (msg : string) : M A := fun w => (inl msg, w).
Definition bind {A B : Type} (m : M A) (k : A -> M B) : M B :=
  fun w =>
    match m w with
    | (inr a, w') => k a w'
    | (inl e, w') => (inl e, w')
    end.

#[global] Instance M_ret : MRet M := @ret.
#[global] Instance M_bind : MBind M := fun A B k m => bind m k.

(** A computation whose writes to the store are confined to the object
    [only]: every other reference reads the same before and after. *)
Definition confined {A : Type} (only : ref) (m : M A) : Prop :=
  forall (w : world) (l : ref), l ≠ only -> heap (m w).2 !! l = heap w !! l.

(** [for x in xs: body(x)] *)
Fixpoint for_each {A : Type} (xs : list A) (body : A -> M unit) : M unit :=
  match xs with
  | [] => ret tt
  | x :: rest => body x;; for_each rest body
  end.

(** Reading a data frame through its reference. *)
Definition df_read (df : ref) : M frame :=
  fun w =>
    match heap w !! df with
    | Some f => (inr f, w)
    | None => (inl "dangling reference"%string, w)
    end.

(** A new object in the store. *)
Definition df_alloc (f : frame) : M ref :=
  fun w =>
    let new := fresh (dom (heap w)) in
    (inr new, {| heap := <[new := f]> (heap w); rng := rng w |}).

(** Overwriting the object behind a reference. *)
Definition df_write (df : ref) (f : frame) : M unit :=
  fun w => (inr tt, {| heap := <[df := f]> (heap w); rng := rng w |}).

(** [df.copy(deep=True)]: a new object with a copy of the data. *)
Definition df_copy_deep (df : ref) : M ref :=
  f ← df_read df; df_alloc f.

(** [len(df)] *)
Definition df_len (df : ref) : M nat :=
  f ← df_read df; ret (nrows f).

Definition lookup_column (name : string) (f : frame) : option column :=
  (fun found => found.2.2) <$> list_find (fun c => c.1 = name) (columns f).

(** [name in df.columns] *)
Definition df_has_column (df : ref) (name : string) : M bool :=
  f ← df_read df; ret (bool_decide (is_Some (lookup_column name f))).

(** [df[name]] (and [df[name].values]) *)
Definition df_getitem (df : ref) (name : string) : M column :=
  f ← df_read df;
  match lookup_column name f with
  | Some c => ret c
  | None => raise ("KeyError: " ++ name)
  end.

(** Replacing a column in place, or adding it after the others. *)
Fixpoint set_column (name : string) (c : column)
  (cols : list (string * column)) : list (string * column) :=
  match cols with
  | [] => [(name, c)]
  | (n, c') :: rest =>
      if decide (n = name) then (name, c) :: rest
      else (n, c') :: set_column name c rest
  end.

(** [df[name] = values], for an array of floats. *)
Definition df_setitem (df : ref) (name : string) (values : list (option Q))
  : M unit :=
  f ← df_read df;
  if negb (length values =? nrows f)%nat then
    raise "ValueError: Length of values does not match length of index"
  else
    df_write df {| nrows := nrows f;
                   columns := set_column name (NumCol values) (columns f) |}.

(** [df.select_dtypes(include=[np.number]).columns] *)
Definition numeric_columns_of (f : frame) : list string :=
  omap (fun c => match c.2 with NumCol _ => Some c.1 | ObjCol _ => None end)
    (columns f).

(** [len(series.dropna())] *)
Definition count_present (values : list (option Q)) : nat :=
  length (filter is_Some values).

(** Element-wise [a + b] and [a * b] of float arrays; arrays of different
    lengths do not broadcast here. *)
Definition array_op (op : Q -> Q -> Q) (a : list (option Q)) (b : list Q)
  : M (list (option Q)) :=
  if negb (length a =? length b)%nat then
    raise "ValueError: operands could not be broadcast together"
  else ret (zip_with (fun x y => (fun x => op x y) <$> x) a b).

Definition column_op (op : Q -> Q -> Q) (c : column) (b : list Q)
  : M (list (option Q)) :=
  match c with
  | NumCol a => array_op op a b
  | ObjCol _ => raise "TypeError: unsupported operand type(s)"
  end.

Section Random.
(** The generator of [np.random]: the [n]-th uniform draw on [0, 1) and the
    [n]-th standard normal draw of the process. *)
Variable uniform01 : nat -> Q.
Variable std_normal : nat -> Q.

Definition draw (source : nat -> Q) (size : nat) : M (list Q) :=
  fun w =>
    (inr (source <$> seq (rng w) size),
     {| heap := heap w; rng := rng w + size |}).

(** [np.random.uniform(low, high, size)] and
    [np.random.normal(loc, scale, size)]. *)
Definition np_random_uniform (low high : Q) (size : nat) : M (list Q) :=
  us ← draw uniform01 size;
  ret ((fun u => low + (high - low) * u)%Q <$> us).

Definition np_random_normal (loc scale : Q) (size : nat) : M (list Q) :=
  zs ← draw std_normal size;
  ret ((fun z => loc + scale * z)%Q <$> zs).

Definition protected_columns : list string :=
  ["endpoint"; "beginpoint"; "normalized_endpoint"]%string.

Definition generate_synthetic_data (reference_data : ref) (data_type : string)
  : M ref :=
  synthetic_data ← df_copy_deep reference_data;
  let base_slack_range : Q * Q := (-0.7, -0.5)%Q in
  num_rows ← df_len reference_data;
  synthetic_slacks ←
    (if String.eqb data_type "place" return M (list (option Q)) then
       synthetic_slacks ←
         np_random_uniform base_slack_range.1 base_slack_range.2 num_rows;
       has_slack ← df_has_column reference_data "slack";
       if (has_slack : bool) then
         reference_slacks ← df_getitem reference_data "slack";
         noise ← np_random_normal 0 0.05 num_rows;
         column_op Qplus reference_slacks noise
       else ret (Some <$> synthetic_slacks)
     else
       synthetic_slacks ←
         np_random_uniform (base_slack_range.1 - 0.1)%Q
           (base_slack_range.2 + 0.1)%Q num_rows;
       has_slack ← df_has_column reference_data "slack";
       if (has_slack : bool) then
         reference_slacks ← df_getitem reference_data "slack";
         noise ← np_random_normal 0 0.08 num_rows;
         column_op Qplus reference_slacks noise
       else ret (Some <$> synthetic_slacks));
  df_setitem synthetic_data "slack" synthetic_slacks;;
  f ← df_read synthetic_data;
  let numeric_columns := numeric_columns_of f in
  for_each numeric_columns
    (fun col =>
       if bool_decide (col ∈ ["slack"%string]) then ret tt
       else
         series ← df_getitem synthetic_data col;
         let present :=
           match series with
           | NumCol values => count_present values
           | ObjCol values => length values
           end in
         if (0 <? present)%nat then
           if negb (bool_decide (col ∈ protected_columns)) then
             n ← df_len synthetic_data;
             variation ← np_random_normal 1.0 0.05 n;
             series ← df_getitem synthetic_data col;
             scaled ← column_op Qmult series variation;
             df_setitem synthetic_data col scaled
           else ret tt
         else ret tt);;
  ret synthetic_data.

End Random.

(** A sample store with one frame, and sample random streams. *)
Definition sample_frame : frame :=
  {| nrows := 2;
     columns :=
       [("endpoint"%string, ObjCol ["a/b"%string; "c/d"%string]);
        ("slack"%string, NumCol [Some (-0.5)%Q; None]);
        ("fanout"%string, NumCol [Some 2%Q; Some 3%Q])] |}.

Definition sample_world : world :=
  {| heap := {[ 0%nat := sample_frame ]}; rng := 0 |}.

Definition sample_uniform (n : nat) : Q := (1 # 2)%Q.
Definition sample_normal (n : nat) : Q := (inject_Z (Z.of_nat n) / 10)%Q.

End Synthetic.

(** ** Counting the events of a retry run *)

Module RetryCount.
Import Retry.

Definition is_connect (e : event) : bool :=
  match e with
  | EvConnect => true
  | EvSleep _ => false
  end.

(** The attempts and the sleeps of a trace. *)
Definition connects (t : list event) : nat :=
  length (filter (fun e => is_connect e = true) t).

Definition sleeps (t : list event) : nat :=
  length (filter (fun e => is_connect e = false) t).

End RetryCount.

(** ** prediction.py: the request checks and the alignment of [predict] *)

Module Predict.
Import PySeq Prediction Train TrainApi.
Local Open Scope string_scope.

(** A raised [HTTPException], with the line of its [raise]. *)
Record http_exception : Type := HTTPException {
  raised_at : nat;
  status_code : Z;
  detail : string
}.

Definition route_table_detail : string :=
  "Cannot predict routes using route tables as input. Please provide place and/or CTS tables to predict route slack.".

Section Checks.
(** [str.lower()] *)
Variable lower : string -> string.

(** [table and 'route' in table.lower()] *)
Definition names_route (table : option string) : bool :=
  match table with
  | Some name => truthy table && contains "route" (lower name)
  | None => false
  end.

(** [a and b and a == b] on the two table names. *)
Definition same_table (place_table cts_table : option string) : bool :=
  truthy place_table && truthy cts_table
  && match place_table, cts_table with
     | Some p, Some c => String.eqb p c
     | None, None => true
     | _, _ => false
     end.

(** Lines 589-634 of [predict]: the checks in their order; [None] when all
    pass. *)
Definition predict_checks (place_table cts_table : option string)
  (model_trained : bool) : option http_exception :=
  if negb (truthy place_table || truthy cts_table) then
    Some (HTTPException 592 400
            "At least one table (place_table or cts_table) is required for prediction")
  else if names_route place_table || names_route cts_table then
    Some (HTTPException 600 400 route_table_detail)
  else if same_table place_table cts_table then
    Some (HTTPException 607 400
            "Place table and CTS table must be different. Cannot predict from the same table.")
  else if negb model_trained then
    Some (HTTPException 615 400 "Models not trained yet. Please train first.")
  else if names_route place_table then
    Some (HTTPException 619 400 route_table_detail)
  else if names_route cts_table then
    Some (HTTPException 624 400 route_table_detail)
  else if negb (truthy place_table) && negb (truthy cts_table) then
    Some (HTTPException 631 400
            "At least one table (place or CTS) must be provided for prediction.")
  else None.

End Checks.

(** [left.merge(right, on='normalized_endpoint', how='inner')]: the rows of
    the left table in their order, each with the rows of the right table
    that have its key. *)
Definition merge_inner (left right : list nrow) : list (nrow * nrow) :=
  l ← left;
  r ← rows_with (normalized_endpoint l) right;
  [(l, r)].

Inductive align_error : Type :=
| NoCommonEndpoints
| NoMatchAfterMerge.

(** Lines 745-797 of [predict]: normalize, intersect, filter, drop
    duplicates, merge. *)
Definition predict_align (place_data cts_data : list row)
  : align_error + list (nrow * nrow) :=
  let place_data := add_normalized_endpoint place_data in
  let cts_data := add_normalized_endpoint cts_data in
  let common_endpoints :=
    elements (endpoint_set place_data ∩ endpoint_set cts_data) in
  if (length common_endpoints =? 0)%nat then inl NoCommonEndpoints
  else
    let place_filtered := filter_isin common_endpoints place_data in
    let cts_filtered := filter_isin common_endpoints cts_data in
    let place_filtered := drop_duplicates place_filtered in
    let cts_filtered := drop_duplicates cts_filtered in
    let merged_data := merge_inner place_filtered cts_filtered in
    if (length merged_data =? 0)%nat then inl NoMatchAfterMerge
    else inr merged_data.

End Predict.

(** ** Running a computation against a server *)

Module Chat2SQLRun.
Import Chat2SQL.

(** The outcome of a computation when [server] answers its API calls: the
    text of the exception, or the value returned. *)
Fixpoint run {A : Type} (server : string -> string + http_response)
  (p : prog A) : string + A :=
  match p with
  | Ret a => inr a
  | Raise msg => inl msg
  | Post _ _ prompt k => run server (k (server prompt))
  end.

End Chat2SQLRun.

(** ** consistent_query_handler.py: [ConsistentQueryHandler] *)

Module ConsistentQuery.
Import PySeq.
Local Open Scope string_scope.

Definition METRIC_MAPPINGS : list (string * list string) :=
  [("place", ["place"; "placement"; "place_slack"; "place_timing"]);
   ("cts", ["cts"; "clock_tree"; "clock_tree_synthesis"; "cts_slack"]);
   ("route", ["route"; "routing"; "route_slack"; "route_timing"]);
   ("setup", ["setup"; "setup_slack"; "setup_timing"]);
   ("hold", ["hold"; "hold_slack"; "hold_timing"]);
   ("wns", ["wns"; "worst_negative_slack"; "worst_slack"]);
   ("tns", ["tns"; "total_negative_slack"])].

Definition METRIC_COLUMNS : list (string * list string) :=
  [("place", ["design"; "stage"; "place_setup_WNS"; "place_setup_TNS";
              "place_hold_WNS"; "place_hold_TNS"]);
   ("cts", ["design"; "stage"; "cts_setup_WNS"; "cts_setup_TNS";
            "cts_hold_WNS"; "cts_hold_TNS"]);
   ("route", ["design"; "stage"; "route_setup_WNS"; "route_setup_TNS";
              "route_hold_WNS"; "route_hold_TNS"])].

Definition DEFAULT_TABLE : string := "qor_metrics".

(** [d[key]] on a dict literal; [None] when the key is absent. *)
Fixpoint dict_get {V : Type} (d : list (string * V)) (key : string)
  : option V :=
  match d with
  | [] => None
  | (k, v) :: rest => if String.eqb k key then Some v else dict_get rest key
  end.

(** [f"SELECT * FROM {self.DEFAULT_TABLE} LIMIT 50;"] *)
Definition generic_query : string :=
  "SELECT * FROM " ++ DEFAULT_TABLE ++ " LIMIT 50;".

(** Lines 66-73 of [generate_consistent_sql]: the columns, from the list of
    metrics. *)
Definition select_columns (metrics : list string) : list string :=
  foldl
    (fun columns metric =>
       match dict_get METRIC_COLUMNS metric with
       | Some metric_columns =>
           let metric_cols :=
             filter (fun col => col ∉ columns) metric_columns in
           (columns ++ metric_cols)%list
       | None => columns
       end)
    ["design"; "stage"] metrics.

(** Lines 83-94: the condition on the stage that is appended to the query. *)
Definition stage_condition (metrics : list string) : string :=
  let has metric := bool_decide (metric ∈ metrics) in
  if has "place" && has "cts" && negb (has "route") then
    " WHERE stage IN ('place', 'cts')"
  else if has "place" && has "route" && negb (has "cts") then
    " WHERE stage IN ('place', 'route')"
  else if has "cts" && has "route" && negb (has "place") then
    " WHERE stage IN ('cts', 'route')"
  else if has "place" && negb (has "cts") && negb (has "route") then
    " WHERE stage = 'place'"
  else if has "cts" && negb (has "place") && negb (has "route") then
    " WHERE stage = 'cts'"
  else if has "route" && negb (has "place") && negb (has "cts") then
    " WHERE stage = 'route'"
  else "".

(** Lines 61-100: the query, from the list of metrics. *)
Definition sql_of_metrics (metrics : list string) : string :=
  if (length metrics =? 0)%nat then generic_query
  else
    let columns := select_columns metrics in
    if bool_decide (columns = ["design"; "stage"]) then generic_query
    else
      let sql :=
        "SELECT " ++ join ", " columns ++ " FROM " ++ DEFAULT_TABLE in
      let sql := sql ++ stage_condition metrics in
      sql ++ " ORDER BY design, stage LIMIT 100;".

Section Handler.
(** [str.lower()], [str.split()], [re.sub(r'[^\w\s]', '', term)], and
    [list(s)] on the set that results from adding the given elements in
    their order to an empty set: the order of the list is the
    interpreter's. *)
Variable lower : string -> string.
Variable split_whitespace : string -> list string.
Variable clean : string -> string.
Variable list_of_set : list string -> list string.

(** [__init__]: the reverse map, from each variation to its standard name. *)
Definition metric_reverse_map : gmap string string :=
  foldl
    (fun reverse_map entry =>
       foldl
         (fun reverse_map variation =>
            <[lower variation := entry.1]> reverse_map)
         reverse_map entry.2)
    ∅ METRIC_MAPPINGS.

(** The standard names that [extract_metrics] adds to [found_metrics], in
    the order of the terms of the query. *)
Definition found_metrics (query_text : string) : list string :=
  let query_lower := lower query_text in
  omap (fun term => metric_reverse_map !! clean term)
    (split_whitespace query_lower).

Definition extract_metrics (query_text : string) : list string :=
  list_of_set (found_metrics query_text).

Definition generate_consistent_sql (query_text : string) : string :=
  sql_of_metrics (extract_metrics query_text).

End Handler.

(** The word characters of ASCII and the white space, which is what
    [re.sub(r'[^\w\s]', '', term)] keeps of ASCII text. *)
Definition is_word (c : ascii) : bool :=
  let n := nat_of_ascii c in
  ((48 <=? n) && (n <=? 57) || (65 <=? n) && (n <=? 90)
   || (97 <=? n) && (n <=? 122) || (n =? 95))%nat.

Fixpoint clean_ascii (term : string) : string :=
  match term with
  | EmptyString => EmptyString
  | String c rest =>
      if is_word c || Chat2SQL.is_space c then String c (clean_ascii rest)
      else clean_ascii rest
  end.

End ConsistentQuery.

(** ** prediction.py: storing the predictions (lines 1086-1196 of [predict]) *)

Module Storage.
Import PySeq.
Local Open Scope string_scope.

(** [int(s)] and [str(n)] on the natural numbers.  [int] is modelled on the
    strings of ASCII digits, which are the only ones line 1110 meets: the
    query before it keeps the names that match [^prediction_[0-9]+$].
    [None] is the [ValueError]. *)
Definition py_int (s : string) : option N :=
  N.of_uint <$> NilZero.uint_of_string s.

Definition py_str_int (n : N) : string :=
  NilZero.string_of_uint (N.to_uint n).

Definition is_digit (c : ascii) : bool :=
  let n := nat_of_ascii c in ((48 <=? n) && (n <=? 57))%nat.

(** The names the query of lines 1096-1102 returns:
    [table_name ~ '^prediction_[0-9]+$']. *)
Definition prediction_name (table : string) : Prop :=
  exists digits,
    table = "prediction_" ++ digits
    /\ digits <> ""
    /\ forall c, has_char c digits -> is_digit c = true.

(** [int(table.split('_')[1])]; [None] is the [IndexError] or the
    [ValueError], on which the loop continues. *)
Definition table_number (table : string) : option N :=
  part ← index (split "_" table) 1;
  py_int part.

(** Lines 1106-1117: the name of the next prediction table. *)
Definition next_prediction_table (existing_tables : list string) : string :=
  let max_num :=
    foldl
      (fun max_num table =>
         match table_number table with
         | Some num => N.max max_num num
         | None => max_num
         end)
      0%N existing_tables in
  let next_num := (max_num + 1)%N in
  "prediction_" ++ py_str_int next_num.

(** A row of [result_df]: the dict of lines 1030-1036. *)
Record route_row : Type := RouteRow {
  beginpoint : string;
  endpoint : string;
  place_slack : Q;
  cts_slack : Q;
  predicted_route_slack : Q
}.

Inductive value : Type :=
| VStr (s : string)
| VFloat (x : Q).

(** [row[label]] on a row of [result_df], whose labels are the five keys of
    the dict; [inl] is the [KeyError]. *)
Definition row_getitem (row : route_row) (label : string) : string + value :=
  if String.eqb label "beginpoint" then inr (VStr (beginpoint row))
  else if String.eqb label "endpoint" then inr (VStr (endpoint row))
  else if String.eqb label "place_slack" then inr (VFloat (place_slack row))
  else if String.eqb label "cts_slack" then inr (VFloat (cts_slack row))
  else if String.eqb label "predicted_route_slack" then
    inr (VFloat (predicted_route_slack row))
  else inl label.

(** The parameters of the [INSERT] of lines 1156-1172, read from the row in
    the order of the dict display ([str] of a string and [float] of a float
    return their argument). *)
Definition insert_labels : list string :=
  ["beginpoint"; "endpoint"; "place_slack"; "cts_slack";
   "predicted_route_slack"; "fanout"; "netcount"; "netdelay"; "invdelay";
   "bufdelay"; "seqdelay"; "skew"; "combodelay"; "wirelength"; "slack"].

Fixpoint getitems (row : route_row) (labels : list string)
  : string + list (string * value) :=
  match labels with
  | [] => inr []
  | label :: rest =>
      match row_getitem row label with
      | inl key => inl key
      | inr v =>
          match getitems row rest with
          | inl key => inl key
          | inr params => inr ((label, v) :: params)
          end
      end
  end.

Definition insert_params (row : route_row) : string + list (string * value) :=
  getitems row insert_labels.

(** The statements sent to the database. *)
Inductive statement : Type :=
| SelectPredictionTables
| CreateTable (name : string)
| InsertInto (name : string) (params : list (string * value))
| SelectCount (name : string).

(** [range(0, n, step)] and the batches [result_df.iloc[i:i+batch_size]]. *)
Definition range_step (n step : nat) : list nat :=
  (fun k => k * step)%nat <$> seq 0 ((n + step - 1) / step).

Definition batches (result_df : list route_row) (batch_size : nat)
  : list (list route_row) :=
  (fun i => take batch_size (drop i result_df))
    <$> range_step (length result_df) batch_size.

(** What the block leaves behind: the two variables the rest of [predict]
    reads, the statements that were sent, and whether the transaction block
    was left without an exception (else it is rolled back). *)
Record storage : Type := Stored {
  db_storage_success : bool;
  prediction_table_name : option string;
  sent : list statement;
  committed : bool
}.

Section Database.
(** The database: the exception of [get_output_db_connection()] or of
    [connect()], if there is one; the names the first query returns; the
    exception of a [CREATE] or an [INSERT], if there is one; the count of
    the last query. *)
Variable connect : option string.
Variable select_prediction_tables : string + list string.
Variable execute : statement -> option string.
Variable select_count : string -> string + Z.

(** The inner loop of lines 1149-1172 on one batch: the exception that ends
    it, if any, and the statements sent. *)
Fixpoint insert_rows (name : string) (batch : list route_row)
  : option string * list statement :=
  match batch with
  | [] => (None, [])
  | row :: rest =>
      match insert_params row with
      | inl key => (Some ("KeyError: " ++ key), [])
      | inr params =>
          match execute (InsertInto name params) with
          | Some error => (Some error, [InsertInto name params])
          | None =>
              let '(raised, more) := insert_rows name rest in
              (raised, InsertInto name params :: more)
          end
      end
  end.

(** The outer loop of lines 1147-1175: the exception, or [records_inserted]. *)
Fixpoint insert_batches (name : string) (todo : list (list route_row))
  (records_inserted : nat) : (string + nat) * list statement :=
  match todo with
  | [] => (inr records_inserted, [])
  | batch :: rest =>
      match insert_rows name batch with
      | (Some error, statements) => (inl error, statements)
      | (None, statements) =>
          let '(result, more) :=
            insert_batches name rest (records_inserted + length batch) in
          (result, (statements ++ more)%list)
      end
  end.

(** Lines 1086-1196. *)
Definition store_predictions (result_df : list route_row) : storage :=
  match connect with
  | Some _ => Stored false None [] false
  | None =>
      match select_prediction_tables with
      | inl _ => Stored false None [SelectPredictionTables] false
      | inr existing_tables =>
          let name := next_prediction_table existing_tables in
          let created := [SelectPredictionTables; CreateTable name] in
          match execute (CreateTable name) with
          | Some _ => Stored false (Some name) created false
          | None =>
              match insert_batches name (batches result_df 100) 0 with
              | (inl _, inserts) =>
                  Stored false (Some name) (created ++ inserts)%list false
              | (inr records_inserted, inserts) =>
                  let counted :=
                    (created ++ inserts ++ [SelectCount name])%list in
                  match select_count name with
                  | inl _ => Stored false (Some name) counted false
                  | inr after_count =>
                      if (after_count =? Z.of_nat records_inserted)%Z then
                        Stored true (Some name) counted true
                      else Stored false (Some name) counted true
                  end
              end
          end
      end
  end.

End Database.

(** Line 1216: the table named in the message of the response. *)
Definition results_stored_in (s : storage) : string :=
  if TrainApi.truthy (prediction_table_name s) then
    default "" (prediction_table_name s)
  else "storage failed".

End Storage.

(** ** prediction.py: [slack_prediction_train] *)

Module TrainRoutes.
Import PySeq TrainApi.
Local Open Scope string_scope.

Section Routes.
(** [train_model]: its result, or the text of the exception it raises. *)
Variable train_result : Type.
Variable train_model : TrainRequest -> string + train_result.

(** What the handler gives back: a [JSONResponse] whose content is a dict of
    strings, the [JSONResponse] of the value [train_model] returned, or an
    exception it let through. *)
Inductive train_response : Type :=
| Json (status_code : Z) (content : dict)
| JsonResult (result : train_result)
| Escaped (msg : string).

(** Lines 296-302: the names of the missing tables. *)
Definition missing_tables (place_table cts_table route_table : option string)
  : list string :=
  let missing_tables := [] in
  let missing_tables :=
    if negb (truthy place_table) then (missing_tables ++ ["place_table"])%list
    else missing_tables in
  let missing_tables :=
    if negb (truthy cts_table) then (missing_tables ++ ["cts_table"])%list
    else missing_tables in
  let missing_tables :=
    if negb (truthy route_table) then (missing_tables ++ ["route_table"])%list
    else missing_tables in
  missing_tables.

Definition all_three_required (missing_tables : list string) : dict :=
  [("status", "error");
   ("message",
    "All three tables are required for training. Missing: "
    ++ join ", " missing_tables
    ++ ". Please provide place_table, cts_table, and route_table.")].

Definition slack_prediction_train
  (place_table cts_table route_table place cts route : option string)
  : train_response :=
  let place_table := py_or place_table place in
  let cts_table := py_or cts_table cts in
  let route_table := py_or route_table route in
  if truthy (py_and (py_and place_table cts_table) route_table) then
    match place_table, cts_table, route_table with
    | Some p, Some c, Some r =>
        match train_model (MkTrainRequest p c r) with
        | inr result => JsonResult result
        | inl e => Json 500 [("status", "error"); ("message", e)]
        end
    | _, _, _ => Escaped "ValidationError"
    end
  else
    Json 400
      (all_three_required (missing_tables place_table cts_table route_table)).

End Routes.
Arguments Json {train_result} status_code content.
Arguments JsonResult {train_result} result.
Arguments Escaped {train_result} msg.

End TrainRoutes.

(** ** The shape of a synthetic data frame *)

Module SyntheticShape.
Import Synthetic.
Local Open Scope string_scope.

(** A computation that does not write to the store. *)
Definition reads_only {A : Type} (m : M A) : Prop :=
  forall w, heap (m w).2 = heap w.

(** A computation that keeps the property [P] of the store, whether it
    returns or raises. *)
Definition keeps {A : Type} (P : gmap ref frame -> Prop) (m : M A) : Prop :=
  forall w, P (heap w) -> P (heap (m w).2).

(** [f'] has the shape of [f]: as many rows and, apart from [slack], the
    same column names and the same object columns. *)
Definition same_shape (f f' : frame) : Prop :=
  nrows f' = nrows f
  /\ (forall name values,
        name <> "slack" ->
        lookup_column name f = Some (ObjCol values) ->
        lookup_column name f' = Some (ObjCol values))
  /\ (forall name,
        name <> "slack" ->
        (is_Some (lookup_column name f') <-> is_Some (lookup_column name f))).

(** The object behind [df] has the shape of [f] and a [slack] column. *)
Definition shaped (df : ref) (f : frame) (h : gmap ref frame) : Prop :=
  exists f',
    h !! df = Some f'
    /\ same_shape f f'
    /\ is_Some (lookup_column "slack" f').

End SyntheticShape.

(** ** prediction.py: the slack values reported by [predict] *)

Module Reported.
Import Prediction Train.

#[global] Instance pyval_eq_dec : EqDecision pyval.
Proof. solve_decision. Defined.

(** [str(v)] of a cell. *)
Definition py_str (v : pyval) : string :=
  match v with
  | PStr s => s
  | PObj str_of => str_of
  end.

(** [dict(zip(data['endpoint'], data['slack']))], as it is read at a [str]
    key (a key that is not a [str] is equal to no [str]): a later row
    replaces the value of an earlier row with the same endpoint. *)
Definition original_slacks (data : list row) : gmap string (option Q) :=
  foldl
    (fun slacks r =>
       match endpoint r with
       | PStr e => <[e := slack r]> slacks
       | PObj _ => slacks
       end)
    ∅ data.

(** The loop of lines 689-691: the same by normalized endpoint. *)
Definition original_slacks_normalized (data : list row)
  : gmap string (option Q) :=
  foldl
    (fun slacks r => <[normalize_endpoint (endpoint r) := slack r]> slacks)
    ∅ data.

(** Lines 998-999: the two keys under which the slacks of a row of the
    merge are looked up, for the place table and for the CTS table alike:
    [str(merged_data.iloc[i]['endpoint_place'])], the endpoint of the place
    row, and [str(merged_data.iloc[i]['normalized_endpoint'])], the key of
    the merge. *)
Definition merged_endpoint (merged : nrow * nrow) : string :=
  py_str (endpoint (base merged.1)).

Definition merged_normalized_endpoint (merged : nrow * nrow) : string :=
  normalized_endpoint merged.1.

(** Lines 1003-1011, and 1013-1021 for the CTS table: the slack reported
    for a row of the merge, where [data] is the table as it was fetched,
    [endpoint] and [normalized_endpoint] are the two keys of the row and
    [processed] is the slack of the row in the merge.  [float] returns its
    argument; the innermost [None] branch stands for the [KeyError] that the
    test before it excludes. *)
Definition reported_slack (is_real : bool) (data : list row)
  (endpoint normalized_endpoint : string) (processed : option Q)
  : option Q :=
  let stored := is_real && (0 <? length data)%nat in
  let original_slacks :=
    if stored then original_slacks data else ∅ in
  let original_slacks_normalized :=
    if stored then original_slacks_normalized data else ∅ in
  if is_real
     && (bool_decide (is_Some (original_slacks !! endpoint))
         || bool_decide
              (is_Some (original_slacks_normalized !! normalized_endpoint)))
  then
    match original_slacks !! endpoint with
    | Some slack_val => slack_val
    | None =>
        match original_slacks_normalized !! normalized_endpoint with
        | Some slack_val => slack_val
        | None => processed
        end
    end
  else processed.

(** [place_slack_val] and [cts_slack_val] of a row of the merge, whose
    place row is its first component and whose CTS row is its second. *)
Definition place_slack_val (place_is_real : bool) (place_data : list row)
  (merged : nrow * nrow) : option Q :=
  reported_slack place_is_real place_data (merged_endpoint merged)
    (merged_normalized_endpoint merged) (slack (base merged.1)).

Definition cts_slack_val (cts_is_real : bool) (cts_data : list row)
  (merged : nrow * nrow) : option Q :=
  reported_slack cts_is_real cts_data (merged_endpoint merged)
    (merged_normalized_endpoint merged) (slack (base merged.2)).

(** A place table with a repeated endpoint, and a CTS table that has one of
    the endpoints of the place table in its second row. *)
Definition sample_repeated : list row :=
  [Row (PStr "top/u1/reg/D") (Some (-0.52)%Q) [];
   Row (PStr "top/u2/reg/D") (Some (-0.47)%Q) [];
   Row (PStr "top/u1/reg/D") (Some (-0.40)%Q) []].

Definition sample_cts_fetched : list row :=
  [Row (PStr "u1/reg/D") (Some (-0.61)%Q) [];
   Row (PStr "top/u1/reg/D") (Some (-0.3)%Q) []].

End Reported.

(** ** The database connection of [execute_sql] and [get_database_schema] *)

Module Connections.
Import Retry.
Local Open Scope string_scope.

(** What a call does to the connection: the events of the retry loop, the
    connection obtained, the connection closed. *)
Inductive db_event : Type :=
| Attempt (e : event)
| Opened
| Closed.

#[global] Instance event_eq_dec : EqDecision event.
Proof. solve_decision. Defined.

#[global] Instance db_event_eq_dec : EqDecision db_event.
Proof. solve_decision. Defined.

Definition opens (t : list db_event) : nat :=
  length (filter (fun e => e = Opened) t).

Definition closes (t : list db_event) : nat :=
  length (filter (fun e => e = Closed) t).

Definition attempts (t : list db_event) : nat :=
  length (filter (fun e => e = Attempt EvConnect) t).

Section Database.
Context {conn rows table column : Type}.

(** The database: the result of the [n]-th call of [psycopg2.connect], and
    what the work on the cursor of an open connection gives, the text of an
    exception or the rows. *)
Variable connect : nat -> string + conn.
Variable fetch : conn -> string -> string + rows.

Definition failed (msg : string) : string :=
  "Failed to execute query: " ++ msg.

(** improved_chat2sql_backend.py, [execute_sql]: the [try] with its
    [except] and its [finally] ([conn.close()] itself is taken not to
    raise). *)
Definition execute_sql (query : string) : (string + rows) * list db_event :=
  let '(got, retried) := get_connection_with_retry_default connect in
  let retried : list db_event := Attempt <$> retried in
  match got with
  | Returned c =>
      match fetch c query with
      | inr results => (inr results, (retried ++ [Opened; Closed])%list)
      | inl e => (inl (failed e), (retried ++ [Opened; Closed])%list)
      end
  | Raised e => (inl (failed e), retried)
  | RaisedNone =>
      (inl (failed "exceptions must derive from BaseException"), retried)
  | SleepValueError =>
      (inl (failed "sleep length must be non-negative"), retried)
  end.

(** CHAT2SQL-MODULE/backend.py, [get_database_schema]: the rows of the
    query for the tables, then one query for the columns of each table. *)
Variable list_tables : conn -> string + list table.
Variable table_columns : conn -> table -> string + list column.

(** The loop over the tables; it ends at the first exception. *)
Fixpoint with_columns (c : conn) (tables : list table)
  : string + list (table * list column) :=
  match tables with
  | [] => inr []
  | t :: rest =>
      match table_columns c t with
      | inl e => inl e
      | inr columns =>
          match with_columns c rest with
          | inl e => inl e
          | inr described => inr ((t, columns) :: described)
          end
      end
  end.

(** The value of ["tables"] in the result, and the events: [conn.close()]
    is the last statement of the [try]. *)
Definition get_database_schema
  : list (table * list column) * list db_event :=
  match connect 0 with
  | inl _ => ([], [Attempt EvConnect])
  | inr c =>
      match list_tables c with
      | inl _ => ([], [Attempt EvConnect; Opened])
      | inr tables =>
          match with_columns c tables with
          | inl _ => ([], [Attempt EvConnect; Opened])
          | inr described => (described, [Attempt EvConnect; Opened; Closed])
          end
      end
  end.

End Database.

End Connections.

(** ** prediction.py: the table groups of [get_available_tables] *)

Module AvailableTables.
Import PySeq.
Local Open Scope string_scope.

(** An entry of [tables], with the keys the grouping reads. *)
Record table_info : Type := TableInfo {
  table_name : string;
  row_count : Z;
  suitable_for_training : bool
}.

(** An entry of a group. *)
Record group_entry : Type := GroupEntry {
  entry_table_name : string;
  suffix : string;
  entry_row_count : Z
}.

(** [table_groups]: a dict, in the order of insertion of its keys. *)
Definition groups : Type := list (string * list group_entry).

(** Lines 1933-1940: [table_groups[prefix].append(entry)], on a new list when
    the key is new. *)
Fixpoint group_append (prefix : string) (entry : group_entry)
  (table_groups : groups) : groups :=
  match table_groups with
  | [] => [(prefix, [entry])]
  | (key, entries) :: rest =>
      if String.eqb key prefix then (key, entries ++ [entry])%list :: rest
      else (key, entries) :: group_append prefix entry rest
  end.

(** Lines 1923-1940, for one table. *)
Definition group_table (table_groups : groups) (table : table_info)
  : groups :=
  let parts := split "_" (table_name table) in
  if (2 <=? length parts)%nat then
    foldl
      (fun table_groups i =>
         let prefix := join "_" (take i parts) in
         let suffix := join "_" (drop i parts) in
         group_append prefix
           (GroupEntry (table_name table) suffix (row_count table))
           table_groups)
      table_groups (seq 1 (length parts - 1))
  else table_groups.

(** Lines 1915-1940. *)
Definition group_tables (tables : list table_info) : groups :=
  let suitable_tables :=
    filter (fun t => suitable_for_training t = true) tables in
  foldl group_table [] suitable_tables.

Record training_set : Type := TrainingSet {
  group_name : string;
  place_table : string;
  cts_table : string;
  route_table : string;
  total_rows : Z * Z * Z
}.

Section Lower.
(** [str.lower()] *)
Variable lower : string -> string.

(** [[t for t in group_tables if keyword in t["suffix"].lower()]] *)
Definition with_keyword (keyword : string) (group_tables : list group_entry)
  : list group_entry :=
  filter (fun t => contains keyword (lower (suffix t)) = true) group_tables.

(** Lines 1943-1963. *)
Definition complete_training_sets (table_groups : groups)
  : list training_set :=
  omap
    (fun '(prefix, group_tables) =>
       match with_keyword "place" group_tables,
             with_keyword "cts" group_tables,
             with_keyword "route" group_tables with
       | place :: _, cts :: _, route :: _ =>
           Some (TrainingSet prefix (entry_table_name place)
                   (entry_table_name cts) (entry_table_name route)
                   (entry_row_count place, entry_row_count cts,
                    entry_row_count route))
       | _, _, _ => None
       end)
    table_groups.

End Lower.

End AvailableTables.

(** ** improved_chat2sql_backend.py: [process_natural_language_query] *)

Module ProcessQuery.
Import PySeq ConsistentQuery.
Local Open Scope string_scope.

Section Process.
Variable lower : string -> string.
Variable split_whitespace : string -> list string.
Variable clean : string -> string.
Variable list_of_set : list string -> list string.

(** [re.search(r'a|b|c', text)]: one of the alternatives occurs in the
    text. *)
Definition search_any (alternatives : list string) (text : string) : bool :=
  existsb (fun alternative => contains alternative text) alternatives.

(** [ConsistentQueryHandler.get_query_type] *)
Definition get_query_type (query_text : string) : string :=
  let query_lower := lower query_text in
  if search_any ["predict"; "prediction"; "forecast"; "estimate"] query_lower
  then "prediction"
  else if search_any ["compare"; "comparison"; "versus"; "vs"] query_lower
  then "comparison"
  else if search_any ["trend"; "history"; "historical"; "over time"]
            query_lower
  then "trend"
  else "data_retrieval".

Definition process_natural_language_query (query_text : string) : string :=
  if String.prefix "select " (lower (Chat2SQL.strip query_text)) then
    query_text
  else
    let query_type := get_query_type query_text in
    if String.eqb query_type "prediction" then
      let metrics :=
        extract_metrics lower split_whitespace clean list_of_set query_text in
      let has metric := bool_decide (metric ∈ metrics) in
      let sql := "SELECT design, stage, " in
      let sql :=
        if has "place" || has "cts" || has "route" then
          ((sql ++ "place_setup_WNS, place_hold_WNS, ")
             ++ "cts_setup_WNS, cts_hold_WNS, ")
            ++ "route_setup_WNS, route_hold_WNS "
        else sql ++ "* " in
      let sql := sql ++ "FROM " ++ DEFAULT_TABLE ++ " " in
      let sql := sql ++ "ORDER BY design, stage LIMIT 100;" in
      sql
    else
      generate_consistent_sql lower split_whitespace clean list_of_set
        query_text.

End Process.

End ProcessQuery.


(** * Part II: properties *)

(** ** Comparisons, [min], [max] and the clamp *)

Section PyNumFacts.
Import PyNum.
Local Open Scope Q_scope.

Lemma ltb_lt (x y : Q) : ltb x y = true <-> x < y.
Proof.
  unfold ltb. rewrite negb_true_iff.
  destruct (Qle_bool y x) eqn:E.
  - apply Qle_bool_iff in E. split; [discriminate | intros H; lra].
  - split; [intros _ | reflexivity].
    destruct (Qlt_le_dec x y) as [H | H]; [exact H |].
    apply Qle_bool_iff in H. congruence.
Qed.

Lemma ltb_ge (x y : Q) : ltb x y = false <-> y <= x.
Proof.
  unfold ltb. rewrite negb_false_iff. apply Qle_bool_iff.
Qed.

Lemma py_min_cases (a b : Q) :
  (b < a /\ py_min a b = b) \/ (a <= b /\ py_min a b = a).
Proof.
  unfold py_min. destruct (ltb b a) eqn:E.
  - left. split; [now apply ltb_lt | reflexivity].
  - right. split; [now apply ltb_ge | reflexivity].
Qed.

Lemma py_max_cases (a b : Q) :
  (a < b /\ py_max a b = b) \/ (b <= a /\ py_max a b = a).
Proof.
  unfold py_max, gtb. destruct (ltb a b) eqn:E.
  - left. split; [now apply ltb_lt | reflexivity].
  - right. split; [now apply ltb_ge | reflexivity].
Qed.

(** Python's [min] and [max] agree with the mathematical ones. *)
Lemma py_min_Qmin (a b : Q) : py_min a b == Qmin a b.
Proof.
  destruct (py_min_cases a b) as [[H ->] | [H ->]].
  - symmetry. apply Q.min_r. lra.
  - symmetry. apply Q.min_l. exact H.
Qed.

Lemma py_max_Qmax (a b : Q) : py_max a b == Qmax a b.
Proof.
  destruct (py_max_cases a b) as [[H ->] | [H ->]].
  - symmetry. apply Q.max_r. lra.
  - symmetry. apply Q.max_l. exact H.
Qed.

Lemma py_min_le_max (a b : Q) : py_min a b <= py_max a b.
Proof.
  destruct (py_min_cases a b) as [[H ->] | [H ->]];
    destruct (py_max_cases a b) as [[H' ->] | [H' ->]]; lra.
Qed.

(** The idiom [x = max(x, lo); x = min(x, hi)] lands in [[lo, hi]]. *)
Lemma clamp_bounds (lo hi x : Q) :
  lo <= hi -> lo <= py_min (py_max x lo) hi <= hi.
Proof.
  intros Hlh.
  destruct (py_min_cases (py_max x lo) hi) as [[H2 ->] | [H2 ->]];
    destruct (py_max_cases x lo) as [[H1 E1] | [H1 E1]];
    rewrite E1 in *; lra.
Qed.

(** Inside the interval the idiom keeps its argument. *)
Lemma clamp_inside (lo hi x : Q) :
  lo <= x -> x <= hi -> py_min (py_max x lo) hi = x.
Proof.
  intros Hl Hh.
  assert (py_max x lo = x) as ->.
  { unfold py_max, gtb. destruct (ltb x lo) eqn:E; [| reflexivity].
    apply ltb_lt in E. lra. }
  unfold py_min. destruct (ltb hi x) eqn:E; [| reflexivity].
  apply ltb_lt in E. lra.
Qed.

(** The comparisons and [min], [max], [abs] respect the equality of
    rationals. *)
#[global] Instance ltb_proper : Proper (Qeq ==> Qeq ==> eq) ltb.
Proof. intros x x' Hx y y' Hy. unfold ltb. now rewrite Hx, Hy. Qed.

#[global] Instance gtb_proper : Proper (Qeq ==> Qeq ==> eq) gtb.
Proof. intros x x' Hx y y' Hy. unfold gtb. now rewrite Hx, Hy. Qed.

#[global] Instance py_min_proper : Proper (Qeq ==> Qeq ==> Qeq) py_min.
Proof.
  intros x x' Hx y y' Hy. unfold py_min.
  rewrite Hx, Hy. destruct (ltb y' x'); assumption.
Qed.

#[global] Instance py_max_proper : Proper (Qeq ==> Qeq ==> Qeq) py_max.
Proof.
  intros x x' Hx y y' Hy. unfold py_max.
  rewrite Hx, Hy. destruct (gtb y' x'); assumption.
Qed.

#[global] Instance py_abs_proper : Proper (Qeq ==> Qeq) py_abs.
Proof. intros x x' Hx. unfold py_abs. now rewrite Hx. Qed.

End PyNumFacts.


(** ** The slack arithmetic of prediction.py *)

Section SlackFacts.
Import PyNum Prediction.
Local Open Scope Q_scope.

Lemma improve_route_prediction_clamped (raw_pred place_slack cts_slack : Q) :
  py_min place_slack cts_slack - 0.05
    <= improve_route_prediction raw_pred place_slack cts_slack
    <= py_max place_slack cts_slack + 0.02.
Proof.
  unfold improve_route_prediction. cbv zeta.
  apply clamp_bounds.
  pose proof (py_min_le_max place_slack cts_slack). lra.
Qed.

(** The loop of [improve_route_predictions] from index [k] on: with enough
    slacks it appends one corrected value per index. *)
Lemma improve_fold (raw ps cs : list Q) (n k : nat) (acc : list Q) :
  (k + n <= length raw)%nat -> (k + n <= length ps)%nat ->
  (k + n <= length cs)%nat ->
  exists out,
    foldl
      (fun (acc : option (list Q)) (i : nat) =>
         improved_predictions ← acc;
         raw_pred ← raw !! i;
         place_slack ← ps !! i;
         cts_slack ← cs !! i;
         Some (improved_predictions
                 ++ [improve_route_prediction raw_pred place_slack cts_slack]))
      (Some acc) (seq k n) = Some (acc ++ out)
    /\ length out = n
    /\ forall j, (j < n)%nat ->
         exists r p c,
           raw !! (k + j)%nat = Some r /\ ps !! (k + j)%nat = Some p
           /\ cs !! (k + j)%nat = Some c
           /\ out !! j = Some (improve_route_prediction r p c).
Proof.
  revert k acc. induction n as [| n IH]; intros k acc Hr Hp Hc.
  - exists []. simpl. rewrite app_nil_r. repeat split; [lia ..| intros j Hj; lia].
  - destruct (lookup_lt_is_Some_2 raw k) as [r Er]; [lia |].
    destruct (lookup_lt_is_Some_2 ps k) as [p Ep]; [lia |].
    destruct (lookup_lt_is_Some_2 cs k) as [c Ec]; [lia |].
    destruct (IH (S k) (acc ++ [improve_route_prediction r p c]))
      as (out & Hfold & Hlen & Hout); [lia .. |].
    exists (improve_route_prediction r p c :: out).
    split; [| split].
    + simpl. rewrite Er, Ep, Ec. simpl. rewrite Hfold.
      now rewrite <- app_assoc.
    + simpl. now rewrite Hlen.
    + intros [| j] Hj.
      * exists r, p, c. now rewrite Nat.add_0_r.
      * destruct (Hout j) as (r' & p' & c' & ? & ? & ? & ?); [lia |].
        exists r', p', c'. now replace (k + S j)%nat with (S k + j)%nat by lia.
Qed.

(** An [IndexError] of the loop is final: the later iterations keep it. *)
Lemma improve_fold_None (raw ps cs : list Q) (l : list nat) :
  foldl
    (fun (acc : option (list Q)) (i : nat) =>
       improved_predictions ← acc;
       raw_pred ← raw !! i;
       place_slack ← ps !! i;
       cts_slack ← cs !! i;
       Some (improved_predictions
               ++ [improve_route_prediction raw_pred place_slack cts_slack]))
    None l = None.
Proof. induction l as [| i l IH]; [reflexivity | exact IH]. Qed.

(** In exact arithmetic, where every slack is a number: with slack arrays
    at least as long as the predictions, [improve_route_predictions]
    returns one value per prediction, and the value at every index [i] lies
    in [[min(place_slacks[i], cts_slacks[i]) - 0.05,
         max(place_slacks[i], cts_slacks[i]) + 0.02]]. *)
Lemma improve_route_predictions_bounds
  (raw_predictions place_slacks cts_slacks : list Q) :
  (length raw_predictions <= length place_slacks)%nat ->
  (length raw_predictions <= length cts_slacks)%nat ->
  exists improved,
    improve_route_predictions raw_predictions place_slacks cts_slacks
      = Some improved
    /\ length improved = length raw_predictions
    /\ forall i, (i < length raw_predictions)%nat ->
         exists place_slack cts_slack corrected,
           place_slacks !! i = Some place_slack
           /\ cts_slacks !! i = Some cts_slack
           /\ improved !! i = Some corrected
           /\ Qmin place_slack cts_slack - 0.05 <= corrected
           /\ corrected <= Qmax place_slack cts_slack + 0.02.
Proof.
  intros Hp Hc.
  destruct (improve_fold raw_predictions place_slacks cts_slacks
              (length raw_predictions) 0 [])
    as (out & Hfold & Hlen & Hout); [simpl; lia .. |].
  exists out. split; [exact Hfold | split; [exact Hlen |]].
  intros i Hi. destruct (Hout i Hi) as (r & p & c & _ & Ep & Ec & Eo).
  exists p, c, (improve_route_prediction r p c).
  repeat split; try assumption.
  - rewrite <- py_min_Qmin. apply improve_route_prediction_clamped.
  - rewrite <- py_max_Qmax. apply improve_route_prediction_clamped.
Qed.

Example improve_route_predictions_bounds_run :
  exists improved,
    improve_route_predictions [-0.3; 0.4] [-0.52; 0.1] [-0.61; 0.2; 7]
      = Some improved
    /\ length improved = 2%nat
    /\ forall i, (i < 2)%nat ->
         exists place_slack cts_slack corrected,
           [-0.52; 0.1] !! i = Some place_slack
           /\ [-0.61; 0.2; 7] !! i = Some cts_slack
           /\ improved !! i = Some corrected
           /\ Qmin place_slack cts_slack - 0.05 <= corrected
           /\ corrected <= Qmax place_slack cts_slack + 0.02.
Proof.
  apply (improve_route_predictions_bounds [-0.3; 0.4] [-0.52; 0.1]
           [-0.61; 0.2; 7]); simpl; lia.
Qed.

(** A slack array shorter than the predictions stops the loop with an
    [IndexError]. *)
Lemma improve_route_predictions_short_place
  (raw_predictions place_slacks cts_slacks : list Q) :
  (length place_slacks < length raw_predictions)%nat ->
  improve_route_predictions raw_predictions place_slacks cts_slacks = None.
Proof.
  intros Hlt. unfold improve_route_predictions.
  set (k := length place_slacks).
  replace (length raw_predictions)
    with (k + S (length raw_predictions - S k))%nat by lia.
  rewrite seq_app, foldl_app. simpl.
  destruct (foldl _ (Some []) (seq 0 k)) as [acc |]; simpl;
    [| apply improve_fold_None].
  rewrite (lookup_ge_None_2 place_slacks k) by (unfold k; lia).
  destruct (raw_predictions !! k); simpl; apply improve_fold_None.
Qed.

(** C1: for all slacks and every hash and float format of the interpreter,
    [calculate_synthetic_route_slack] lies in
    [[min(place_slack, cts_slack) - 0.025, max(place_slack, cts_slack) + 0.012]]. *)
Theorem calculate_synthetic_route_slack_bounds
  (hash : string -> Z) (format_float : string -> Q -> string)
  (place_slack cts_slack : Q) :
  Qmin place_slack cts_slack - 0.025
    <= calculate_synthetic_route_slack hash format_float place_slack cts_slack
  /\ calculate_synthetic_route_slack hash format_float place_slack cts_slack
    <= Qmax place_slack cts_slack + 0.012.
Proof.
  rewrite <- py_min_Qmin, <- py_max_Qmax.
  unfold calculate_synthetic_route_slack. cbv zeta.
  destruct (gtb (py_abs (py_min place_slack cts_slack)) 0.5);
    [| destruct (gtb (py_abs (py_min place_slack cts_slack)) 0.3)];
    apply clamp_bounds;
    pose proof (py_min_le_max place_slack cts_slack); lra.
Qed.

(** In exact arithmetic two calls of [calculate_synthetic_route_slack] in
    one process (one hash, one float format) agree on inputs that are equal
    as numbers, when the float format depends on the number only. *)
Lemma calculate_synthetic_route_slack_Qeq
  (hash : string -> Z) (format_float : string -> Q -> string)
  (place_slack cts_slack place_slack' cts_slack' : Q) :
  (forall spec x y, x == y -> format_float spec x = format_float spec y) ->
  place_slack == place_slack' -> cts_slack == cts_slack' ->
  calculate_synthetic_route_slack hash format_float place_slack cts_slack
  == calculate_synthetic_route_slack hash format_float place_slack' cts_slack'.
Proof.
  intros Hfmt Hp Hc.
  unfold calculate_synthetic_route_slack, fstring_6f, fstring_plain.
  cbv zeta.
  rewrite (Hfmt ".6f"%string _ _ Hp), (Hfmt ".6f"%string _ _ Hc).
  rewrite (Hfmt ""%string _ _ Hp), (Hfmt ""%string _ _ Hc).
  assert (B1 : gtb (py_abs (py_min place_slack cts_slack)) 0.5
               = gtb (py_abs (py_min place_slack' cts_slack')) 0.5)
    by now rewrite Hp, Hc.
  assert (B2 : gtb (py_abs (py_min place_slack cts_slack)) 0.3
               = gtb (py_abs (py_min place_slack' cts_slack')) 0.3)
    by now rewrite Hp, Hc.
  assert (B3 : gtb (py_abs (place_slack - cts_slack)) 0.1
               = gtb (py_abs (place_slack' - cts_slack')) 0.1)
    by now rewrite Hp, Hc.
  assert (B4 : gtb (py_abs (place_slack - cts_slack)) 0.05
               = gtb (py_abs (place_slack' - cts_slack')) 0.05)
    by now rewrite Hp, Hc.
  rewrite B1, B2, B3, B4.
  destruct (gtb (py_abs (py_min place_slack' cts_slack')) 0.5);
    [| destruct (gtb (py_abs (py_min place_slack' cts_slack')) 0.3)];
    (destruct (gtb (py_abs (place_slack' - cts_slack')) 0.1);
     [| destruct (gtb (py_abs (place_slack' - cts_slack')) 0.05)]);
    now rewrite Hp, Hc.
Qed.

(** The result of a call does depend on the process: two hash functions give
    two results on the same slacks. *)
Lemma calculate_synthetic_route_slack_hash_matters :
  ~ calculate_synthetic_route_slack (fun _ => 0%Z) sample_format 0 0
    == calculate_synthetic_route_slack (fun _ => 999%Z) sample_format 0 0.
Proof. vm_compute. discriminate. Qed.

(** A value strictly inside the interval comes out of the clamp only if it
    went in. *)
Lemma clamp_interior (lo hi x v : Q) :
  lo < v -> v < hi -> py_min (py_max x lo) hi == v -> x == v.
Proof.
  intros Hl Hh.
  destruct (py_min_cases (py_max x lo) hi) as [[H2 ->] | [H2 ->]];
    destruct (py_max_cases x lo) as [[H1 E1] | [H1 E1]];
    rewrite ?E1 in *; lra.
Qed.

(** C4, as the spec states it, fails: at slacks [0, 0] no weight pair and
    no perturbation that depend on the slacks alone reproduce the correction
    of every raw prediction. *)
Lemma correction_weights_not_by_slack :
  ~ (exists w_raw w_exp perturbation : Q,
       forall raw_pred : Q,
         improve_route_prediction raw_pred 0 0
         == py_min
              (py_max
                 (raw_pred * w_raw + expected_route_slack 0 0 * w_exp
                  + perturbation)
                 (-0.05))
              0.02).
Proof.
  intros (w_raw & w_exp & d & H).
  pose proof (H 0) as H0. pose proof (H 0.01) as H1.
  pose proof (H (-0.04)) as H2. clear H.
  assert (E0 : improve_route_prediction 0 0 0 == 0) by reflexivity.
  assert (E1 : improve_route_prediction 0.01 0 0 == 0.008) by reflexivity.
  assert (E2 : improve_route_prediction (-0.04) 0 0 == -0.024) by reflexivity.
  rewrite E0 in H0. rewrite E1 in H1. rewrite E2 in H2.
  set (t := expected_route_slack 0 0 * w_exp) in *.
  symmetry in H0, H1, H2.
  apply clamp_interior in H0; [| lra ..].
  apply clamp_interior in H1; [| lra ..].
  apply clamp_interior in H2; [| lra ..].
  lra.
Qed.

Lemma correction_weights_sum (prediction_error : Q) :
  (correction_weights prediction_error).1
  + (correction_weights prediction_error).2 == 1.
Proof.
  unfold correction_weights.
  destruct (ltb prediction_error 0.02); [reflexivity |].
  destruct (ltb prediction_error 0.05); [reflexivity |].
  destruct (ltb prediction_error 0.1); reflexivity.
Qed.

(** The two functions in the vocabulary of their comments. *)
Lemma improve_route_prediction_eq (raw_pred place_slack cts_slack : Q) :
  let expected := expected_route_slack place_slack cts_slack in
  let weights := correction_weights (py_abs (raw_pred - expected)) in
  improve_route_prediction raw_pred place_slack cts_slack
  = py_min
      (py_max (raw_pred * weights.1 + expected * weights.2)
         (py_min place_slack cts_slack - 0.05))
      (py_max place_slack cts_slack + 0.02).
Proof.
  unfold improve_route_prediction, correction_weights, expected_route_slack.
  cbv zeta.
  destruct (ltb _ 0.02); [reflexivity |].
  destruct (ltb _ 0.05); [reflexivity |].
  destruct (ltb _ 0.1); reflexivity.
Qed.

Lemma calculate_synthetic_route_slack_eq
  (hash : string -> Z) (format_float : string -> Q -> string)
  (place_slack cts_slack : Q) :
  let min_slack := py_min place_slack cts_slack in
  let weights := critical_weights min_slack in
  let h6 := hash (fstring_6f format_float place_slack cts_slack) in
  let h := hash (fstring_plain format_float place_slack cts_slack) in
  calculate_synthetic_route_slack hash format_float place_slack cts_slack
  = py_min
      (py_max
         (min_slack * weights.1
          + (place_slack + cts_slack) / 2 * weights.2
          + optimization_potential (py_abs (place_slack - cts_slack))
            * (0.4 + 0.6 * hash_fraction h6)
          + hash_variation h)
         (min_slack - 0.025))
      (py_max place_slack cts_slack + 0.012).
Proof.
  unfold calculate_synthetic_route_slack, critical_weights,
    optimization_potential, hash_fraction, hash_variation.
  cbv zeta.
  destruct (gtb (py_abs (py_min place_slack cts_slack)) 0.5);
    [reflexivity |].
  destruct (gtb (py_abs (py_min place_slack cts_slack)) 0.3); reflexivity.
Qed.

Lemma correction_weights_cases (prediction_error : Q) :
  In (correction_weights prediction_error)
    [(0.8, 0.2); (0.6, 0.4); (0.4, 0.6); (0.2, 0.8)].
Proof.
  unfold correction_weights.
  destruct (ltb _ 0.02); [simpl; tauto |].
  destruct (ltb _ 0.05); [simpl; tauto |].
  destruct (ltb _ 0.1); simpl; tauto.
Qed.

Lemma critical_weights_cases (min_slack : Q) :
  In (critical_weights min_slack) [(0.92, 0.08); (0.89, 0.11); (0.85, 0.15)].
Proof.
  unfold critical_weights.
  destruct (gtb _ 0.5); [simpl; tauto |].
  destruct (gtb _ 0.3); simpl; tauto.
Qed.

(** The hash-derived terms stay in small fixed ranges. *)
Lemma div_1000 (x : Q) : x / 1000 == x * 0.001.
Proof. field. Qed.

Lemma div_100 (x : Q) : x / 100 == x * 0.01.
Proof. field. Qed.

Lemma div_2 (x : Q) : x / 2 == x * 0.5.
Proof. field. Qed.

Lemma hash_fraction_bounds (h : Z) : 0 <= hash_fraction h <= 0.999.
Proof.
  unfold hash_fraction, py_mod.
  pose proof (Z.mod_pos_bound h 1000 ltac:(lia)) as [H1 H2].
  assert (0 <= inject_Z (h mod 1000))
    by (change 0 with (inject_Z 0); rewrite <- Zle_Qle; lia).
  assert (inject_Z (h mod 1000) <= 999)
    by (change 999 with (inject_Z 999); rewrite <- Zle_Qle; lia).
  rewrite div_1000. lra.
Qed.

Lemma hash_variation_bounds (h : Z) : -0.004 <= hash_variation h <= 0.00392.
Proof.
  unfold hash_variation, py_mod.
  pose proof (Z.mod_pos_bound (Z.abs h) 100 ltac:(lia)) as [H1 H2].
  assert (0 <= inject_Z (Z.abs h mod 100))
    by (change 0 with (inject_Z 0); rewrite <- Zle_Qle; lia).
  assert (inject_Z (Z.abs h mod 100) <= 99)
    by (change 99 with (inject_Z 99); rewrite <- Zle_Qle; lia).
  rewrite div_100. lra.
Qed.

(** In [calculate_synthetic_route_slack] the two bounds are never reached:
    the value computed before them is already inside the interval, so it is
    the result. *)
Lemma calculate_synthetic_route_slack_unclamped
  (hash : string -> Z) (format_float : string -> Q -> string)
  (place_slack cts_slack : Q) :
  let min_slack := py_min place_slack cts_slack in
  let weights := critical_weights min_slack in
  let h6 := hash (fstring_6f format_float place_slack cts_slack) in
  let h := hash (fstring_plain format_float place_slack cts_slack) in
  calculate_synthetic_route_slack hash format_float place_slack cts_slack
  = min_slack * weights.1
    + (place_slack + cts_slack) / 2 * weights.2
    + optimization_potential (py_abs (place_slack - cts_slack))
      * (0.4 + 0.6 * hash_fraction h6)
    + hash_variation h.
Proof.
  intros min_slack weights h6 h.
  rewrite calculate_synthetic_route_slack_eq. cbv zeta.
  fold min_slack. fold weights. fold h6. fold h.
  pose proof (hash_fraction_bounds h6) as Hf.
  pose proof (hash_variation_bounds h) as Hv.
  pose proof (div_2 (place_slack + cts_slack)) as Havg.
  set (avg := (place_slack + cts_slack) / 2) in *.
  set (f := hash_fraction h6) in *. set (v := hash_variation h) in *.
  assert (Hdiff : py_abs (place_slack - cts_slack)
                  == py_max place_slack cts_slack - min_slack).
  { unfold py_abs, min_slack.
    destruct (py_min_cases place_slack cts_slack) as [[H ->] | [H ->]];
      destruct (py_max_cases place_slack cts_slack) as [[H' ->] | [H' ->]];
      try lra.
    - rewrite Qabs_pos; lra.
    - rewrite Qabs_neg; lra.
    - rewrite Qabs_pos; lra. }
  assert (Hmin : min_slack <= py_max place_slack cts_slack)
    by apply py_min_le_max.
  assert (Hsum : place_slack + cts_slack
                 == min_slack + py_max place_slack cts_slack).
  { unfold min_slack.
    destruct (py_min_cases place_slack cts_slack) as [[H ->] | [H ->]];
      destruct (py_max_cases place_slack cts_slack) as [[H' ->] | [H' ->]];
      lra. }
  set (d := py_abs (place_slack - cts_slack)) in *.
  set (M := py_max place_slack cts_slack) in *.
  assert (Hopt :
    (d <= 0.05 /\ optimization_potential d = 0.008)
    \/ (0.05 < d /\ optimization_potential d <= 0.025)).
  { unfold optimization_potential, gtb.
    destruct (ltb 0.1 d) eqn:E1; [apply ltb_lt in E1; right; split; lra |].
    destruct (ltb 0.05 d) eqn:E2.
    - apply ltb_lt in E2. right. split; lra.
    - apply ltb_ge in E2. left. split; [lra | reflexivity]. }
  assert (Hopt0 : 0.008 <= optimization_potential d).
  { unfold optimization_potential.
    destruct (gtb d 0.1); [lra |]. destruct (gtb d 0.05); lra. }
  set (o := optimization_potential d) in *.
  apply clamp_inside;
    destruct (critical_weights_cases min_slack) as [E | [E | [E | []]]];
    fold weights in E; rewrite <- E; simpl fst; simpl snd;
    destruct Hopt as [[Hd Ho] | [Hd Ho]]; try rewrite Ho; nra.
Qed.

(** C4, amended: [improve_route_predictions] blends each raw prediction with
    the physics-based expectation, with one of four weight pairs chosen by
    the thresholds 0.02, 0.05 and 0.1 on the prediction error
    [|raw - expectation|], and clamps; no hash enters.  The weights chosen by
    the slack magnitude (thresholds 0.5 and 0.3 on [|min_slack|]) and the two
    hash-derived terms are those of [calculate_synthetic_route_slack], which
    takes no raw prediction. *)
Theorem route_correction_structure :
  (forall raw_pred place_slack cts_slack : Q,
     let expected := expected_route_slack place_slack cts_slack in
     let weights := correction_weights (py_abs (raw_pred - expected)) in
     In weights [(0.8, 0.2); (0.6, 0.4); (0.4, 0.6); (0.2, 0.8)]
     /\ improve_route_prediction raw_pred place_slack cts_slack
        = py_min
            (py_max (raw_pred * weights.1 + expected * weights.2)
               (py_min place_slack cts_slack - 0.05))
            (py_max place_slack cts_slack + 0.02))
  /\ (forall (hash : string -> Z) (format_float : string -> Q -> string)
        (place_slack cts_slack : Q),
        let min_slack := py_min place_slack cts_slack in
        let weights := critical_weights min_slack in
        let h6 := hash (fstring_6f format_float place_slack cts_slack) in
        let h := hash (fstring_plain format_float place_slack cts_slack) in
        In weights [(0.92, 0.08); (0.89, 0.11); (0.85, 0.15)]
        /\ calculate_synthetic_route_slack hash format_float place_slack
             cts_slack
           = py_min
               (py_max
                  (min_slack * weights.1
                   + (place_slack + cts_slack) / 2 * weights.2
                   + optimization_potential (py_abs (place_slack - cts_slack))
                     * (0.4 + 0.6 * hash_fraction h6)
                   + hash_variation h)
                  (min_slack - 0.025))
               (py_max place_slack cts_slack + 0.012)).
Proof.
  split.
  - intros raw_pred place_slack cts_slack expected weights. split.
    + apply correction_weights_cases.
    + apply improve_route_prediction_eq.
  - intros hash format_float place_slack cts_slack min_slack weights h6 h.
    split.
    + apply critical_weights_cases.
    + apply calculate_synthetic_route_slack_eq.
Qed.

End SlackFacts.

(** ** The slack arithmetic on binary64 floats *)

Section Binary64Facts.
Import Floats PyFloat Binary64.
Local Open Scope string_scope.
Local Open Scope float_scope.

(** The run of the source on the same arrays, with float64 rounding. *)
Example improve_route_predictions_run :
  improve_route_predictions [-0.3; 0.4] [-0.52; 0.1] [-0.61; 0.2; 7]
  = Some [-0.53539999999999999; 0.17400000000000004].
Proof. vm_compute. reflexivity. Qed.

(** NaN goes through the arithmetic. *)
Lemma add_nan_r (x : float) : x + nan = nan.
Proof.
  apply Prim2SF_inj. rewrite add_spec. change (Prim2SF nan) with S754_nan.
  now destruct (Prim2SF x).
Qed.

Lemma add_nan_l (x : float) : nan + x = nan.
Proof.
  apply Prim2SF_inj. rewrite add_spec. change (Prim2SF nan) with S754_nan.
  reflexivity.
Qed.

Lemma sub_nan_r (x : float) : x - nan = nan.
Proof.
  apply Prim2SF_inj. rewrite sub_spec. change (Prim2SF nan) with S754_nan.
  now destruct (Prim2SF x).
Qed.

Lemma mul_nan_l (x : float) : nan * x = nan.
Proof.
  apply Prim2SF_inj. rewrite mul_spec. change (Prim2SF nan) with S754_nan.
  reflexivity.
Qed.

Lemma div_nan_l (x : float) : nan / x = nan.
Proof.
  apply Prim2SF_inj. rewrite div_spec. change (Prim2SF nan) with S754_nan.
  reflexivity.
Qed.

Lemma ltb_nan_l (x : float) : (nan <? x) = false.
Proof. rewrite ltb_spec. reflexivity. Qed.

Lemma ltb_nan_r (x : float) : (x <? nan) = false.
Proof.
  rewrite ltb_spec. change (Prim2SF nan) with S754_nan.
  unfold SFltb. now destruct (Prim2SF x).
Qed.

Lemma abs_nan : abs nan = nan.
Proof. reflexivity. Qed.

Create Rewrite HintDb float_nan.
#[local] Hint Rewrite add_nan_r add_nan_l sub_nan_r mul_nan_l div_nan_l
  ltb_nan_l ltb_nan_r abs_nan : float_nan.

(** A NaN slack makes the corrected value NaN, whatever the raw prediction
    and the other slack are. *)
Lemma improve_route_prediction_nan_cts (raw_pred place_slack : float) :
  improve_route_prediction raw_pred place_slack nan = nan.
Proof.
  unfold improve_route_prediction, py_min, py_max, py_abs.
  now autorewrite with float_nan.
Qed.

Lemma improve_route_prediction_nan_place (raw_pred cts_slack : float) :
  improve_route_prediction raw_pred nan cts_slack = nan.
Proof.
  unfold improve_route_prediction, py_min, py_max, py_abs.
  now autorewrite with float_nan.
Qed.

(** C3: [improve_route_predictions] on a NaN slack, which is what a NULL
    slack cell of the CTS table is in the array [merged_data['slack_cts'].values].
    For the arrays [[0.0]], [[0.0]] and [[nan]] the bounds of the final
    check are the finite numbers [-0.05] and [0.02], and the value returned
    at index 0 is NaN, which lies in no interval: both comparisons with the
    bounds are false. *)
Theorem improve_route_predictions_nan_slack :
  improve_route_predictions [0] [0] [nan] = Some [nan]
  /\ py_min 0 nan - 0.05 = -0.05
  /\ py_max 0 nan + 0.02 = 0.02
  /\ (py_min 0 nan - 0.05 <=? nan) = false
  /\ (nan <=? py_max 0 nan + 0.02) = false.
Proof. vm_compute. repeat split. Qed.

(** Comparing the other way round gives the opposite answer. *)
Lemma SFcompare_antisym (a b : spec_float) :
  SFcompare b a = CompOpp <$> SFcompare a b.
Proof.
  destruct a as [s1 | s1 | | s1 m1 e1], b as [s2 | s2 | | s2 m2 e2];
    try reflexivity; try (destruct s1; reflexivity);
    try (destruct s2; reflexivity);
    try (destruct s1, s2; reflexivity).
  unfold SFcompare. rewrite (Z.compare_antisym e1 e2).
  pose proof (Pos.compare_cont_antisym m1 m2 Eq) as Hm. simpl in Hm.
  change PosDef.Pos.compare_cont with Pos.compare_cont.
  destruct s1, s2; simpl; try reflexivity;
    destruct (e1 ?= e2)%Z; simpl; try reflexivity; rewrite <- Hm;
    now destruct (Pos.compare_cont Eq m1 m2).
Qed.

(** [math.isnan] on the parts of a float. *)
Lemma float_is_nan_spec (x : float) :
  is_nan x = match Prim2SF x with S754_nan => true | _ => false end.
Proof.
  unfold is_nan. rewrite eqb_spec. unfold SFeqb.
  destruct (Prim2SF x) as [s | s | | s m e]; simpl; try reflexivity;
    try (destruct s; reflexivity).
  destruct s; rewrite Z.compare_refl;
    change PosDef.Pos.compare_cont with Pos.compare_cont;
    rewrite Pos.compare_cont_refl; reflexivity.
Qed.

Lemma SFcompare_nan (x y : float) :
  SFcompare (Prim2SF x) (Prim2SF y) = None ->
  is_nan x = true \/ is_nan y = true.
Proof.
  rewrite !float_is_nan_spec.
  destruct (Prim2SF x) as [s1 | s1 | | s1 m1 e1],
           (Prim2SF y) as [s2 | s2 | | s2 m2 e2];
    simpl; try discriminate; auto.
Qed.

Lemma SFcompare_refl (x : float) :
  is_nan x = false -> SFcompare (Prim2SF x) (Prim2SF x) = Some Eq.
Proof.
  unfold is_nan. rewrite eqb_spec. unfold SFeqb.
  destruct (SFcompare (Prim2SF x) (Prim2SF x)) as [[| |] |]; simpl;
    (discriminate || reflexivity).
Qed.

Lemma float_leb_not_nan (x y : float) :
  (x <=? y) = true -> is_nan x = false /\ is_nan y = false.
Proof.
  rewrite leb_spec, !float_is_nan_spec. unfold SFleb.
  destruct (Prim2SF x) as [s1 | s1 | | s1 m1 e1],
           (Prim2SF y) as [s2 | s2 | | s2 m2 e2];
    simpl; try discriminate; auto.
Qed.

Lemma float_leb_refl (x : float) : is_nan x = false -> (x <=? x) = true.
Proof.
  intros Hx. rewrite leb_spec. unfold SFleb. now rewrite SFcompare_refl.
Qed.

Lemma float_leb_not_ltb (x y : float) : (x <=? y) = true -> (y <? x) = false.
Proof.
  rewrite leb_spec, ltb_spec. unfold SFleb, SFltb.
  rewrite (SFcompare_antisym (Prim2SF x) (Prim2SF y)).
  now destruct (SFcompare (Prim2SF x) (Prim2SF y)) as [[| |] |].
Qed.

Lemma float_not_ltb_leb (x y : float) :
  is_nan x = false -> is_nan y = false -> (x <? y) = false ->
  (y <=? x) = true.
Proof.
  intros Hx Hy. rewrite leb_spec, ltb_spec. unfold SFleb, SFltb.
  rewrite (SFcompare_antisym (Prim2SF x) (Prim2SF y)).
  destruct (SFcompare (Prim2SF x) (Prim2SF y)) as [[| |] |] eqn:E;
    simpl; try (discriminate || reflexivity).
  apply SFcompare_nan in E as [E | E]; congruence.
Qed.

(** The final bounds check on floats: a result that is a number lies
    between the bounds.  A NaN passes both [max] and [min] unchanged. *)
Lemma clamp_unless_nan (x lower upper : float) :
  (lower <=? upper) = true ->
  is_nan (py_min (py_max x lower) upper) = false ->
  (lower <=? py_min (py_max x lower) upper) = true
  /\ (py_min (py_max x lower) upper <=? upper) = true.
Proof.
  intros Hle. destruct (float_leb_not_nan _ _ Hle) as [Hl Hu].
  unfold py_min, py_max.
  destruct (x <? lower) eqn:E1.
  - rewrite (float_leb_not_ltb _ _ Hle). intros _.
    split; [now apply float_leb_refl | exact Hle].
  - destruct (upper <? x) eqn:E2; intros Hx.
    + split; [exact Hle | now apply float_leb_refl].
    + split; now apply float_not_ltb_leb.
Qed.

Lemma clamp_nan (lower upper : float) :
  py_min (py_max nan lower) upper = nan.
Proof.
  unfold py_min, py_max. rewrite !ltb_spec.
  change (Prim2SF nan) with S754_nan.
  unfold SFltb, SFcompare. simpl.
  now destruct (Prim2SF upper).
Qed.

(** On floats the bound of [improve_route_predictions] holds of every
    result that is a number: the value for one index lies between the
    bounds as the code computes them, unless it is NaN. *)
Lemma improve_route_prediction_bounds_unless_nan
  (raw_pred place_slack cts_slack : float) :
  let corrected := improve_route_prediction raw_pred place_slack cts_slack in
  let lower_bound := py_min place_slack cts_slack - 0.05 in
  let upper_bound := py_max place_slack cts_slack + 0.02 in
  (lower_bound <=? upper_bound) = true ->
  is_nan corrected = false ->
  (lower_bound <=? corrected) = true /\ (corrected <=? upper_bound) = true.
Proof.
  intros corrected lower_bound upper_bound.
  subst corrected lower_bound upper_bound.
  unfold improve_route_prediction. cbv zeta. apply clamp_unless_nan.
Qed.







(** The same with the sample hash. *)
Example calculate_synthetic_route_slack_signed_zero_sample :
  result Prediction.sample_hash (calculate_synthetic_route_slack 0 0)
  = 0.0080848
  /\ result Prediction.sample_hash (calculate_synthetic_route_slack (-0) 0)
     = 0.0053456000000000007.
Proof. vm_compute. repeat split. Qed.

(** A run with state and a run with the hash function alone agree. *)
Lemma run_result {world A : Type} (hash : string -> Z)
  (step : world -> world) (p : hashing A) (w : world) :
  (run (fun s w => (hash s, step w)) p w).1 = result hash p.
Proof.
  revert w. induction p as [a | s k IH]; intros w; [reflexivity |].
  simpl. apply IH.
Qed.

End Binary64Facts.

(** ** [str.split], [str.join] and [normalize_endpoint] *)

Section EndpointFacts.
Import PySeq Prediction.
Local Open Scope string_scope.

Lemma string_app_cons (x : ascii) (a b : string) :
  String x a ++ b = String x (a ++ b).
Proof. reflexivity. Qed.

Lemma string_app_nil_l (a : string) : "" ++ a = a.
Proof. reflexivity. Qed.

Lemma string_app_assoc (a b c : string) : (a ++ b) ++ c = a ++ (b ++ c).
Proof.
  induction a as [| x a IH]; [reflexivity |].
  now rewrite !string_app_cons, IH.
Qed.

Lemma string_app_nil_r (a : string) : a ++ "" = a.
Proof.
  induction a as [| x a IH]; [reflexivity |].
  now rewrite string_app_cons, IH.
Qed.

Lemma split_nonempty (sep : ascii) (s : string) :
  exists part parts, split sep s = part :: parts.
Proof.
  destruct s as [| c rest]; simpl; [eauto |].
  destruct (Ascii.eqb c sep); [eauto |].
  destruct (split sep rest); eauto.
Qed.

Lemma join_cons_cons (sep part next : string) (rest : list string) :
  join sep (part :: next :: rest) = part ++ sep ++ join sep (next :: rest).
Proof. reflexivity. Qed.

(** Joining the parts with the separator gives the string back. *)
Lemma join_split (sep : ascii) (s : string) :
  join (String sep "") (split sep s) = s.
Proof.
  induction s as [| c rest IH]; [reflexivity |].
  simpl split. destruct (split_nonempty sep rest) as (p & ps & E).
  rewrite E in *. destruct (Ascii.eqb_spec c sep) as [-> | Hne].
  - rewrite join_cons_cons, IH. reflexivity.
  - destruct ps as [| q ps].
    + simpl in *. now rewrite IH.
    + rewrite join_cons_cons in *. rewrite string_app_cons. now rewrite IH.
Qed.

(** No part contains the separator. *)
Lemma split_parts_no_sep (sep : ascii) (s : string) :
  Forall (fun part => ~ has_char sep part) (split sep s).
Proof.
  induction s as [| c rest IH]; simpl.
  - constructor; [intros [] | constructor].
  - destruct (Ascii.eqb_spec c sep) as [-> | Hne].
    + constructor; [intros [] | exact IH].
    + destruct (split sep rest) as [| p ps].
      * constructor; [| constructor]. intros [H | []]. congruence.
      * inversion IH as [| ? ? Hp Hps]; subst.
        constructor; [| exact Hps].
        intros [H | H]; [congruence | exact (Hp H)].
Qed.

(** A string without the separator is its only part; a string with it has
    at least two parts. *)
Lemma split_no_sep (sep : ascii) (s : string) :
  ~ has_char sep s -> split sep s = [s].
Proof.
  induction s as [| c rest IH]; intros Hno; [reflexivity |].
  simpl. destruct (Ascii.eqb_spec c sep) as [-> | Hne].
  - exfalso. apply Hno. now left.
  - rewrite IH; [reflexivity |]. intros H. apply Hno. now right.
Qed.

Lemma split_with_sep (sep : ascii) (s : string) :
  has_char sep s -> (2 <= length (split sep s))%nat.
Proof.
  induction s as [| c rest IH]; intros Hin; [destruct Hin |].
  simpl. destruct (Ascii.eqb_spec c sep) as [-> | Hne].
  - destruct (split_nonempty sep rest) as (p & ps & ->). simpl. lia.
  - destruct Hin as [H | H]; [congruence |].
    specialize (IH H). destruct (split sep rest) as [| p ps]; simpl in *; lia.
Qed.

(** A list of at least two parts ends with two parts. *)
Lemma last_two {A : Type} (l : list A) :
  (2 <= length l)%nat -> exists front p2 p1, l = (front ++ [p2; p1])%list.
Proof.
  intros Hlen.
  destruct (rev l) as [| p1 [| p2 back]] eqn:E.
  - apply (f_equal (@length A)) in E. rewrite length_rev in E. simpl in E. lia.
  - apply (f_equal (@length A)) in E. rewrite length_rev in E. simpl in E. lia.
  - exists (rev back), p2, p1.
    rewrite <- (rev_involutive l), E. simpl.
    now rewrite <- app_assoc.
Qed.

Lemma index_last_two {A : Type} (front : list A) (p2 p1 : A) :
  index (front ++ [p2; p1])%list (-2) = Some p2
  /\ index (front ++ [p2; p1])%list (-1) = Some p1.
Proof.
  unfold index. rewrite length_app. simpl length.
  destruct (Z.ltb_spec (-2) (- Z.of_nat (length front + 2))); [lia |].
  destruct (Z.ltb_spec (-1) (- Z.of_nat (length front + 2))); [lia |].
  simpl.
  replace (Z.to_nat (-2 + Z.of_nat (length front + 2))) with (length front + 0)%nat
    by lia.
  replace (Z.to_nat (-1 + Z.of_nat (length front + 2))) with (length front + 1)%nat
    by lia.
  split.
  - rewrite lookup_app_r by lia.
    now replace (length front + 0 - length front)%nat with 0%nat by lia.
  - rewrite lookup_app_r by lia.
    now replace (length front + 1 - length front)%nat with 1%nat by lia.
Qed.

Lemma join_last_two (sep : string) (front : list string) (p2 p1 : string) :
  join sep (front ++ [p2; p1])%list = leading sep front ++ p2 ++ sep ++ p1.
Proof.
  induction front as [| part rest IH]; [reflexivity |].
  simpl app. simpl leading.
  destruct (rest ++ [p2; p1])%list as [| next more] eqn:E.
  - destruct rest; discriminate.
  - rewrite join_cons_cons, IH. now rewrite !string_app_assoc.
Qed.

Lemma leading_ends_with_sep (sep : string) (front : list string) :
  leading sep front = "" \/ exists before, leading sep front = before ++ sep.
Proof.
  induction front as [| part rest IH]; [now left |].
  right. simpl. destruct IH as [-> | [before ->]].
  - exists part. now rewrite string_app_nil_r.
  - exists (part ++ sep ++ before). now rewrite !string_app_assoc.
Qed.

(** With the guard [len(parts) >= 2] the two negative indices are in range:
    the function takes the last two parts. *)
Lemma normalize_endpoint_str_parts (endpoint : string)
  (front : list string) (p2 p1 : string) :
  split "/" endpoint = (front ++ [p2; p1])%list ->
  normalize_endpoint_str endpoint = p2 ++ "/" ++ p1.
Proof.
  intros E. unfold normalize_endpoint_str. rewrite E.
  destruct (index_last_two front p2 p1) as [-> ->].
  rewrite length_app. simpl length.
  destruct (Nat.leb_spec 2 (length front + 2)); [reflexivity | lia].
Qed.

(** Cutting at a separator cuts the list of parts. *)
Lemma split_app_sep (sep : ascii) (a b : string) :
  split sep (a ++ String sep b) = (split sep a ++ split sep b)%list.
Proof.
  induction a as [| c a IH].
  - simpl. now rewrite Ascii.eqb_refl.
  - rewrite string_app_cons. simpl split. rewrite IH.
    destruct (Ascii.eqb c sep); [reflexivity |].
    destruct (split_nonempty sep a) as (p & ps & ->). reflexivity.
Qed.

(** The parts of a string that ends, after what comes before, with two
    segments around a separator. *)
Lemma split_last_two (before p2 p1 : string) :
  (before = "" \/ exists b, before = b ++ "/") ->
  ~ has_char "/" p2 -> ~ has_char "/" p1 ->
  exists front,
    split "/" (before ++ p2 ++ "/" ++ p1) = (front ++ [p2; p1])%list.
Proof.
  intros Hbefore H2 H1.
  assert (Etail : split "/" (p2 ++ "/" ++ p1) = [p2; p1]).
  { change (p2 ++ "/" ++ p1) with (p2 ++ String "/" p1).
    now rewrite split_app_sep, (split_no_sep _ _ H2), (split_no_sep _ _ H1). }
  destruct Hbefore as [-> | [b ->]].
  - exists []. exact Etail.
  - exists (split "/" b).
    rewrite string_app_assoc.
    change ("/" ++ p2 ++ "/" ++ p1) with (String "/" (p2 ++ "/" ++ p1)).
    now rewrite split_app_sep, Etail.
Qed.

(** C2: a string with at least one ['/'] is mapped to its last two
    ['/']-separated segments joined by ['/']: it ends, after a part that is
    empty or ends with ['/'], with two segments without ['/'] around a
    ['/'], and whenever it is cut so the result is the two segments joined;
    a string without ['/'] is returned unchanged. *)
Theorem normalize_endpoint_last_two_segments (endpoint : string) :
  (has_char "/" endpoint ->
   exists before p2 p1,
     endpoint = before ++ p2 ++ "/" ++ p1
     /\ (before = "" \/ exists b, before = b ++ "/")
     /\ ~ has_char "/" p2 /\ ~ has_char "/" p1
     /\ normalize_endpoint (PStr endpoint) = p2 ++ "/" ++ p1)
  /\ (forall before p2 p1,
        endpoint = before ++ p2 ++ "/" ++ p1 ->
        (before = "" \/ exists b, before = b ++ "/") ->
        ~ has_char "/" p2 -> ~ has_char "/" p1 ->
        normalize_endpoint (PStr endpoint) = p2 ++ "/" ++ p1)
  /\ (~ has_char "/" endpoint ->
      normalize_endpoint (PStr endpoint) = endpoint).
Proof.
  split; [| split].
  - intros Hin.
    destruct (last_two (split "/" endpoint) (split_with_sep "/" endpoint Hin))
      as (front & p2 & p1 & E).
    exists (leading "/" front), p2, p1.
    pose proof (split_parts_no_sep "/" endpoint) as Hparts.
    rewrite E, Forall_app in Hparts. destruct Hparts as [_ Hlast].
    inversion Hlast as [| ? ? H2 Hlast']; subst.
    inversion Hlast' as [| ? ? H1 _]; subst.
    repeat split; try assumption.
    + rewrite <- (join_split "/" endpoint) at 1. rewrite E.
      apply join_last_two.
    + apply leading_ends_with_sep.
    + simpl. now apply normalize_endpoint_str_parts with front.
  - intros before p2 p1 -> Hbefore H2 H1.
    destruct (split_last_two before p2 p1 Hbefore H2 H1) as [front E].
    simpl. now apply normalize_endpoint_str_parts with front.
  - intros Hno. simpl. unfold normalize_endpoint_str.
    now rewrite (split_no_sep "/" endpoint Hno).
Qed.

Lemma normalize_endpoint_last_two_segments_witness :
  (has_char "/" "top/u1/reg/D" /\ ~ has_char "/" "clk"
   /\ ~ has_char "/" "reg" /\ ~ has_char "/" "D")
  /\ (exists before p2 p1,
        "top/u1/reg/D" = before ++ p2 ++ "/" ++ p1
        /\ (before = "" \/ exists b, before = b ++ "/")
        /\ ~ has_char "/" p2 /\ ~ has_char "/" p1
        /\ normalize_endpoint (PStr "top/u1/reg/D") = p2 ++ "/" ++ p1)
  /\ normalize_endpoint (PStr "top/u1/reg/D") = "reg/D"
  /\ normalize_endpoint (PStr "clk") = "clk".
Proof.
  assert (Hin : has_char "/" "top/u1/reg/D").
  { unfold has_char. simpl. right; right; right; left; reflexivity. }
  assert (Hclk : ~ has_char "/" "clk").
  { unfold has_char. simpl. intros [H | [H | [H | []]]]; discriminate. }
  assert (Hreg : ~ has_char "/" "reg").
  { unfold has_char. simpl. intros [H | [H | [H | []]]]; discriminate. }
  assert (HD : ~ has_char "/" "D").
  { unfold has_char. simpl. intros [H | []]; discriminate. }
  split; [auto |]. split; [| split].
  - exact (proj1 (normalize_endpoint_last_two_segments "top/u1/reg/D") Hin).
  - apply (proj1 (proj2 (normalize_endpoint_last_two_segments "top/u1/reg/D"))
             "top/u1/" "reg" "D"); [reflexivity | | exact Hreg | exact HD].
    right. now exists "top/u1".
  - exact (proj2 (proj2 (normalize_endpoint_last_two_segments "clk")) Hclk).
Defined.

Example normalize_endpoint_examples :
  normalize_endpoint (PStr "top/u1/reg/D") = "reg/D"
  /\ normalize_endpoint (PStr "a/b") = "a/b"
  /\ normalize_endpoint (PStr "a/b/") = "b/"
  /\ normalize_endpoint (PStr "/") = "/"
  /\ normalize_endpoint (PStr "") = ""
  /\ normalize_endpoint (PObj "nan") = "nan".
Proof. repeat split. Qed.

End EndpointFacts.

(** ** The endpoint alignment of [train_model] *)

Section TrainFacts.
Import Prediction Train.

(** After [drop_duplicates] the keys are distinct, and they are the keys of
    the input that had not been seen. *)
Lemma drop_duplicates_from_keys (seen : gset string) (data : list nrow) :
  NoDup (normalized_endpoint <$> drop_duplicates_from seen data)
  /\ forall e,
       e ∈ normalized_endpoint <$> drop_duplicates_from seen data
       <-> e ∈ normalized_endpoint <$> data /\ e ∉ seen.
Proof.
  revert seen. induction data as [| r rest IH]; intros seen; simpl.
  - split; [constructor | set_solver].
  - destruct (decide (normalized_endpoint r ∈ seen)) as [Hin | Hnin].
    + destruct (IH seen) as [Hnd Hkeys]. split; [exact Hnd |].
      intros e. rewrite Hkeys. set_solver.
    + destruct (IH ({[normalized_endpoint r]} ∪ seen)) as [Hnd Hkeys].
      split.
      * rewrite fmap_cons. constructor; [| exact Hnd].
        rewrite Hkeys. set_solver.
      * intros e. rewrite fmap_cons, elem_of_cons, Hkeys.
        destruct (decide (e = normalized_endpoint r)); set_solver.
Qed.

Lemma drop_duplicates_from_sublist (seen : gset string) (data : list nrow) :
  drop_duplicates_from seen data `sublist_of` data.
Proof.
  revert seen. induction data as [| r rest IH]; intros seen; simpl.
  - constructor.
  - destruct (decide (normalized_endpoint r ∈ seen)).
    + apply sublist_cons, IH.
    + apply sublist_skip, IH.
Qed.

(** [keep='first']: the row kept for a key is the first row of the table with
    that key. *)
Lemma drop_duplicates_from_first (seen : gset string) (data : list nrow)
  (e : string) :
  e ∉ seen ->
  head (rows_with e (drop_duplicates_from seen data))
  = head (rows_with e data).
Proof.
  revert seen. induction data as [| r rest IH]; intros seen Hnin; simpl.
  - reflexivity.
  - unfold rows_with in *.
    destruct (decide (normalized_endpoint r ∈ seen)) as [Hin | Hr].
    + rewrite filter_cons_False by congruence. now apply IH.
    + rewrite !filter_cons.
      destruct (decide (normalized_endpoint r = e)) as [-> | Hne];
        [reflexivity |].
      apply IH. set_solver.
Qed.

Lemma filter_isin_keys (common : list string) (data : list nrow) (e : string) :
  e ∈ normalized_endpoint <$> filter_isin common data
  <-> e ∈ normalized_endpoint <$> data /\ e ∈ common.
Proof.
  unfold filter_isin. rewrite !list_elem_of_fmap. split.
  - intros (r & -> & Hr). apply list_elem_of_filter in Hr as [Hc Hr]. eauto.
  - intros [(r & -> & Hr) Hc]. exists r. split; [reflexivity |].
    now apply list_elem_of_filter.
Qed.

(** With distinct keys, a key has one row or none. *)
Lemma rows_with_NoDup (data : list nrow) (e : string) :
  NoDup (normalized_endpoint <$> data) ->
  length (rows_with e data)
  = if decide (e ∈ normalized_endpoint <$> data) then 1 else 0.
Proof.
  unfold rows_with. induction data as [| r rest IH]; intros Hnd.
  - reflexivity.
  - rewrite fmap_cons in *. apply NoDup_cons in Hnd as [Hr Hnd].
    specialize (IH Hnd). rewrite filter_cons.
    destruct (decide (normalized_endpoint r = e)) as [<- | Hne].
    + simpl. rewrite IH.
      rewrite decide_False by exact Hr.
      rewrite decide_True by set_solver. reflexivity.
    + rewrite IH.
      destruct (decide (e ∈ normalized_endpoint <$> rest)).
      * rewrite decide_True by set_solver. reflexivity.
      * rewrite decide_False by set_solver. reflexivity.
Qed.

(** One table through filter, sort and [drop_duplicates]. *)
Lemma align_one_table (sort_values : list nrow -> list nrow)
  (common : gset string) (data : list nrow) :
  (forall l, sort_values l ≡ₚ l) ->
  common ⊆ endpoint_set data ->
  aligned common data
    (drop_duplicates (sort_values (filter_isin (elements common) data))).
Proof.
  intros Hperm Hsub.
  set (filtered := filter_isin (elements common) data).
  set (output := drop_duplicates (sort_values filtered)).
  destruct (drop_duplicates_from_keys ∅ (sort_values filtered))
    as [Hnd Hkeys]. fold (drop_duplicates (sort_values filtered)) in Hnd, Hkeys.
  fold output in Hnd, Hkeys.
  assert (Hmem : forall e, e ∈ normalized_endpoint <$> output <-> e ∈ common).
  { intros e. rewrite Hkeys, (Hperm filtered). unfold filtered.
    rewrite filter_isin_keys, elem_of_elements.
    unfold endpoint_set in Hsub. set_solver. }
  split; [| split].
  - transitivity (sort_values filtered).
    + apply sublist_submseteq, drop_duplicates_from_sublist.
    + rewrite (Hperm filtered). apply sublist_submseteq, sublist_filter.
  - intros e. rewrite (rows_with_NoDup output e Hnd).
    destruct (decide (e ∈ common)) as [Hin | Hnin].
    + rewrite decide_True by now apply Hmem. reflexivity.
    + rewrite decide_False by now rewrite Hmem. reflexivity.
  - rewrite <- (length_fmap normalized_endpoint output).
    rewrite <- (size_list_to_set (C := gset string)) by exact Hnd.
    f_equal. apply set_eq. intros e. rewrite elem_of_list_to_set. apply Hmem.
Qed.

(** C5: the alignment of [train_model] raises the no-common-endpoint error
    exactly when the three tables share no normalized endpoint; otherwise it
    returns three tables with exactly one row per common normalized endpoint
    each, hence of equal length, and the size-mismatch error never occurs. *)
Theorem train_model_align_one_row_per_endpoint
  (sort_values : list nrow -> list nrow)
  (place_data cts_data route_data : list row) :
  (forall l, sort_values l ≡ₚ l) ->
  let place := add_normalized_endpoint place_data in
  let cts := add_normalized_endpoint cts_data in
  let route := add_normalized_endpoint route_data in
  let common := endpoint_set place ∩ endpoint_set cts ∩ endpoint_set route in
  (common = ∅ ->
   train_model_align sort_values place_data cts_data route_data
   = inl NoCommonEndpoints)
  /\ (common ≠ ∅ ->
      exists place' cts' route',
        train_model_align sort_values place_data cts_data route_data
        = inr (place', cts', route')
        /\ aligned common place place'
        /\ aligned common cts cts'
        /\ aligned common route route'
        /\ length place' = length cts' /\ length cts' = length route')
  /\ (forall n1 n2 n3,
        train_model_align sort_values place_data cts_data route_data
        ≠ inl (SizeMismatch n1 n2 n3)).
Proof.
  intros Hperm place cts route common.
  assert (Hp : aligned common place
                 (drop_duplicates
                    (sort_values (filter_isin (elements common) place)))).
  { apply align_one_table; [exact Hperm | set_solver]. }
  assert (Hc : aligned common cts
                 (drop_duplicates
                    (sort_values (filter_isin (elements common) cts)))).
  { apply align_one_table; [exact Hperm | set_solver]. }
  assert (Hr : aligned common route
                 (drop_duplicates
                    (sort_values (filter_isin (elements common) route)))).
  { apply align_one_table; [exact Hperm | set_solver]. }
  pose proof Hp as (_ & _ & Lp). pose proof Hc as (_ & _ & Lc).
  pose proof Hr as (_ & _ & Lr).
  assert (Hrun :
    train_model_align sort_values place_data cts_data route_data
    = if (length (elements common) =? 0)%nat then inl NoCommonEndpoints
      else inr (drop_duplicates
                  (sort_values (filter_isin (elements common) place)),
                drop_duplicates
                  (sort_values (filter_isin (elements common) cts)),
                drop_duplicates
                  (sort_values (filter_isin (elements common) route)))).
  { unfold train_model_align. fold place cts route. fold common.
    destruct (length (elements common) =? 0)%nat; [reflexivity |].
    rewrite Lp, Lc, Lr, Nat.eqb_refl. reflexivity. }
  split; [| split].
  - intros Hempty. rewrite Hrun, Hempty, elements_empty. reflexivity.
  - intros Hne. rewrite Hrun.
    destruct (Nat.eqb_spec (length (elements common)) 0) as [Hz | _].
    + exfalso. apply Hne. apply leibniz_equiv, size_empty_inv. exact Hz.
    + eexists _, _, _. repeat split; try eassumption;
        try apply Hp; try apply Hc; try apply Hr; congruence.
  - intros n1 n2 n3. rewrite Hrun.
    destruct (length (elements common) =? 0)%nat; discriminate.
Qed.

Lemma sort_values_merge_perm (l : list nrow) : sort_values_merge l ≡ₚ l.
Proof. apply merge_sort_Permutation. Qed.

Lemma train_model_align_one_row_per_endpoint_witness :
  (forall l, sort_values_merge l ≡ₚ l)
  /\ exists place' cts' route',
       train_model_align sort_values_merge sample_place sample_cts
         sample_route = inr (place', cts', route')
       /\ length place' = length cts' /\ length cts' = length route'.
Proof.
  split; [exact sort_values_merge_perm |].
  destruct (train_model_align_one_row_per_endpoint sort_values_merge
              sample_place sample_cts sample_route sort_values_merge_perm)
    as (_ & Hsome & _).
  destruct Hsome as (p & c & r & Hrun & _ & _ & _ & Hpc & Hcr).
  - intros Hempty. apply (f_equal size) in Hempty.
    vm_compute in Hempty. discriminate.
  - exists p, c, r. repeat split; assumption.
Defined.

Example train_model_align_sample :
  train_model_align sort_values_merge sample_place sample_cts sample_route
  = inr ([NRow (Row (PStr "clk") (Some 0.10%Q) []) "clk";
          NRow (Row (PStr "top/u2/reg/D") (Some (-0.52)%Q) []) "reg/D"],
         [NRow (Row (PStr "clk") (Some 0.12%Q) []) "clk";
          NRow (Row (PStr "u1/reg/D") (Some (-0.61)%Q) []) "reg/D"],
         [NRow (Row (PStr "clk") (Some 0.13%Q) []) "clk";
          NRow (Row (PStr "reg/D") (Some (-0.58)%Q) []) "reg/D"]).
Proof. vm_compute. reflexivity. Qed.

Example train_model_align_disjoint :
  train_model_align sort_values_merge sample_place sample_cts
    [Row (PStr "elsewhere") None []]
  = inl NoCommonEndpoints.
Proof. vm_compute. reflexivity. Qed.

End TrainFacts.

(** ** The connection retry loops *)

Section RetryFacts.
Import Retry.
Context {conn exn : Type}.
Variable connect : nat -> exn + conn.

(** One turn of the loop. *)
Lemma retry_loop_exit (max_retries retry_delay : Z) (st : loop_state) :
  (max_retries <= retries st)%Z ->
  retry_loop connect max_retries retry_delay st
  = (match last_error st with
     | Some e => Raised e
     | None => RaisedNone
     end, trace st).
Proof.
  intros Hge. simp retry_loop.
  destruct (Z_lt_dec (retries st) max_retries); [lia |].
  now simp retry_loop.
Qed.

Lemma retry_loop_success (max_retries retry_delay : Z) (st : loop_state)
  (c : conn) :
  (retries st < max_retries)%Z -> connect (calls st) = inr c ->
  retry_loop connect max_retries retry_delay st
  = (Returned c, trace st ++ [EvConnect]).
Proof.
  intros Hlt Hc. simp retry_loop.
  destruct (Z_lt_dec (retries st) max_retries); [| lia].
  simp retry_loop. rewrite Hc. now simp retry_loop.
Qed.

Lemma retry_loop_failure (max_retries retry_delay : Z) (st : loop_state)
  (e : exn) :
  (retries st < max_retries)%Z -> connect (calls st) = inl e ->
  (0 <= retry_delay)%Z ->
  retry_loop connect max_retries retry_delay st
  = retry_loop connect max_retries retry_delay
      (after_failure retry_delay e st).
Proof.
  intros Hlt He Hd. rewrite retry_loop_equation_1.
  destruct (Z_lt_dec (retries st) max_retries); [| lia].
  simp retry_loop. rewrite He. simp retry_loop.
  destruct (Z_lt_dec retry_delay 0); [lia |].
  now simp retry_loop.
Qed.

Lemma retry_loop_negative_sleep (max_retries retry_delay : Z)
  (st : loop_state) (e : exn) :
  (retries st < max_retries)%Z -> connect (calls st) = inl e ->
  (retry_delay < 0)%Z ->
  retry_loop connect max_retries retry_delay st
  = (SleepValueError, trace st ++ [EvConnect]).
Proof.
  intros Hlt He Hd. simp retry_loop.
  destruct (Z_lt_dec (retries st) max_retries); [| lia].
  simp retry_loop. rewrite He. simp retry_loop.
  destruct (Z_lt_dec retry_delay 0); [| lia].
  now simp retry_loop.
Qed.

Lemma failed_attempts_S (k : nat) (retry_delay : Z) :
  failed_attempts (S k) retry_delay
  = [EvConnect; EvSleep retry_delay] ++ failed_attempts k retry_delay.
Proof. reflexivity. Qed.

(** [k] failures in a row, with turns to spare, lead to the state they
    describe. *)
Lemma retry_loop_failures (max_retries retry_delay : Z) (k : nat) :
  (0 <= retry_delay)%Z ->
  forall st : loop_state,
    (retries st + Z.of_nat k <= max_retries)%Z ->
    (forall j, (j < k)%nat -> exists e, connect (calls st + j) = inl e) ->
    exists st' : loop_state,
      retry_loop connect max_retries retry_delay st
      = retry_loop connect max_retries retry_delay st'
      /\ retries st' = (retries st + Z.of_nat k)%Z
      /\ calls st' = (calls st + k)%nat
      /\ trace st' = trace st ++ failed_attempts k retry_delay
      /\ last_error st'
         = match k with
           | O => last_error st
           | S k' =>
               match connect (calls st + k') with
               | inl e => Some e
               | inr _ => None
               end
           end.
Proof.
  intros Hd. induction k as [| k IH]; intros st Hk Hfail.
  - exists st. rewrite Nat.add_0_r, Z.add_0_r.
    unfold failed_attempts. simpl. now rewrite app_nil_r.
  - destruct (Hfail 0%nat) as [e He]; [lia |].
    rewrite Nat.add_0_r in He.
    destruct (IH (after_failure retry_delay e st)) as (st' & Hrun & Hr & Hc & Ht & Hl).
    + simpl. lia.
    + intros j Hj. simpl. destruct (Hfail (S j)) as [e' He']; [lia |].
      exists e'. now rewrite <- He', Nat.add_succ_r.
    + exists st'. split; [| split; [| split; [| split]]].
      * rewrite <- Hrun. apply retry_loop_failure; [lia | exact He | exact Hd].
      * rewrite Hr. simpl. lia.
      * rewrite Hc. simpl. lia.
      * rewrite Ht. simpl trace. rewrite failed_attempts_S.
        now rewrite <- app_assoc.
      * rewrite Hl. destruct k as [| k'].
        -- simpl. now rewrite Nat.add_0_r, He.
        -- simpl. now rewrite Nat.add_succ_r.
Qed.

(** C7: with at least one attempt allowed and a non-negative delay,
    [get_connection_with_retry] returns the connection of the first attempt
    that succeeds, after one call and one sleep of the fixed delay per failed
    attempt; if the first [max_retries] attempts all fail it has made exactly
    [max_retries] calls, each followed by a sleep of the fixed delay, and
    raises the error of the last attempt. *)
Theorem get_connection_with_retry_fixed_count
  (max_retries retry_delay : Z) :
  (1 <= max_retries)%Z -> (0 <= retry_delay)%Z ->
  (forall (k : nat) (c : conn),
     (Z.of_nat k < max_retries)%Z ->
     (forall j, (j < k)%nat -> exists e, connect j = inl e) ->
     connect k = inr c ->
     get_connection_with_retry connect max_retries retry_delay
     = (Returned c, failed_attempts k retry_delay ++ [EvConnect]))
  /\ (forall e : exn,
        (forall j, (Z.of_nat j < max_retries)%Z -> exists e', connect j = inl e') ->
        connect (Z.to_nat (max_retries - 1)) = inl e ->
        get_connection_with_retry connect max_retries retry_delay
        = (Raised e, failed_attempts (Z.to_nat max_retries) retry_delay)).
Proof.
  intros Hmax Hdelay. unfold get_connection_with_retry. split.
  - intros k c Hk Hfail Hc.
    destruct (retry_loop_failures max_retries retry_delay k Hdelay
                initial_state) as (st & Hrun & Hr & Hcalls & Ht & _).
    { simpl. lia. }
    { intros j Hj. simpl. now apply Hfail. }
    rewrite Hrun. simpl in Hr, Hcalls, Ht.
    rewrite (retry_loop_success max_retries retry_delay st c).
    + now rewrite Ht.
    + lia.
    + now rewrite Hcalls.
  - intros e Hfail Hlast.
    destruct (retry_loop_failures max_retries retry_delay
                (Z.to_nat max_retries) Hdelay initial_state)
      as (st & Hrun & Hr & Hcalls & Ht & Hl).
    { simpl. lia. }
    { intros j Hj. simpl. apply Hfail. lia. }
    rewrite Hrun. simpl in Hr, Hcalls, Ht, Hl.
    rewrite retry_loop_exit by lia.
    rewrite Ht. f_equal.
    destruct (Z.to_nat max_retries) as [| k'] eqn:Ek; [lia |].
    replace (Z.to_nat (max_retries - 1)) with k' in Hlast by lia.
    now rewrite Hl, Hlast.
Qed.

End RetryFacts.

Section RetryRuns.
Import Retry.
Local Open Scope string_scope.

Lemma get_connection_with_retry_fixed_count_witness :
  ((1 <= 3)%Z /\ (0 <= 2)%Z)
  /\ get_connection_with_retry sample_recovering 3 2
     = (Returned 2%nat, (failed_attempts 2 2 ++ [EvConnect])%list)
  /\ get_connection_with_retry sample_down 3 2
     = (Raised "refused 2", failed_attempts 3 2).
Proof.
  split; [lia |].
  destruct (get_connection_with_retry_fixed_count sample_recovering 3 2)
    as [Hok _]; [lia | lia |].
  destruct (get_connection_with_retry_fixed_count sample_down 3 2)
    as [_ Hfail]; [lia | lia |].
  split.
  - apply (Hok 2%nat 2%nat); [lia | | reflexivity].
    intros [| [| j]] Hj; [eexists; reflexivity .. | lia].
  - apply (Hfail "refused 2"); [| reflexivity].
    intros [| [| [| j]]] Hj; [eexists; reflexivity .. | lia].
Defined.

(** The defaults and the second loop. *)
Example get_connection_with_retry_default_down :
  get_connection_with_retry_default sample_down
  = (Raised "refused 2",
     [EvConnect; EvSleep 2; EvConnect; EvSleep 2; EvConnect; EvSleep 2]).
Proof. reflexivity. Qed.

Lemma _get_connection_is_retry {conn exn : Type} (connect : nat -> exn + conn)
  (max_retries : Z) :
  _get_connection connect max_retries
  = get_connection_with_retry connect max_retries 2.
Proof. reflexivity. Qed.

(** Outside the precondition: no attempt allowed ends in [raise None], a
    negative delay in the [ValueError] of the first sleep. *)
Example get_connection_with_retry_no_attempt :
  get_connection_with_retry sample_down 0 2 = (RaisedNone, []).
Proof. reflexivity. Qed.

Example get_connection_with_retry_negative_delay :
  get_connection_with_retry sample_down 3 (-1) = (SleepValueError, [EvConnect]).
Proof. reflexivity. Qed.

End RetryRuns.

(** ** [generate_sql_with_ollama] *)

Section Chat2SQLFacts.
Import PySeq Chat2SQL.
Local Open Scope string_scope.

(** [String.prefix] and [contains] decide what their names say. *)
Lemma prefix_app (needle s : string) :
  String.prefix needle s = true <-> exists after, s = needle ++ after.
Proof.
  revert s. induction needle as [| c needle IH]; intros s.
  - split; [intros _; now exists s | intros _; now destruct s].
  - destruct s as [| d s]; simpl.
    + split; [discriminate | intros [after H]; discriminate].
    + destruct (ascii_dec c d) as [-> | Hne].
      * rewrite IH. split; intros [after H]; exists after.
        -- now rewrite H.
        -- now injection H.
      * split; [discriminate | intros [after H]]. injection H. congruence.
Qed.

Lemma contains_nil (needle : string) :
  contains needle "" = String.prefix needle "".
Proof. unfold contains. apply orb_false_r. Qed.

Lemma contains_cons (needle : string) (c : ascii) (rest : string) :
  contains needle (String c rest)
  = String.prefix needle (String c rest) || contains needle rest.
Proof. reflexivity. Qed.

Lemma contains_app (needle haystack : string) :
  contains needle haystack = true
  <-> exists before after, haystack = before ++ needle ++ after.
Proof.
  induction haystack as [| c rest IH].
  - rewrite contains_nil, prefix_app. split.
    + intros [after H]. now exists "", after.
    + intros (before & after & H). destruct before; [eauto | discriminate].
  - rewrite contains_cons, orb_true_iff, prefix_app, IH. split.
    + intros [[after H] | (before & after & H)].
      * now exists "", after.
      * exists (String c before), after. now rewrite H.
    + intros (before & after & H). destruct before as [| d before].
      * left. now exists after.
      * right. exists before, after. now injection H.
Qed.

Lemma is_table_listing_spec (lower : string -> string) (query : string) :
  is_table_listing lower query = true
  <-> exists phrase before after,
        In phrase table_listing_phrases
        /\ lower query = before ++ phrase ++ after.
Proof.
  unfold is_table_listing. rewrite existsb_exists. split.
  - intros (phrase & Hin & Hc). apply contains_app in Hc as (b & a & H).
    now exists phrase, b, a.
  - intros (phrase & b & a & Hin & H). exists phrase. split; [exact Hin |].
    apply contains_app. now exists b, a.
Qed.

(** C8: when the lower-cased query contains one of the six phrases,
    [generate_sql_with_ollama] returns the fixed table-listing SQL, and does
    so without a call of the Ollama API, whatever the server would answer. *)
Theorem generate_sql_table_listing_direct
  (lower : string -> string) (schema : Type) (json_dumps : schema -> string)
  (query : string) (sch : schema) :
  (exists phrase before after,
     In phrase
       ["list tables"; "show tables"; "all tables"; "list all tables";
        "show all tables"; "database"]
     /\ lower query = before ++ phrase ++ after) ->
  generate_sql_with_ollama lower schema json_dumps query sch
  = Ret table_listing_sql
  /\ forall server,
       api_calls server
         (generate_sql_with_ollama lower schema json_dumps query sch) = 0%nat.
Proof.
  intros H. apply (is_table_listing_spec lower query) in H.
  unfold generate_sql_with_ollama. rewrite H. split; reflexivity.
Qed.

Lemma generate_sql_table_listing_direct_witness :
  (exists phrase before after,
     In phrase
       ["list tables"; "show tables"; "all tables"; "list all tables";
        "show all tables"; "database"]
     /\ ascii_lower "Please SHOW Tables now" = before ++ phrase ++ after)
  /\ generate_sql_with_ollama ascii_lower unit (fun _ => "{}")
       "Please SHOW Tables now" tt
     = Ret table_listing_sql.
Proof.
  assert (H : exists phrase before after,
            In phrase
              ["list tables"; "show tables"; "all tables"; "list all tables";
               "show all tables"; "database"]
            /\ ascii_lower "Please SHOW Tables now"
               = before ++ phrase ++ after).
  { exists "show tables", "please ", " now". split; [| reflexivity].
    simpl. tauto. }
  split; [exact H |].
  apply (generate_sql_table_listing_direct ascii_lower unit (fun _ => "{}")
           "Please SHOW Tables now" tt H).
Defined.

(** Any other query goes to the API, once. *)
Lemma generate_sql_other_query_posts
  (lower : string -> string) (schema : Type) (json_dumps : schema -> string)
  (query : string) (sch : schema) :
  is_table_listing lower query = false ->
  (exists k,
     generate_sql_with_ollama lower schema json_dumps query sch
     = Post OLLAMA_API_URL MODEL_NAME (ollama_prompt schema json_dumps query sch) k)
  /\ forall server,
       api_calls server
         (generate_sql_with_ollama lower schema json_dumps query sch) = 1%nat.
Proof.
  intros H. unfold generate_sql_with_ollama. rewrite H. split.
  - eexists. reflexivity.
  - intros server. simpl.
    destruct (server _) as [err | response]; [reflexivity |].
    destruct (negb _); [reflexivity |].
    destruct (json_response response); reflexivity.
Qed.

Example generate_sql_fenced_reply :
  match
    generate_sql_with_ollama ascii_lower unit (fun _ => "{}")
      "how many users" tt
  with
  | Post _ _ _ k =>
      k (inr (HttpResponse 200 ""
                (inr (Some "  ```sql
SELECT `a` FROM t; done```
 "))))
  | other => other
  end
  = Ret "
SELECT a FROM t;".
Proof. reflexivity. Qed.

End Chat2SQLFacts.

(** ** [generate_synthetic_data] and the store *)

Section SyntheticFacts.
Import Synthetic.

Lemma confined_ret {A : Type} (only : ref) (a : A) : confined only (mret a).
Proof. intros w l _. reflexivity. Qed.

Lemma confined_raise {A : Type} (only : ref) (msg : string) :
  confined only (@raise A msg).
Proof. intros w l _. reflexivity. Qed.

Lemma confined_bind {A B : Type} (only : ref) (m : M A) (k : A -> M B) :
  confined only m -> (forall a, confined only (k a)) ->
  confined only (m ≫= k).
Proof.
  intros Hm Hk w l Hl. unfold mbind, M_bind, bind.
  specialize (Hm w l Hl). destruct (m w) as [[e | a] w']; simpl in *.
  - exact Hm.
  - rewrite <- Hm. now apply Hk.
Qed.

Lemma confined_for_each {A : Type} (only : ref) (xs : list A)
  (body : A -> M unit) :
  (forall x, confined only (body x)) -> confined only (for_each xs body).
Proof.
  intros Hbody. induction xs as [| x rest IH]; simpl.
  - apply confined_ret.
  - apply confined_bind; [apply Hbody | intros _; exact IH].
Qed.

Lemma confined_df_read (only df : ref) : confined only (df_read df).
Proof. intros w l _. unfold df_read. now destruct (heap w !! df). Qed.

Lemma confined_df_write (only : ref) (f : frame) :
  confined only (df_write only f).
Proof. intros w l Hl. simpl. now apply lookup_insert_ne. Qed.

Lemma confined_draw (only : ref) (source : nat -> Q) (size : nat) :
  confined only (draw source size).
Proof. intros w l _. reflexivity. Qed.

Create HintDb confined discriminated.
#[local] Hint Resolve confined_ret confined_raise confined_df_read
  confined_df_write confined_draw : confined.

(** One step of a proof that a computation is confined: split a bind, case
    on a test, or unfold an operation of the data frame. *)
Ltac confined_step :=
  lazymatch goal with
  | |- confined _ (_ ≫= _) => apply confined_bind; [| intros ?]
  | |- confined _ (for_each _ _) => apply confined_for_each; intros ?
  | |- confined _ (if ?b then _ else _) => destruct b
  | |- confined _ (match ?x with _ => _ end) => destruct x
  | |- confined _ _ => solve [eauto with confined]
  end.

Ltac confined_auto := repeat confined_step.

Lemma confined_df_len (only df : ref) : confined only (df_len df).
Proof. unfold df_len. confined_auto. Qed.

Lemma confined_df_has_column (only df : ref) (name : string) :
  confined only (df_has_column df name).
Proof. unfold df_has_column. confined_auto. Qed.

Lemma confined_df_getitem (only df : ref) (name : string) :
  confined only (df_getitem df name).
Proof. unfold df_getitem. confined_auto. Qed.

Lemma confined_df_setitem (only : ref) (name : string)
  (values : list (option Q)) :
  confined only (df_setitem only name values).
Proof. unfold df_setitem. confined_auto. Qed.

Lemma confined_column_op (only : ref) (op : Q -> Q -> Q) (c : column)
  (b : list Q) :
  confined only (column_op op c b).
Proof. unfold column_op, array_op. confined_auto. Qed.

Lemma confined_np_random_uniform (only : ref) (uniform01 : nat -> Q)
  (low high : Q) (size : nat) :
  confined only (np_random_uniform uniform01 low high size).
Proof. unfold np_random_uniform. confined_auto. Qed.

Lemma confined_np_random_normal (only : ref) (std_normal : nat -> Q)
  (loc scale : Q) (size : nat) :
  confined only (np_random_normal std_normal loc scale size).
Proof. unfold np_random_normal. confined_auto. Qed.

#[local] Hint Resolve confined_df_len confined_df_has_column
  confined_df_getitem confined_df_setitem confined_column_op
  confined_np_random_uniform confined_np_random_normal : confined.

(** Everything [generate_synthetic_data] does after the deep copy, as a
    function of the copy. *)
Lemma generate_synthetic_data_after_copy
  (uniform01 std_normal : nat -> Q) (reference_data : ref)
  (data_type : string) :
  exists rest : ref -> M ref,
    generate_synthetic_data uniform01 std_normal reference_data data_type
    = df_copy_deep reference_data ≫= rest
    /\ (forall synthetic_data, confined synthetic_data (rest synthetic_data))
    /\ (forall synthetic_data w s,
          (rest synthetic_data w).1 = inr s -> s = synthetic_data).
Proof.
  eexists. split; [reflexivity | split].
  - intros synthetic_data. cbv zeta. confined_auto.
  - intros synthetic_data w s. cbv zeta.
    unfold mbind, M_bind, bind.
    repeat match goal with
           | |- context [match ?m ?w with _ => _ end] =>
               destruct (m w) as [[? | ?] ?]; simpl; try discriminate
           end.
    congruence.
Qed.

(** C9: [generate_synthetic_data] leaves the reference data frame as it was
    (so also its [slack] column): its writes go to one object that did not
    exist before the call, the deep copy, and that object is what it
    returns. *)
Theorem generate_synthetic_data_keeps_reference
  (uniform01 std_normal : nat -> Q) (reference_data : ref)
  (data_type : string) (w : world) :
  let run :=
    generate_synthetic_data uniform01 std_normal reference_data data_type w in
  heap run.2 !! reference_data = heap w !! reference_data
  /\ (lookup_column "slack" <$> heap run.2 !! reference_data)
     = (lookup_column "slack" <$> heap w !! reference_data)
  /\ exists copy : ref,
       heap w !! copy = None
       /\ (forall l, l ≠ copy -> heap run.2 !! l = heap w !! l)
       /\ match run.1 with
          | inr synthetic_data => synthetic_data = copy
          | inl _ => True
          end.
Proof.
  intros run.
  assert (Hcopy : exists copy : ref,
            heap w !! copy = None
            /\ (forall l, l ≠ copy -> heap run.2 !! l = heap w !! l)
            /\ match run.1 with
               | inr synthetic_data => synthetic_data = copy
               | inl _ => True
               end).
  { subst run.
    destruct (generate_synthetic_data_after_copy uniform01 std_normal
                reference_data data_type) as (rest & -> & Hconf & Hres).
    exists (fresh (dom (heap w))).
    assert (Hfresh : heap w !! fresh (dom (heap w)) = None).
    { apply not_elem_of_dom, is_fresh. }
    split; [exact Hfresh |].
    unfold df_copy_deep, df_read, df_alloc, mbind, M_bind, bind.
    destruct (heap w !! reference_data) as [f |] eqn:Eref; simpl.
    - split.
      + intros l Hl. rewrite (Hconf _ _ l Hl). simpl.
        now apply lookup_insert_ne.
      + destruct (rest _ _) as [[e | s] w'] eqn:Erest; simpl; [exact I |].
        apply (Hres _ {| heap := <[fresh (dom (heap w)) := f]> (heap w);
                         rng := rng w |}).
        now rewrite Erest.
    - split; [reflexivity | exact I]. }
  destruct Hcopy as (copy & Hnone & Hkept & Hret).
  assert (Href : heap run.2 !! reference_data = heap w !! reference_data).
  { destruct (decide (reference_data = copy)) as [-> | Hne];
      [| now apply Hkept].
    subst run. unfold generate_synthetic_data, df_copy_deep, df_read.
    unfold mbind, M_bind, bind. now rewrite Hnone. }
  split; [exact Href | split; [now rewrite Href |]].
  exists copy. auto.
Qed.

Lemma generate_synthetic_data_keeps_reference_witness :
  heap (generate_synthetic_data sample_uniform sample_normal 0%nat "place"
          sample_world).2 !! 0%nat
  = Some sample_frame.
Proof.
  destruct (generate_synthetic_data_keeps_reference sample_uniform
              sample_normal 0%nat "place" sample_world) as [Hkept _].
  etransitivity; [exact Hkept | reflexivity].
Defined.

(** A run on the sample store: the reference frame is unchanged, the copy
    holds the new slacks and the perturbed numeric column. *)
Example generate_synthetic_data_sample :
  let run :=
    generate_synthetic_data sample_uniform sample_normal 0%nat "cts"
      sample_world in
  run.1 = inr 1%nat
  /\ heap run.2 !! 0%nat = Some sample_frame
  /\ heap run.2 !! 1%nat
     = Some {| nrows := 2;
               columns :=
                 [("endpoint"%string, ObjCol ["a/b"%string; "c/d"%string]);
                  ("slack"%string,
                   NumCol [Some (-0.5 + (0 + 0.08 * (2 / 10)))%Q; None]);
                  ("fanout"%string,
                   NumCol [Some (2 * (1.0 + 0.05 * (4 / 10)))%Q;
                           Some (3 * (1.0 + 0.05 * (5 / 10)))%Q])] |}.
Proof. vm_compute. repeat split. Qed.

End SyntheticFacts.

(** ** [api_train] and [handle_train_command] *)

Section TrainApiFacts.
Import TrainApi.
Local Open Scope string_scope.

Lemma truthy_Some (v : option string) :
  truthy v = true -> exists s, v = Some s /\ s ≠ "".
Proof.
  destruct v as [s |]; simpl; [| discriminate].
  intros H. exists s. split; [reflexivity |].
  intros ->. discriminate.
Qed.

Lemma py_or_truthy (a b : option string) :
  truthy (py_or a b) = truthy a || truthy b.
Proof. unfold py_or. now destruct (truthy a) eqn:E. Qed.

(** C10: a request to [/api/train] that supplies a place table and a CTS
    table (under either parameter name) and no route table is not answered
    with the missing-parameter error: the handler calls [train_model] with
    the CTS table as route table and answers with its result (or with the
    error [train_model] raised).  [handle_train_command] on a command with
    two table names does the same substitution. *)
Theorem api_train_route_defaults_to_cts
  (train_result : Type) (train_model : TrainRequest -> string + train_result)
  (split_whitespace : string -> list string)
  (place_table cts_table route_table place cts route : option string) :
  truthy place_table || truthy place = true ->
  truthy cts_table || truthy cts = true ->
  truthy route_table = false -> truthy route = false ->
  (exists p c,
     py_or place_table place = Some p /\ py_or cts_table cts = Some c
     /\ api_train train_result train_model place_table cts_table route_table
          place cts route
        = match train_model (MkTrainRequest p c c) with
          | inr result => Trained result
          | inl e => JSONResponse 500 [("status", "error"); ("message", e)]
          end
     /\ api_train train_result train_model place_table cts_table route_table
          place cts route
        ≠ missing_parameters train_result)
  /\ (forall message command p c,
        split_whitespace message = [command; p; c] ->
        handle_train_command split_whitespace message
        = Some [("status", "training");
                ("place_table", p);
                ("cts_table", c);
                ("route_table", c);
                ("message", training_message p c c)]).
Proof.
  intros Hp Hc Hr1 Hr2. split.
  - rewrite <- py_or_truthy in Hp, Hc.
    destruct (truthy_Some _ Hp) as (p & Ep & Hpne).
    destruct (truthy_Some _ Hc) as (c & Ec & Hcne).
    exists p, c.
    assert (Hrun :
      api_train train_result train_model place_table cts_table route_table
        place cts route
      = match train_model (MkTrainRequest p c c) with
        | inr result => Trained result
        | inl e => JSONResponse 500 [("status", "error"); ("message", e)]
        end).
    { unfold api_train.
      assert (Hroute : truthy (py_or route_table route) = false)
        by now rewrite py_or_truthy, Hr1, Hr2.
      rewrite Hroute. unfold py_and. rewrite Hp, Hc. simpl.
      rewrite Ep, Ec. reflexivity. }
    repeat split; try assumption.
    rewrite Hrun. unfold missing_parameters.
    destruct (train_model _); discriminate.
  - intros message command p c Hsplit.
    unfold handle_train_command. rewrite Hsplit. reflexivity.
Qed.

Lemma api_train_route_defaults_to_cts_witness :
  (truthy None || truthy (Some "ariane_place_csv") = true
   /\ truthy (Some "ariane_cts_csv") || truthy None = true
   /\ truthy None = false /\ truthy (Some "") = false)
  /\ api_train nat sample_train_model None (Some "ariane_cts_csv") None
       (Some "ariane_place_csv") None (Some "")
     = Trained 2%nat
  /\ handle_train_command split_ascii_whitespace
       "train ariane_place_csv  ariane_cts_csv"
     = Some [("status", "training");
             ("place_table", "ariane_place_csv");
             ("cts_table", "ariane_cts_csv");
             ("route_table", "ariane_cts_csv");
             ("message",
              training_message "ariane_place_csv" "ariane_cts_csv"
                "ariane_cts_csv")].
Proof.
  split; [repeat split |].
  destruct (api_train_route_defaults_to_cts nat sample_train_model
              split_ascii_whitespace None (Some "ariane_cts_csv") None
              (Some "ariane_place_csv") None (Some ""))
    as [(p & c & Ep & Ec & Hrun & _) Hchat]; try reflexivity.
  split.
  - rewrite Hrun. injection Ep as <-. injection Ec as <-. reflexivity.
  - apply (Hchat _ "train"). reflexivity.
Defined.

(** With a route table the request is passed on as it is; without a place
    or CTS table it is refused. *)
Example api_train_with_route :
  api_train nat sample_train_model (Some "p") (Some "c") (Some "r") None None
    None
  = Trained 3%nat.
Proof. reflexivity. Qed.

Example api_train_missing_cts :
  api_train nat sample_train_model (Some "p") None (Some "r") None (Some "")
    None
  = missing_parameters nat.
Proof. reflexivity. Qed.

End TrainApiFacts.

(** ** More on the slack arithmetic *)

Section SlackMore.
Import PyNum Prediction.
Local Open Scope Q_scope.

(** The physics-based expectation lies between the two input slacks. *)
Lemma expected_route_slack_between (place_slack cts_slack : Q) :
  py_min place_slack cts_slack <= expected_route_slack place_slack cts_slack
  /\ expected_route_slack place_slack cts_slack
     <= py_max place_slack cts_slack.
Proof.
  unfold expected_route_slack, py_abs.
  pose proof (div_2 (place_slack + cts_slack)) as Havg.
  set (avg := (place_slack + cts_slack) / 2) in *.
  destruct (py_min_cases place_slack cts_slack) as [[H ->] | [H ->]];
    destruct (py_max_cases place_slack cts_slack) as [[H' ->] | [H' ->]];
    try lra;
    destruct (py_min_cases (Qabs (place_slack - cts_slack) * 0.1) 0.03)
      as [[Ho ->] | [Ho ->]];
    revert Ho; apply Qabs_case; intros; lra.
Qed.

(** X2: the correction of [improve_route_predictions] never moves a
    prediction away from the physics-based expectation: the corrected value
    is at most 0.8 times as far from it as the raw prediction was (so a raw
    prediction equal to the expectation is kept). *)
Theorem improve_route_prediction_contracts
  (raw_pred place_slack cts_slack : Q) :
  Qabs (improve_route_prediction raw_pred place_slack cts_slack
        - expected_route_slack place_slack cts_slack)
  <= 0.8 * Qabs (raw_pred - expected_route_slack place_slack cts_slack).
Proof.
  rewrite improve_route_prediction_eq. cbv zeta.
  pose proof (expected_route_slack_between place_slack cts_slack) as [Hlo Hhi].
  set (E := expected_route_slack place_slack cts_slack) in *.
  set (lo := py_min place_slack cts_slack) in *.
  set (hi := py_max place_slack cts_slack) in *.
  pose proof (correction_weights_cases (py_abs (raw_pred - E))) as Hw.
  set (w := correction_weights (py_abs (raw_pred - E))) in *.
  destruct Hw as [<- | [<- | [<- | [<- | []]]]]; simpl fst; simpl snd;
    match goal with
    | |- context [py_min (py_max ?x ?l) ?h] =>
        destruct (py_min_cases (py_max x l) h) as [[H2 ->] | [H2 ->]];
        destruct (py_max_cases x l) as [[H1 E1] | [H1 E1]];
        rewrite ?E1 in *
    end;
    apply Qabs_case; intros; apply Qabs_case; intros; lra.
Qed.

(** X3: in [calculate_synthetic_route_slack] the two final bounds are never
    active (exact arithmetic): the result is the value computed before them,
    and it lies within [min_slack - 0.0008] and [max_slack + 0.0119152],
    strictly inside the interval the bounds would enforce. *)
Theorem calculate_synthetic_route_slack_tight
  (hash : string -> Z) (format_float : string -> Q -> string)
  (place_slack cts_slack : Q) :
  let min_slack := py_min place_slack cts_slack in
  let weights := critical_weights min_slack in
  let h6 := hash (fstring_6f format_float place_slack cts_slack) in
  let h := hash (fstring_plain format_float place_slack cts_slack) in
  calculate_synthetic_route_slack hash format_float place_slack cts_slack
  = min_slack * weights.1
    + (place_slack + cts_slack) / 2 * weights.2
    + optimization_potential (py_abs (place_slack - cts_slack))
      * (0.4 + 0.6 * hash_fraction h6)
    + hash_variation h
  /\ min_slack - 0.0008
     <= calculate_synthetic_route_slack hash format_float place_slack cts_slack
  /\ calculate_synthetic_route_slack hash format_float place_slack cts_slack
     <= py_max place_slack cts_slack + 0.0119152.
Proof.
  intros min_slack weights h6 h.
  pose proof (calculate_synthetic_route_slack_unclamped hash format_float
                place_slack cts_slack) as Heq.
  cbv zeta in Heq. fold min_slack in Heq. fold weights in Heq.
  fold h6 in Heq. fold h in Heq.
  split; [exact Heq |]. rewrite Heq. clear Heq.
  pose proof (hash_fraction_bounds h6) as Hf.
  pose proof (hash_variation_bounds h) as Hv.
  pose proof (div_2 (place_slack + cts_slack)) as Havg.
  set (avg := (place_slack + cts_slack) / 2) in *.
  set (f := hash_fraction h6) in *. set (v := hash_variation h) in *.
  assert (Hdiff : py_abs (place_slack - cts_slack)
                  == py_max place_slack cts_slack - min_slack).
  { unfold py_abs, min_slack.
    destruct (py_min_cases place_slack cts_slack) as [[H ->] | [H ->]];
      destruct (py_max_cases place_slack cts_slack) as [[H' ->] | [H' ->]];
      try lra.
    - rewrite Qabs_pos; lra.
    - rewrite Qabs_neg; lra.
    - rewrite Qabs_pos; lra. }
  assert (Hmin : min_slack <= py_max place_slack cts_slack)
    by apply py_min_le_max.
  assert (Hsum : place_slack + cts_slack
                 == min_slack + py_max place_slack cts_slack).
  { unfold min_slack.
    destruct (py_min_cases place_slack cts_slack) as [[H ->] | [H ->]];
      destruct (py_max_cases place_slack cts_slack) as [[H' ->] | [H' ->]];
      lra. }
  set (d := py_abs (place_slack - cts_slack)) in *.
  set (M := py_max place_slack cts_slack) in *.
  assert (Hopt :
    (d <= 0.05 /\ optimization_potential d = 0.008)
    \/ (0.05 < d /\ optimization_potential d <= 0.025)).
  { unfold optimization_potential, gtb.
    destruct (ltb 0.1 d) eqn:E1; [apply ltb_lt in E1; right; split; lra |].
    destruct (ltb 0.05 d) eqn:E2.
    - apply ltb_lt in E2. right. split; lra.
    - apply ltb_ge in E2. left. split; [lra | reflexivity]. }
  assert (Hopt0 : 0.008 <= optimization_potential d).
  { unfold optimization_potential.
    destruct (gtb d 0.1); [lra |]. destruct (gtb d 0.05); lra. }
  set (o := optimization_potential d) in *.
  split;
    destruct (critical_weights_cases min_slack) as [E | [E | [E | []]]];
    fold weights in E; rewrite <- E; simpl fst; simpl snd;
    destruct Hopt as [[Hd Ho] | [Hd Ho]]; try rewrite Ho; nra.
Qed.

(** The loop fails at the first index that one of the slack arrays lacks. *)
Lemma improve_route_predictions_fails_at
  (raw_predictions place_slacks cts_slacks : list Q) (k : nat) :
  (k < length raw_predictions)%nat ->
  place_slacks !! k = None \/ cts_slacks !! k = None ->
  improve_route_predictions raw_predictions place_slacks cts_slacks = None.
Proof.
  intros Hlt Hnone. unfold improve_route_predictions.
  replace (length raw_predictions)
    with (k + S (length raw_predictions - S k))%nat by lia.
  rewrite seq_app, foldl_app. simpl.
  destruct (foldl _ (Some []) (seq 0 k)) as [acc |]; simpl;
    [| apply improve_fold_None].
  destruct (raw_predictions !! k); simpl; [| apply improve_fold_None].
  destruct Hnone as [-> | Hc]; simpl; [apply improve_fold_None |].
  destruct (place_slacks !! k); simpl; [| apply improve_fold_None].
  rewrite Hc. simpl. apply improve_fold_None.
Qed.

(** X4: [improve_route_predictions] ends in an [IndexError] exactly when one
    of the two slack arrays is shorter than the array of raw predictions;
    longer slack arrays are accepted and their tail is ignored. *)
Theorem improve_route_predictions_index_error
  (raw_predictions place_slacks cts_slacks : list Q) :
  improve_route_predictions raw_predictions place_slacks cts_slacks = None
  <-> (length place_slacks < length raw_predictions)%nat
      \/ (length cts_slacks < length raw_predictions)%nat.
Proof.
  split.
  - intros Hnone.
    destruct (Nat.lt_ge_cases (length place_slacks) (length raw_predictions))
      as [Hp | Hp]; [now left |].
    destruct (Nat.lt_ge_cases (length cts_slacks) (length raw_predictions))
      as [Hc | Hc]; [now right |].
    destruct (improve_fold raw_predictions place_slacks cts_slacks
                (length raw_predictions) 0 [])
      as (out & Hfold & _); [simpl; lia .. |].
    unfold improve_route_predictions in Hnone. rewrite Hfold in Hnone.
    discriminate.
  - intros [Hp | Hc].
    + apply improve_route_predictions_fails_at with (length place_slacks);
        [exact Hp | left; now apply lookup_ge_None_2].
    + apply improve_route_predictions_fails_at with (length cts_slacks);
        [exact Hc | right; now apply lookup_ge_None_2].
Qed.

End SlackMore.

(** ** More on [normalize_endpoint] *)

Section EndpointMore.
Import PySeq Prediction.
Local Open Scope string_scope.

Lemma has_char_dec (c : ascii) (s : string) :
  {has_char c s} + {~ has_char c s}.
Proof. unfold has_char. apply in_dec, ascii_dec. Qed.

(** X1: on strings [normalize_endpoint] is idempotent; its result is a
    suffix of the endpoint and has at most two ['/']-separated parts, so a
    normalized endpoint is a stable key. *)
Theorem normalize_endpoint_idempotent (endpoint : string) :
  normalize_endpoint (PStr (normalize_endpoint (PStr endpoint)))
  = normalize_endpoint (PStr endpoint)
  /\ (exists before, endpoint = before ++ normalize_endpoint (PStr endpoint))
  /\ (length (split "/" (normalize_endpoint (PStr endpoint))) <= 2)%nat.
Proof.
  simpl. destruct (has_char_dec "/" endpoint) as [Hin | Hno].
  - destruct (last_two (split "/" endpoint) (split_with_sep "/" endpoint Hin))
      as (front & p2 & p1 & E).
    pose proof (split_parts_no_sep "/" endpoint) as Hparts.
    rewrite E, Forall_app in Hparts. destruct Hparts as [_ Hlast].
    inversion Hlast as [| ? ? H2 Hlast']; subst.
    inversion Hlast' as [| ? ? H1 _]; subst.
    rewrite (normalize_endpoint_str_parts endpoint front p2 p1 E).
    destruct (split_last_two "" p2 p1 (or_introl eq_refl) H2 H1)
      as [front' E'].
    rewrite string_app_nil_l in E'.
    assert (Etwo : split "/" (p2 ++ "/" ++ p1) = [p2; p1]).
    { change (p2 ++ "/" ++ p1) with (p2 ++ String "/" p1).
      now rewrite split_app_sep, (split_no_sep _ _ H2), (split_no_sep _ _ H1). }
    split; [| split].
    + now apply (normalize_endpoint_str_parts _ []).
    + exists (leading "/" front).
      rewrite <- (join_split "/" endpoint) at 1. rewrite E.
      apply join_last_two.
    + rewrite Etwo. simpl. lia.
  - assert (E : normalize_endpoint_str endpoint = endpoint).
    { unfold normalize_endpoint_str.
      now rewrite (split_no_sep "/" endpoint Hno). }
    rewrite !E. split; [reflexivity | split].
    + now exists "".
    + rewrite (split_no_sep "/" endpoint Hno). simpl. lia.
Qed.

End EndpointMore.

(** ** More on the retry loops *)

Section RetryMore.
Import Retry RetryCount.
Context {conn exn : Type}.
Variable connect : nat -> exn + conn.

Lemma connects_app (t1 t2 : list event) :
  connects (t1 ++ t2) = (connects t1 + connects t2)%nat.
Proof. unfold connects. now rewrite filter_app, length_app. Qed.

Lemma sleeps_app (t1 t2 : list event) :
  sleeps (t1 ++ t2) = (sleeps t1 + sleeps t2)%nat.
Proof. unfold sleeps. now rewrite filter_app, length_app. Qed.

(** From any state, with [n] turns left the loop adds at most [n] attempts,
    never more sleeps than attempts, and sleeps of the given delay only. *)
Lemma retry_loop_bounded (max_retries retry_delay : Z) (n : nat) :
  forall st : loop_state,
    (Z.to_nat (max_retries - retries st) <= n)%nat ->
    exists added,
      (retry_loop connect max_retries retry_delay st).2 = trace st ++ added
      /\ (connects added <= Z.to_nat (max_retries - retries st))%nat
      /\ (sleeps added <= connects added)%nat
      /\ forall s, EvSleep s ∈ added -> s = retry_delay.
Proof.
  assert (Hnil : forall s, EvSleep s ∈ @nil event -> s = retry_delay).
  { intros s Hs. inversion Hs. }
  assert (Hone : forall s, EvSleep s ∈ [EvConnect] -> s = retry_delay).
  { intros s Hs. apply list_elem_of_singleton in Hs. discriminate. }
  induction n as [| n IH]; intros st Hn.
  - exists []. rewrite retry_loop_exit by lia. simpl.
    rewrite app_nil_r. split; [reflexivity |].
    split; [unfold connects; simpl; lia |].
    split; [unfold sleeps; simpl; lia | exact Hnil].
  - destruct (Z_lt_dec (retries st) max_retries) as [Hlt | Hge].
    + destruct (connect (calls st)) as [e | c] eqn:Ec.
      * destruct (Z_lt_dec retry_delay 0) as [Hneg | Hpos].
        -- exists [EvConnect].
           rewrite (retry_loop_negative_sleep connect _ _ st e Hlt Ec Hneg).
           simpl. split; [reflexivity |].
           split; [unfold connects; simpl; lia |].
           split; [unfold sleeps, connects; simpl; lia | exact Hone].
        -- rewrite (retry_loop_failure connect _ _ st e Hlt Ec) by lia.
           destruct (IH (after_failure retry_delay e st))
             as (added & Ht & Hc & Hs & Hd); [simpl; lia |].
           exists ([EvConnect; EvSleep retry_delay] ++ added).
           rewrite Ht. simpl trace. rewrite <- app_assoc.
           split; [reflexivity |].
           rewrite connects_app, sleeps_app. simpl in Hc.
           assert (Ec2 : connects [EvConnect; EvSleep retry_delay] = 1%nat)
             by reflexivity.
           assert (Es2 : sleeps [EvConnect; EvSleep retry_delay] = 1%nat)
             by reflexivity.
           rewrite Ec2, Es2.
           split; [lia |]. split; [lia |].
           intros s Hin. apply elem_of_app in Hin as [Hin | Hin]; [| auto].
           apply elem_of_cons in Hin as [Hin | Hin]; [discriminate |].
           apply list_elem_of_singleton in Hin. now injection Hin.
      * exists [EvConnect].
        rewrite (retry_loop_success connect _ _ st c Hlt Ec). simpl.
        split; [reflexivity |].
        split; [unfold connects; simpl; lia |].
        split; [unfold sleeps, connects; simpl; lia | exact Hone].
    + exists []. rewrite retry_loop_exit by lia. simpl.
      rewrite app_nil_r. split; [reflexivity |].
      split; [unfold connects; simpl; lia |].
      split; [unfold sleeps; simpl; lia | exact Hnil].
Qed.

(** X5: whatever the database answers and whatever the arguments,
    [get_connection_with_retry] makes at most [max_retries] connection
    attempts, sleeps at most once per attempt, and every sleep has the fixed
    delay. *)
Theorem get_connection_with_retry_bounded (max_retries retry_delay : Z) :
  let t := (get_connection_with_retry connect max_retries retry_delay).2 in
  (connects t <= Z.to_nat max_retries)%nat
  /\ (sleeps t <= connects t)%nat
  /\ Forall (fun e => e = EvConnect \/ e = EvSleep retry_delay) t.
Proof.
  intros t. subst t. unfold get_connection_with_retry.
  destruct (retry_loop_bounded max_retries retry_delay
              (Z.to_nat max_retries) initial_state)
    as (added & Ht & Hc & Hs & Hd); [simpl; lia |].
  rewrite Ht. simpl in *. replace (max_retries - 0)%Z with max_retries in Hc by lia.
  repeat split; try assumption.
  apply Forall_forall. intros [| s] Hin; [now left |].
  right. f_equal. now apply Hd.
Qed.

(** X6: outside the defaults.  With [max_retries <= 0] no attempt is made
    and the call ends in the [TypeError] of [raise None]; with a negative
    [retry_delay] a failing first attempt ends the call with the
    [ValueError] of [time.sleep], after that single attempt. *)
Theorem get_connection_with_retry_edge_arguments
  (max_retries retry_delay : Z) :
  ((max_retries <= 0)%Z ->
   get_connection_with_retry connect max_retries retry_delay
   = (RaisedNone, []))
  /\ (forall e,
        (1 <= max_retries)%Z -> (retry_delay < 0)%Z -> connect 0%nat = inl e ->
        get_connection_with_retry connect max_retries retry_delay
        = (SleepValueError, [EvConnect])).
Proof.
  unfold get_connection_with_retry. split.
  - intros Hmax. now rewrite retry_loop_exit by (simpl; lia).
  - intros e Hmax Hneg He.
    now rewrite (retry_loop_negative_sleep connect _ _ initial_state e)
      by (simpl; trivial; lia).
Qed.

End RetryMore.

Section RetryMoreRuns.
Import Retry RetryCount.

Lemma get_connection_with_retry_edge_arguments_witness :
  ((0 <= 0)%Z /\ (1 <= 3)%Z /\ (-1 < 0)%Z
   /\ sample_down 0%nat = inl "refused 0"%string)
  /\ get_connection_with_retry sample_down 0 2 = (RaisedNone, [])
  /\ get_connection_with_retry sample_down 3 (-1)
     = (SleepValueError, [EvConnect]).
Proof.
  split; [repeat split; lia |]. split.
  - apply (proj1 (get_connection_with_retry_edge_arguments sample_down 0 2)).
    lia.
  - apply (proj2 (get_connection_with_retry_edge_arguments sample_down 3 (-1))
             "refused 0"%string); [lia | lia | reflexivity].
Defined.

End RetryMoreRuns.

(** ** More on [handle_train_command] *)

Section TrainCommandMore.
Import TrainApi.
Local Open Scope string_scope.

(** A non-negative index reads the list from the front. *)
Lemma index_nat {A : Type} (l : list A) (k : nat) :
  PySeq.index l (Z.of_nat k) = l !! k.
Proof.
  unfold PySeq.index.
  destruct (Z.ltb_spec (Z.of_nat k) (- Z.of_nat (length l))); [lia |].
  destruct (Z.ltb_spec (Z.of_nat k) 0); [lia |].
  now rewrite Nat2Z.id.
Qed.

(** X7: [handle_train_command] never fails with an [IndexError]: with
    fewer than three words it returns the usage error, otherwise a training
    dict whose route table is the fourth word when there is a non-empty one
    and the CTS table when there is none; words after the fourth are
    ignored. *)
Theorem handle_train_command_total
  (split_whitespace : string -> list string) (message : string) :
  handle_train_command split_whitespace message
  = match split_whitespace message with
    | _ :: place_table :: cts_table :: rest =>
        let route_table :=
          match rest with
          | route :: _ => if String.eqb route "" then cts_table else route
          | [] => cts_table
          end in
        Some [("status", "training");
              ("place_table", place_table);
              ("cts_table", cts_table);
              ("route_table", route_table);
              ("message", training_message place_table cts_table route_table)]
    | _ => Some [("status", "error"); ("message", train_usage)]
    end.
Proof.
  unfold handle_train_command.
  destruct (split_whitespace message) as [| w0 [| w1 [| w2 rest]]];
    try reflexivity.
  change 1%Z with (Z.of_nat 1). change 2%Z with (Z.of_nat 2).
  change 3%Z with (Z.of_nat 3). rewrite !index_nat.
  destruct rest as [| w3 rest]; [reflexivity |].
  cbn -[training_message String.eqb].
  destruct (String.eqb w3 ""); reflexivity.
Qed.

End TrainCommandMore.

(** ** The request checks and the alignment of [predict] *)

Section PredictFacts.
Import PySeq Prediction Train TrainApi Predict.
Local Open Scope string_scope.

(** X8: the request checks of [predict].  They pass exactly when a table is
    given, no given table has "route" in its lower-cased name, the two
    tables are not the same, and the model is trained; every failure is a
    400; and the three checks after the model check (lines 618-634) can
    never fire, the earlier ones having covered them. *)
Theorem predict_checks_spec (lower : string -> string)
  (place_table cts_table : option string) (model_trained : bool) :
  (predict_checks lower place_table cts_table model_trained = None
   <-> (truthy place_table || truthy cts_table = true
        /\ names_route lower place_table = false
        /\ names_route lower cts_table = false
        /\ same_table place_table cts_table = false
        /\ model_trained = true))
  /\ (forall e,
        predict_checks lower place_table cts_table model_trained = Some e ->
        Predict.status_code e = 400%Z
        /\ In (raised_at e) [592; 600; 607; 615]%nat).
Proof.
  unfold predict_checks. split.
  - destruct (truthy place_table) eqn:Tp; destruct (truthy cts_table) eqn:Tc;
      destruct (names_route lower place_table) eqn:Rp;
      destruct (names_route lower cts_table) eqn:Rc;
      destruct (same_table place_table cts_table) eqn:S;
      destruct model_trained; simpl;
      (split;
       [intros H; first [discriminate H | repeat split; reflexivity]
       | intros (H1 & H2 & H3 & H4 & H5);
         first [discriminate | reflexivity]]).
  - intros e.
    destruct (truthy place_table) eqn:Tp; destruct (truthy cts_table) eqn:Tc;
      destruct (names_route lower place_table) eqn:Rp;
      destruct (names_route lower cts_table) eqn:Rc;
      destruct (same_table place_table cts_table) eqn:S;
      destruct model_trained; simpl; intros He;
      first [discriminate He
            | injection He as <-; simpl; split; [reflexivity | auto 10]].
Qed.

(** Filtering on the common endpoints keeps the rows of a common endpoint. *)
Lemma rows_with_filter_isin (common : list string) (data : list nrow)
  (e : string) :
  e ∈ common ->
  rows_with e (filter_isin common data) = rows_with e data.
Proof.
  intros He. unfold rows_with, filter_isin.
  induction data as [| r rest IH]; [reflexivity |].
  rewrite (filter_cons (fun r => normalized_endpoint r = e)).
  destruct (decide (normalized_endpoint r = e)) as [Hk | Hk].
  - rewrite filter_cons_True by now rewrite Hk.
    rewrite filter_cons_True by exact Hk. now rewrite IH.
  - destruct (decide (normalized_endpoint r ∈ common)).
    + rewrite filter_cons_True by assumption.
      rewrite filter_cons_False by exact Hk. exact IH.
    + rewrite filter_cons_False by assumption. exact IH.
Qed.

(** The first row of a key after filtering and [drop_duplicates] is the
    first row of the key in the table. *)
Lemma first_row_kept (common : gset string) (data : list nrow) (e : string) :
  e ∈ common ->
  head (rows_with e (drop_duplicates (filter_isin (elements common) data)))
  = head (rows_with e data).
Proof.
  intros He. unfold drop_duplicates.
  rewrite drop_duplicates_from_first by set_solver.
  rewrite rows_with_filter_isin; [reflexivity |].
  now apply elem_of_elements.
Qed.

(** With distinct keys, the rows with a key that occurs are one row, the
    first of the table with that key. *)
Lemma rows_with_one (data : list nrow) (e : string) :
  NoDup (normalized_endpoint <$> data) ->
  e ∈ normalized_endpoint <$> data ->
  exists r, rows_with e data = [r] /\ head (rows_with e data) = Some r.
Proof.
  intros Hnd Hin. pose proof (rows_with_NoDup data e Hnd) as Hlen.
  rewrite decide_True in Hlen by exact Hin.
  destruct (rows_with e data) as [| r [| r' rest]]; try discriminate.
  exists r. split; reflexivity.
Qed.

Lemma bind_singleton_fmap {A B : Type} (f : A -> B) (l : list A) :
  (l ≫= fun r => [f r]) = f <$> l.
Proof.
  induction l as [| r rs IH]; [reflexivity |].
  rewrite bind_cons, fmap_cons, IH. reflexivity.
Qed.

Lemma merge_inner_cons (l : nrow) (left right : list nrow) :
  merge_inner (l :: left) right
  = (((fun r => (l, r)) <$> rows_with (normalized_endpoint l) right)
       ++ merge_inner left right)%list.
Proof.
  unfold merge_inner. rewrite bind_cons.
  now rewrite (bind_singleton_fmap (fun r => (l, r))).
Qed.

(** When every key of the left table occurs once in the right table, the
    merge pairs each left row, in order, with its one partner. *)
Lemma merge_inner_unique (left right : list nrow) :
  NoDup (normalized_endpoint <$> right) ->
  (forall l, l ∈ left ->
     normalized_endpoint l ∈ normalized_endpoint <$> right) ->
  fst <$> merge_inner left right = left
  /\ Forall
       (fun pair =>
          normalized_endpoint pair.1 = normalized_endpoint pair.2
          /\ head (rows_with (normalized_endpoint pair.1) right) = Some pair.2)
       (merge_inner left right).
Proof.
  intros Hnd. induction left as [| l left IH]; intros Hin.
  - split; [reflexivity | constructor].
  - destruct IH as [IH1 IH2].
    { intros l' Hl'. apply Hin. now right. }
    destruct (rows_with_one right (normalized_endpoint l) Hnd) as (r & Er & Hr).
    { apply Hin. now left. }
    rewrite merge_inner_cons, Er. split.
    + rewrite fmap_app, IH1. reflexivity.
    + apply Forall_app. split; [| exact IH2].
      constructor; [| constructor]. simpl. split; [| now rewrite Er].
      assert (Hmem : r ∈ rows_with (normalized_endpoint l) right)
        by (rewrite Er; now left).
      unfold rows_with in Hmem. apply list_elem_of_filter in Hmem as [Hk _].
      now symmetry.
Qed.

(** X9: the alignment of [predict].  When the place and CTS tables share a
    normalized endpoint, the merge has exactly one row per common endpoint,
    in the order of its first occurrence in the place table, and each row
    pairs the first place row and the first CTS row with that endpoint; so
    the "no matching endpoints after merge" error cannot occur.  When they
    share none, the no-common-endpoint error is raised. *)
Theorem predict_align_pairs_first_rows (place_data cts_data : list row) :
  let place := add_normalized_endpoint place_data in
  let cts := add_normalized_endpoint cts_data in
  let common := endpoint_set place ∩ endpoint_set cts in
  predict_align place_data cts_data ≠ inl NoMatchAfterMerge
  /\ (predict_align place_data cts_data = inl Predict.NoCommonEndpoints
      <-> common = ∅)
  /\ forall merged,
       predict_align place_data cts_data = inr merged ->
       length merged = size common
       /\ fst <$> merged
          = drop_duplicates (filter_isin (elements common) place)
       /\ Forall
            (fun pair =>
               normalized_endpoint pair.1 = normalized_endpoint pair.2
               /\ head (rows_with (normalized_endpoint pair.1) place)
                  = Some pair.1
               /\ head (rows_with (normalized_endpoint pair.1) cts)
                  = Some pair.2)
            merged.
Proof.
  intros place cts common.
  set (pf := drop_duplicates (filter_isin (elements common) place)).
  set (cf := drop_duplicates (filter_isin (elements common) cts)).
  assert (Hp : aligned common place pf).
  { apply (align_one_table (fun l => l)); [intros l; reflexivity |].
    unfold common. apply intersection_subseteq_l. }
  assert (Hc : aligned common cts cf).
  { apply (align_one_table (fun l => l)); [intros l; reflexivity |].
    unfold common. apply intersection_subseteq_r. }
  destruct (drop_duplicates_from_keys ∅ (filter_isin (elements common) place))
    as [Hpnd Hpk].
  destruct (drop_duplicates_from_keys ∅ (filter_isin (elements common) cts))
    as [Hcnd Hck].
  fold (drop_duplicates (filter_isin (elements common) place)) in Hpnd, Hpk.
  fold (drop_duplicates (filter_isin (elements common) cts)) in Hcnd, Hck.
  fold pf in Hpnd, Hpk. fold cf in Hcnd, Hck.
  assert (Hpmem : forall e, e ∈ normalized_endpoint <$> pf <-> e ∈ common).
  { intros e. rewrite Hpk, filter_isin_keys, elem_of_elements. split.
    - intros [[_ H] _]. exact H.
    - intros H. split; [split; [| exact H] | apply not_elem_of_empty].
      unfold common in H. apply elem_of_intersection in H as [H _].
      now apply elem_of_list_to_set in H. }
  assert (Hcmem : forall e, e ∈ normalized_endpoint <$> cf <-> e ∈ common).
  { intros e. rewrite Hck, filter_isin_keys, elem_of_elements. split.
    - intros [[_ H] _]. exact H.
    - intros H. split; [split; [| exact H] | apply not_elem_of_empty].
      unfold common in H. apply elem_of_intersection in H as [_ H].
      now apply elem_of_list_to_set in H. }
  destruct (merge_inner_unique pf cf Hcnd) as [Hfst Hpairs].
  { intros l Hl. apply Hcmem, Hpmem. now apply list_elem_of_fmap_2. }
  assert (Hlen : length (merge_inner pf cf) = size common).
  { rewrite <- (length_fmap fst), Hfst. apply Hp. }
  assert (Hrun :
    predict_align place_data cts_data
    = if (length (elements common) =? 0)%nat
      then inl Predict.NoCommonEndpoints
      else inr (merge_inner pf cf)).
  { unfold predict_align. fold place cts. fold common.
    destruct (Nat.eqb_spec (length (elements common)) 0) as [Hz | Hnz];
      [reflexivity |].
    fold pf cf. rewrite Hlen.
    destruct (Nat.eqb_spec (size common) 0) as [Hs | _]; [| reflexivity].
    exfalso. apply Hnz. exact Hs. }
  rewrite Hrun. split; [| split].
  - destruct (length (elements common) =? 0)%nat; discriminate.
  - destruct (Nat.eqb_spec (length (elements common)) 0) as [Hz | Hnz].
    + split; [intros _ | reflexivity].
      apply leibniz_equiv, size_empty_inv. exact Hz.
    + split; [discriminate | intros ->].
      exfalso. apply Hnz. now rewrite elements_empty.
  - intros merged Hm.
    destruct (length (elements common) =? 0)%nat; [discriminate |].
    injection Hm as <-. split; [exact Hlen | split; [exact Hfst |]].
    apply Forall_forall. intros [l r] Hin.
    rewrite Forall_forall in Hpairs. destruct (Hpairs _ Hin) as [Hk Hr].
    simpl in *. split; [exact Hk | split].
    + assert (Hl : l ∈ pf).
      { rewrite <- Hfst. now apply (list_elem_of_fmap_2 fst) in Hin. }
      assert (Hcomm : normalized_endpoint l ∈ common).
      { apply Hpmem. now apply list_elem_of_fmap_2. }
      destruct (rows_with_one pf (normalized_endpoint l) Hpnd) as (l' & El & Hh).
      { now apply list_elem_of_fmap_2. }
      assert (l ∈ rows_with (normalized_endpoint l) pf) as Hl'.
      { unfold rows_with. now apply list_elem_of_filter. }
      rewrite El in Hl'. apply list_elem_of_singleton in Hl'. subst l'.
      rewrite <- Hh. symmetry. now apply first_row_kept.
    + rewrite <- Hr. symmetry. apply first_row_kept.
      assert (Hl : l ∈ pf).
      { rewrite <- Hfst. now apply (list_elem_of_fmap_2 fst) in Hin. }
      apply Hpmem. now apply list_elem_of_fmap_2.
Qed.

End PredictFacts.

(** ** [generate_sql_with_ollama]: what comes back *)

Section Chat2SQLMore.
Import PySeq Chat2SQL Chat2SQLRun.
Local Open Scope string_scope.

Lemma has_char_app (c : ascii) (a b : string) :
  has_char c (a ++ b) <-> has_char c a \/ has_char c b.
Proof.
  unfold has_char. induction a as [| x a IH].
  - rewrite string_app_nil_l. simpl. tauto.
  - rewrite string_app_cons. simpl. rewrite IH. tauto.
Qed.

Lemma remove_backticks_app (a b : string) :
  remove_backticks (a ++ b) = remove_backticks a ++ remove_backticks b.
Proof.
  induction a as [| x a IH]; [reflexivity |].
  rewrite string_app_cons. simpl.
  destruct (Ascii.eqb x "`"); [exact IH |].
  now rewrite string_app_cons, IH.
Qed.

Lemma remove_backticks_has_char (c : ascii) (s : string) :
  has_char c (remove_backticks s) <-> has_char c s /\ c <> "`"%char.
Proof.
  unfold has_char. induction s as [| x s IH]; simpl; [tauto |].
  destruct (Ascii.eqb_spec x "`") as [-> | Hne]; simpl; rewrite IH.
  - split; [tauto |]. intros [[H | H] Hc]; [congruence | tauto].
  - split; [| tauto]. intros [H | H]; [| tauto]. subst x. tauto.
Qed.

Lemma before_semicolon_no_semicolon (s : string) :
  ~ has_char ";" (before_semicolon s).
Proof.
  unfold before_semicolon.
  pose proof (split_parts_no_sep ";" s) as H.
  destruct (split_nonempty ";" s) as (part & parts & E).
  rewrite E in *. now inversion H.
Qed.

(** X10: whatever the query and whatever the API answers,
    [generate_sql_with_ollama] calls the API at most once; what it returns
    is the fixed table-listing SQL or a text that ends with its only [';']
    and holds no backtick; and every exception it raises carries the prefix
    ["Failed to generate SQL query: "]. *)
Theorem generate_sql_with_ollama_result
  (lower : string -> string) (schema : Type) (json_dumps : schema -> string)
  (server : string -> string + http_response) (query : string) (sch : schema) :
  (api_calls server
     (generate_sql_with_ollama lower schema json_dumps query sch) <= 1)%nat
  /\ match
       run server (generate_sql_with_ollama lower schema json_dumps query sch)
     with
     | inr sql_query =>
         sql_query = table_listing_sql
         \/ exists statement,
              sql_query = statement ++ ";"
              /\ ~ has_char ";" statement
              /\ ~ has_char "`" statement
     | inl msg => exists error, msg = failed error
     end.
Proof.
  unfold generate_sql_with_ollama.
  destruct (is_table_listing lower query).
  { split; [simpl; lia | now left]. }
  simpl. destruct (server _) as [error | response].
  { split; [simpl; lia | now exists error]. }
  destruct (negb _).
  { split; [simpl; lia | eexists; reflexivity]. }
  destruct (json_response response) as [error | field].
  { split; [simpl; lia | now exists error]. }
  split; [simpl; lia |]. simpl. right.
  set (cleaned := remove_fences (strip (default "" field))).
  exists (remove_backticks (before_semicolon cleaned)).
  split; [now rewrite remove_backticks_app |].
  pose proof (before_semicolon_no_semicolon cleaned) as Hno.
  split; rewrite remove_backticks_has_char; tauto.
Qed.

End Chat2SQLMore.

(** ** [ConsistentQueryHandler.generate_consistent_sql] and the order of the
    metrics *)

Section ConsistentQueryFacts.
Import PySeq ConsistentQuery.
Local Open Scope string_scope.

(** One step of the loop over the metrics. *)
Lemma select_columns_fold (METRIC_COLUMNS : list (string * list string))
  (metrics : list string) (columns : list string) (col : string) :
  col ∈ foldl
          (fun columns metric =>
             match dict_get METRIC_COLUMNS metric with
             | Some metric_columns =>
                 (columns ++ filter (fun col => col ∉ columns) metric_columns)%list
             | None => columns
             end) columns metrics
  <-> col ∈ columns
      \/ exists metric metric_columns,
           metric ∈ metrics
           /\ dict_get METRIC_COLUMNS metric = Some metric_columns
           /\ col ∈ metric_columns.
Proof.
  revert columns. induction metrics as [| metric metrics IH]; intros columns.
  - simpl. split; [tauto |]. intros [H | (m & cs & Hm & _)]; [exact H |].
    now apply elem_of_nil in Hm.
  - simpl. rewrite IH. destruct (dict_get METRIC_COLUMNS metric) as [cs |] eqn:E.
    + rewrite elem_of_app, list_elem_of_filter. split.
      * intros [[H | [_ H]] | (m & cs' & Hm & Hd & Hc)].
        -- now left.
        -- right. exists metric, cs. split; [left | ]. tauto.
        -- right. exists m, cs'. split; [now right | tauto].
      * intros [H | (m & cs' & Hm & Hd & Hc)]; [tauto |].
        apply elem_of_cons in Hm as [-> | Hm].
        -- rewrite E in Hd. injection Hd as <-.
           destruct (decide (col ∈ columns)); tauto.
        -- right. now exists m, cs'.
    + split.
      * intros [H | (m & cs' & Hm & Hd & Hc)]; [now left |].
        right. exists m, cs'. split; [now right | tauto].
      * intros [H | (m & cs' & Hm & Hd & Hc)]; [now left |].
        apply elem_of_cons in Hm as [-> | Hm]; [congruence |].
        right. now exists m, cs'.
Qed.

Lemma dict_get_cons {V : Type} (k : string) (v : V)
  (rest : list (string * V)) (key : string) :
  dict_get ((k, v) :: rest) key
  = if String.eqb k key then Some v else dict_get rest key.
Proof. reflexivity. Qed.

Lemma METRIC_COLUMNS_keys (metric : string) (metric_columns : list string) :
  dict_get METRIC_COLUMNS metric = Some metric_columns ->
  metric ∈ ["place"; "cts"; "route"]
  /\ NoDup metric_columns
  /\ exists col, col ∈ metric_columns /\ col ∉ ["design"; "stage"].
Proof.
  unfold METRIC_COLUMNS. rewrite !dict_get_cons.
  destruct (String.eqb_spec "place" metric) as [<- | _].
  { intros [= <-]. split; [set_solver |]. split.
    - refine (bool_decide_unpack _ _); vm_compute; exact I.
    - exists "place_setup_WNS". split; [set_solver |].
      refine (bool_decide_unpack _ _); vm_compute; exact I. }
  destruct (String.eqb_spec "cts" metric) as [<- | _].
  { intros [= <-]. split; [set_solver |]. split.
    - refine (bool_decide_unpack _ _); vm_compute; exact I.
    - exists "cts_setup_WNS". split; [set_solver |].
      refine (bool_decide_unpack _ _); vm_compute; exact I. }
  destruct (String.eqb_spec "route" metric) as [<- | _].
  { intros [= <-]. split; [set_solver |]. split.
    - refine (bool_decide_unpack _ _); vm_compute; exact I.
    - exists "route_setup_WNS". split; [set_solver |].
      refine (bool_decide_unpack _ _); vm_compute; exact I. }
  simpl. intros [=].
Qed.

Lemma METRIC_COLUMNS_stage (metric : string) :
  metric ∈ ["place"; "cts"; "route"] ->
  exists metric_columns, dict_get METRIC_COLUMNS metric = Some metric_columns.
Proof.
  intros H. repeat (apply elem_of_cons in H as [-> | H]); [eexists; reflexivity .. |].
  now apply elem_of_nil in H.
Qed.

Lemma select_columns_fold_NoDup (METRIC_COLUMNS : list (string * list string))
  (metrics : list string) (columns : list string) :
  (forall metric metric_columns,
     dict_get METRIC_COLUMNS metric = Some metric_columns ->
     NoDup metric_columns) ->
  NoDup columns ->
  NoDup (foldl
           (fun columns metric =>
              match dict_get METRIC_COLUMNS metric with
              | Some metric_columns =>
                  (columns ++ filter (fun col => col ∉ columns) metric_columns)%list
              | None => columns
              end) columns metrics).
Proof.
  intros Hd. revert columns.
  induction metrics as [| metric metrics IH]; intros columns Hc; [exact Hc |].
  simpl. apply IH.
  destruct (dict_get METRIC_COLUMNS metric) as [cs |] eqn:E; [| exact Hc].
  apply NoDup_app. split; [exact Hc |]. split.
  - intros x Hx Hf. apply list_elem_of_filter in Hf as [Hn _]. exact (Hn Hx).
  - apply NoDup_filter. exact (Hd _ _ E).
Qed.

Lemma select_columns_fold_prefix (METRIC_COLUMNS : list (string * list string))
  (metrics : list string) (columns : list string) :
  exists rest,
    foldl
      (fun columns metric =>
         match dict_get METRIC_COLUMNS metric with
         | Some metric_columns =>
             (columns ++ filter (fun col => col ∉ columns) metric_columns)%list
         | None => columns
         end) columns metrics
    = (columns ++ rest)%list.
Proof.
  revert columns. induction metrics as [| metric metrics IH]; intros columns.
  - exists []. simpl. now rewrite app_nil_r.
  - simpl. destruct (dict_get METRIC_COLUMNS metric) as [cs |].
    + destruct (IH (columns ++ filter (fun col => col ∉ columns) cs)%list)
        as [rest E].
      rewrite E, <- app_assoc. eauto.
    + apply IH.
Qed.

Lemma select_columns_fold_none (METRIC_COLUMNS : list (string * list string))
  (metrics : list string) (columns : list string) :
  (forall metric, metric ∈ metrics -> dict_get METRIC_COLUMNS metric = None) ->
  foldl
    (fun columns metric =>
       match dict_get METRIC_COLUMNS metric with
       | Some metric_columns =>
           (columns ++ filter (fun col => col ∉ columns) metric_columns)%list
       | None => columns
       end) columns metrics
  = columns.
Proof.
  induction metrics as [| metric metrics IH]; intros Hn; [reflexivity |].
  simpl. rewrite (Hn metric) by now left.
  apply IH. intros m Hm. apply Hn. now right.
Qed.

Lemma select_columns_elem (metrics : list string) (col : string) :
  col ∈ select_columns metrics
  <-> col ∈ ["design"; "stage"]
      \/ exists metric metric_columns,
           metric ∈ metrics
           /\ dict_get METRIC_COLUMNS metric = Some metric_columns
           /\ col ∈ metric_columns.
Proof. apply select_columns_fold. Qed.

Lemma select_columns_NoDup (metrics : list string) :
  NoDup (select_columns metrics).
Proof.
  apply select_columns_fold_NoDup.
  - intros metric cs H. now apply METRIC_COLUMNS_keys in H.
  - refine (bool_decide_unpack _ _); vm_compute; exact I.
Qed.

(** The generic query is returned exactly when none of the three stages is
    among the metrics. *)
Lemma sql_of_metrics_generic (metrics : list string) :
  sql_of_metrics metrics = generic_query
  <-> ("place" ∉ metrics) /\ ("cts" ∉ metrics) /\ ("route" ∉ metrics).
Proof.
  assert (Hstage : forall metric,
            metric ∈ ["place"; "cts"; "route"] -> metric ∈ metrics ->
            select_columns metrics <> ["design"; "stage"]).
  { intros metric Hs Hm Hc.
    destruct (METRIC_COLUMNS_stage metric Hs) as [cs Hd].
    destruct (METRIC_COLUMNS_keys metric cs Hd) as (_ & _ & col & Hin & Hout).
    apply Hout. rewrite <- Hc. apply select_columns_elem. right.
    now exists metric, cs. }
  unfold sql_of_metrics. destruct (length metrics =? 0)%nat eqn:L.
  { apply Nat.eqb_eq in L. destruct metrics; [| discriminate L].
    split; [intros _ | reflexivity].
    split; [| split]; apply not_elem_of_nil. }
  case_bool_decide as Hc.
  - split; [intros _ | reflexivity].
    split; [| split]; intros Hm;
      refine (Hstage _ _ Hm Hc); set_solver.
  - split.
    + intros H. exfalso.
      destruct (select_columns_fold_prefix METRIC_COLUMNS metrics
                  ["design"; "stage"]) as [rest E].
      change (select_columns metrics = "design" :: "stage" :: rest) in E.
      rewrite E in H.
      rewrite join_cons_cons in H.
      generalize dependent (stage_condition metrics). intros condition H.
      generalize dependent (", " ++ join ", " ("stage" :: rest)).
      intros tail H. vm_compute in H. discriminate H.
    + intros (Hp & Hct & Hr). exfalso. apply Hc.
      apply select_columns_fold_none. intros metric Hm.
      destruct (dict_get METRIC_COLUMNS metric) as [cs |] eqn:Hd; [| reflexivity].
      apply METRIC_COLUMNS_keys in Hd as (Hs & _). exfalso.
      repeat (apply elem_of_cons in Hs as [-> | Hs]); [tauto .. |].
      now apply elem_of_nil in Hs.
Qed.

(** Two lists with the same metrics give the same columns up to their
    order, the same condition and the same kind of query. *)
Lemma sql_of_metrics_order (metrics1 metrics2 : list string) :
  (forall metric, metric ∈ metrics1 <-> metric ∈ metrics2) ->
  select_columns metrics1 ≡ₚ select_columns metrics2
  /\ stage_condition metrics1 = stage_condition metrics2
  /\ (sql_of_metrics metrics1 = generic_query
      <-> sql_of_metrics metrics2 = generic_query).
Proof.
  intros H. split; [| split].
  - apply NoDup_Permutation; [apply select_columns_NoDup .. |].
    intros col. rewrite !select_columns_elem.
    split; (intros [Hb | (m & cs & Hm & Hd)]; [now left | right]);
      exists m, cs; (split; [apply H, Hm | exact Hd]).
  - unfold stage_condition.
    rewrite (bool_decide_ext _ _ (H "place")),
      (bool_decide_ext _ _ (H "cts")), (bool_decide_ext _ _ (H "route")).
    reflexivity.
  - rewrite !sql_of_metrics_generic.
    rewrite (H "place"), (H "cts"), (H "route"). reflexivity.
Qed.

End ConsistentQueryFacts.

Section ConsistentQueryOrder.
Import PySeq ConsistentQuery.
Local Open Scope string_scope.

Variable lower : string -> string.
Variable split_whitespace : string -> list string.
Variable clean : string -> string.
Variable list_of_set : list string -> list string.
(** [list(s)] lists the elements of the set. *)
Hypothesis list_of_set_elements :
  forall (added : list string) (x : string),
    x ∈ list_of_set added <-> x ∈ added.

(** X11: [generate_consistent_sql] and the order of the terms.  For two
    queries with the same lower-cased words in any order, whatever order the
    interpreter gives the set of found metrics, the queries select the same
    columns up to their order, carry the same condition on the stage, and
    are both the generic [SELECT *] query or both not; the generic query is
    returned exactly when no term names place, cts or route. *)
Theorem generate_consistent_sql_term_order (query1 query2 : string) :
  split_whitespace (lower query1) ≡ₚ split_whitespace (lower query2) ->
  let metrics1 :=
    extract_metrics lower split_whitespace clean list_of_set query1 in
  let metrics2 :=
    extract_metrics lower split_whitespace clean list_of_set query2 in
  select_columns metrics1 ≡ₚ select_columns metrics2
  /\ stage_condition metrics1 = stage_condition metrics2
  /\ (generate_consistent_sql lower split_whitespace clean list_of_set query1
      = generic_query
      <-> generate_consistent_sql lower split_whitespace clean list_of_set
            query2
          = generic_query)
  /\ (generate_consistent_sql lower split_whitespace clean list_of_set query1
      = generic_query
      <-> forall stage,
            stage ∈ ["place"; "cts"; "route"] ->
            stage ∉ found_metrics lower split_whitespace clean query1).
Proof.
  intros Hperm metrics1 metrics2.
  assert (Hfound : found_metrics lower split_whitespace clean query1
                   ≡ₚ found_metrics lower split_whitespace clean query2).
  { unfold found_metrics. now rewrite Hperm. }
  assert (H : forall metric, metric ∈ metrics1 <-> metric ∈ metrics2).
  { intros metric. unfold metrics1, metrics2, extract_metrics.
    rewrite !list_of_set_elements. now rewrite Hfound. }
  destruct (sql_of_metrics_order metrics1 metrics2 H) as (Hc & Hs & Hg).
  split; [exact Hc |]. split; [exact Hs |]. split; [exact Hg |].
  unfold generate_consistent_sql. rewrite sql_of_metrics_generic.
  unfold extract_metrics. rewrite !list_of_set_elements. split.
  - intros (Hp & Hct & Hr) stage Hin.
    repeat (apply elem_of_cons in Hin as [-> | Hin]); [assumption .. |].
    now apply elem_of_nil in Hin.
  - intros Hall. split; [| split]; apply Hall; set_solver.
Qed.

End ConsistentQueryOrder.

Section ConsistentQueryRuns.
Import PySeq ConsistentQuery.
Local Open Scope string_scope.

Lemma generate_consistent_sql_term_order_witness :
  let lower := Chat2SQL.ascii_lower in
  let words := TrainApi.split_ascii_whitespace in
  words (lower "Place CTS") ≡ₚ words (lower "cts place")
  /\ stage_condition
       (extract_metrics lower words clean_ascii remove_dups "Place CTS")
     = stage_condition
         (extract_metrics lower words clean_ascii remove_dups "cts place").
Proof.
  assert (Hperm : TrainApi.split_ascii_whitespace
                    (Chat2SQL.ascii_lower "Place CTS")
                  ≡ₚ TrainApi.split_ascii_whitespace
                       (Chat2SQL.ascii_lower "cts place")).
  { apply perm_swap. }
  split; [exact Hperm |].
  exact (proj1 (proj2
    (generate_consistent_sql_term_order Chat2SQL.ascii_lower
       TrainApi.split_ascii_whitespace clean_ascii remove_dups
       (fun added x => elem_of_remove_dups added x)
       "Place CTS" "cts place" Hperm))).
Defined.

(** With a list order that follows the insertions, the two orders of the
    terms give two different texts: the columns of the first metric come
    first. *)
Example generate_consistent_sql_texts_differ :
  generate_consistent_sql Chat2SQL.ascii_lower TrainApi.split_ascii_whitespace
    clean_ascii remove_dups "show me place and cts results"
  = "SELECT design, stage, place_setup_WNS, place_setup_TNS, place_hold_WNS, place_hold_TNS, cts_setup_WNS, cts_setup_TNS, cts_hold_WNS, cts_hold_TNS FROM qor_metrics WHERE stage IN ('place', 'cts') ORDER BY design, stage LIMIT 100;"
  /\ generate_consistent_sql Chat2SQL.ascii_lower
       TrainApi.split_ascii_whitespace clean_ascii remove_dups
       "show me cts and place results"
     = "SELECT design, stage, cts_setup_WNS, cts_setup_TNS, cts_hold_WNS, cts_hold_TNS, place_setup_WNS, place_setup_TNS, place_hold_WNS, place_hold_TNS FROM qor_metrics WHERE stage IN ('place', 'cts') ORDER BY design, stage LIMIT 100;".
Proof. split; vm_compute; reflexivity. Qed.

End ConsistentQueryRuns.

(** ** Storing the predictions *)

Section StorageFacts.
Import PySeq Storage.
Local Open Scope string_scope.

(** [int(str(n))] is [n]. *)
Lemma py_int_str (n : N) : py_int (py_str_int n) = Some n.
Proof.
  unfold py_int, py_str_int. rewrite NilZero.usu.
  - simpl. now rewrite DecimalN.Unsigned.of_to.
  - destruct n as [| p]; [discriminate |].
    apply DecimalPos.Unsigned.to_uint_nonnil.
Qed.

Lemma string_of_uint_digits (d : Decimal.uint) (c : ascii) :
  has_char c (NilEmpty.string_of_uint d) -> is_digit c = true.
Proof.
  unfold has_char.
  induction d as [| d IH | d IH | d IH | d IH | d IH | d IH | d IH | d IH
                 | d IH | d IH]; simpl;
    [intros [] | intros [<- | H]; [reflexivity | exact (IH H)] ..].
Qed.

Lemma py_str_int_digits (n : N) (c : ascii) :
  has_char c (py_str_int n) -> is_digit c = true.
Proof.
  unfold py_str_int, NilZero.string_of_uint.
  destruct (N.to_uint n) eqn:E; try apply string_of_uint_digits.
  intros [<- | []]. reflexivity.
Qed.

Lemma py_str_int_nonempty (n : N) : py_str_int n <> "".
Proof.
  intros H. pose proof (py_int_str n) as E. rewrite H in E. discriminate E.
Qed.

(** A string of digits is read as a number. *)
Lemma uint_of_string_digits (digits : string) :
  (forall c, has_char c digits -> is_digit c = true) ->
  exists d, NilEmpty.uint_of_string digits = Some d.
Proof.
  induction digits as [| c digits IH]; intros Hd; [now exists Decimal.Nil |].
  destruct IH as [d E].
  { intros c' Hc'. apply Hd. now right. }
  assert (Hc : is_digit c = true) by (apply Hd; now left).
  simpl. rewrite E.
  destruct c as [[] [] [] [] [] [] [] []]; try discriminate Hc;
    simpl; eauto.
Qed.

Lemma py_int_digits (digits : string) :
  digits <> "" ->
  (forall c, has_char c digits -> is_digit c = true) ->
  exists num, py_int digits = Some num.
Proof.
  intros Hne Hd. destruct (uint_of_string_digits digits Hd) as [d E].
  unfold py_int, NilZero.uint_of_string.
  destruct digits; [congruence |]. rewrite E. simpl. eauto.
Qed.

(** The number of a table named [prediction_<digits>]. *)
Lemma table_number_prediction (digits : string) :
  (forall c, has_char c digits -> is_digit c = true) ->
  table_number ("prediction_" ++ digits) = py_int digits.
Proof.
  intros Hd. unfold table_number.
  rewrite !string_app_cons, string_app_nil_l. cbn [split Ascii.eqb Bool.eqb].
  rewrite split_no_sep; [reflexivity |].
  intros H. apply Hd in H. discriminate H.
Qed.

Lemma max_num_bounds (existing_tables : list string) (start : N) :
  let max_num :=
    foldl
      (fun max_num table =>
         match table_number table with
         | Some num => N.max max_num num
         | None => max_num
         end)
      start existing_tables in
  (start <= max_num)%N
  /\ forall table num,
       table ∈ existing_tables -> table_number table = Some num ->
       (num <= max_num)%N.
Proof.
  revert start. induction existing_tables as [| t rest IH]; intros start.
  - simpl. split; [lia |]. intros table num H. now apply elem_of_nil in H.
  - simpl. destruct (table_number t) as [n0 |] eqn:E0.
    + destruct (IH (N.max start n0)) as (Hs & Hall). split; [lia |].
      intros table num Hin Hn. apply elem_of_cons in Hin as [-> | Hin].
      * rewrite E0 in Hn. injection Hn as ->. lia.
      * now apply (Hall table).
    + destruct (IH start) as (Hs & Hall). split; [exact Hs |].
      intros table num Hin Hn. apply elem_of_cons in Hin as [-> | Hin].
      * congruence.
      * now apply (Hall table).
Qed.

(** X12: the name of the next prediction table.  Among tables named
    [prediction_<digits>] (the names the query returns), the new name is of
    the same form, its number is greater than the number of every existing
    table, and it is the name of none of them. *)
Theorem next_prediction_table_fresh (existing_tables : list string) :
  Forall prediction_name existing_tables ->
  let next := next_prediction_table existing_tables in
  (next ∉ existing_tables)
  /\ prediction_name next
  /\ exists next_num,
       table_number next = Some next_num
       /\ forall table,
            table ∈ existing_tables ->
            exists num, table_number table = Some num /\ (num < next_num)%N.
Proof.
  intros Hnames next.
  destruct (max_num_bounds existing_tables 0) as (_ & Hmax).
  unfold next, next_prediction_table in *.
  set (max_num := foldl _ 0%N existing_tables) in *.
  assert (Hnum : table_number ("prediction_" ++ py_str_int (max_num + 1))
                 = Some (max_num + 1)%N).
  { rewrite table_number_prediction by apply py_str_int_digits.
    apply py_int_str. }
  split; [| split].
  - intros Hin. specialize (Hmax _ _ Hin Hnum). lia.
  - exists (py_str_int (max_num + 1)). split; [reflexivity |].
    split; [apply py_str_int_nonempty | apply py_str_int_digits].
  - exists (max_num + 1)%N. split; [exact Hnum |].
    intros table Hin.
    rewrite Forall_forall in Hnames.
    destruct (Hnames table Hin) as (digits & -> & Hne & Hd).
    destruct (py_int_digits digits Hne Hd) as [num E].
    exists num. rewrite table_number_prediction by exact Hd.
    split; [exact E |].
    assert (num <= max_num)%N; [| lia].
    apply (Hmax ("prediction_" ++ digits)); [exact Hin |].
    now rewrite table_number_prediction.
Qed.

Lemma next_prediction_table_fresh_witness :
  Forall prediction_name ["prediction_1"; "prediction_007"; "prediction_12"]
  /\ next_prediction_table ["prediction_1"; "prediction_007"; "prediction_12"]
     ∉ ["prediction_1"; "prediction_007"; "prediction_12"].
Proof.
  assert (H : Forall prediction_name
                ["prediction_1"; "prediction_007"; "prediction_12"]).
  { repeat constructor.
    - exists "1". split; [reflexivity |]. split; [discriminate |].
      intros c [<- | []]. reflexivity.
    - exists "007". split; [reflexivity |]. split; [discriminate |].
      intros c [<- | [<- | [<- | []]]]; reflexivity.
    - exists "12". split; [reflexivity |]. split; [discriminate |].
      intros c [<- | [<- | []]]; reflexivity. }
  split; [exact H |].
  exact (proj1 (next_prediction_table_fresh
                  ["prediction_1"; "prediction_007"; "prediction_12"] H)).
Defined.

Example next_prediction_table_sample :
  next_prediction_table ["prediction_1"; "prediction_007"; "prediction_12"]
  = "prediction_13".
Proof. reflexivity. Qed.

(** Every row of [result_df] lacks the label [fanout]. *)
Lemma insert_params_KeyError (row : route_row) :
  insert_params row = inl "fanout".
Proof. reflexivity. Qed.

Lemma batches_cons (row : route_row) (rest : list route_row) :
  exists more, batches (row :: rest) 100 = (row :: take 99 rest) :: more.
Proof.
  unfold batches, range_step.
  destruct ((length (row :: rest) + 100 - 1) / 100)%nat as [| k] eqn:E.
  - exfalso. apply Nat.div_small_iff in E; [| lia]. simpl in E. lia.
  - eexists. reflexivity.
Qed.

(** X13: a frame of predictions with at least one row is never stored.
    Building the parameters of the first [INSERT] raises [KeyError] for
    ['fanout'], whatever the database answers: no [INSERT] is sent, the
    transaction is not committed and [db_storage_success] stays false; yet,
    once the tables were listed, the message of the response names the new
    table and not 'storage failed'. *)
Theorem store_predictions_never_inserts
  (connect : option string) (select_prediction_tables : string + list string)
  (execute : statement -> option string) (select_count : string -> string + Z)
  (result_df : list route_row) :
  result_df <> [] ->
  let s :=
    store_predictions connect select_prediction_tables execute select_count
      result_df in
  db_storage_success s = false
  /\ committed s = false
  /\ (forall name params, InsertInto name params ∉ sent s)
  /\ forall existing_tables,
       connect = None ->
       select_prediction_tables = inr existing_tables ->
       results_stored_in s = next_prediction_table existing_tables.
Proof.
  intros Hne. destruct result_df as [| row rest]; [congruence |].
  destruct (batches_cons row rest) as [more Hb].
  unfold store_predictions. rewrite Hb.
  assert (Hnamed : forall existing_tables sent committed,
            results_stored_in
              (Stored false (Some (next_prediction_table existing_tables))
                 sent committed)
            = next_prediction_table existing_tables).
  { intros. unfold results_stored_in, next_prediction_table. simpl.
    rewrite !string_app_cons. reflexivity. }
  destruct connect as [error |].
  { simpl. split; [reflexivity |]. split; [reflexivity |].
    split; [intros name params H; now apply elem_of_nil in H |].
    intros existing_tables [=]. }
  destruct select_prediction_tables as [error | existing_tables].
  { simpl. split; [reflexivity |]. split; [reflexivity |].
    split; [| intros ? _ [=]].
    intros name params H. apply elem_of_cons in H as [H | H]; [discriminate H |].
    now apply elem_of_nil in H. }
  assert (Hsent : forall name params,
            InsertInto name params
            ∉ [SelectPredictionTables;
               CreateTable (next_prediction_table existing_tables)]).
  { intros name params H.
    repeat (apply elem_of_cons in H as [H | H]; [discriminate H |]).
    now apply elem_of_nil in H. }
  destruct (execute (CreateTable _)) as [error |].
  { simpl. split; [reflexivity |]. split; [reflexivity |].
    split; [exact Hsent |]. intros ? _ [= <-]. apply Hnamed. }
  simpl. split; [reflexivity |]. split; [reflexivity |].
  split; [exact Hsent |]. intros ? _ [= <-]. apply Hnamed.
Qed.

Lemma store_predictions_never_inserts_witness :
  let row := RouteRow "top/u1/q" "top/u2/reg/D" (-0.52) (-0.48) (-0.5) in
  [row] <> []
  /\ results_stored_in
       (store_predictions None (inr ["prediction_1"; "prediction_2"])
          (fun _ => None) (fun _ => inr 1%Z) [row])
     = "prediction_3".
Proof.
  split; [discriminate |].
  refine (proj2 (proj2 (proj2
    (store_predictions_never_inserts None
       (inr ["prediction_1"; "prediction_2"]) (fun _ => None)
       (fun _ => inr 1%Z)
       [RouteRow "top/u1/q" "top/u2/reg/D" (-0.52) (-0.48) (-0.5)] _)))
    ["prediction_1"; "prediction_2"] eq_refl eq_refl).
  discriminate.
Defined.

(** An empty frame is stored: the new table is created, no row is inserted,
    and the block succeeds when the count of the new table is 0. *)
Lemma store_predictions_empty_frame
  (connect : option string) (select_prediction_tables : string + list string)
  (execute : statement -> option string) (select_count : string -> string + Z) :
  db_storage_success
    (store_predictions connect select_prediction_tables execute select_count [])
  = true
  <-> connect = None
      /\ exists existing_tables,
           select_prediction_tables = inr existing_tables
           /\ execute (CreateTable (next_prediction_table existing_tables))
              = None
           /\ select_count (next_prediction_table existing_tables) = inr 0%Z.
Proof.
  unfold store_predictions.
  destruct connect as [error |].
  { simpl. split; [discriminate | intros [[=] _]]. }
  destruct select_prediction_tables as [error | existing_tables].
  { simpl. split; [discriminate | intros (_ & ? & [=] & _)]. }
  destruct (execute (CreateTable _)) as [error |] eqn:Ec.
  { simpl. split; [discriminate |].
    intros (_ & ? & [= <-] & H & _). congruence. }
  change (batches [] 100) with (@nil (list route_row)). simpl.
  destruct (select_count _) as [error | after_count] eqn:En.
  { simpl. split; [discriminate |].
    intros (_ & ? & [= <-] & _ & H). congruence. }
  change (Z.of_nat 0) with 0%Z.
  destruct (Z.eqb_spec after_count 0) as [-> | Hz]; simpl.
  - split; [| reflexivity]. intros _. split; [reflexivity |].
    exists existing_tables. now rewrite Ec, En.
  - split; [discriminate |].
    intros (_ & ? & [= <-] & _ & H). congruence.
Qed.

End StorageFacts.

(** ** The two GET training routes *)

Section TrainRoutesFacts.
Import PySeq TrainApi TrainRoutes.
Local Open Scope string_scope.

Variable train_result : Type.
Variable train_model : TrainRequest -> string + train_result.

Lemma py_and_truthy (a b : option string) :
  truthy (py_and a b) = truthy a && truthy b.
Proof. unfold py_and. now destruct (truthy a) eqn:E. Qed.

(** X14: [slack_prediction_train] against [api_train].  With the three
    tables given, both routes call [train_model] on the same request.
    With place and CTS given and no route table, [api_train] trains with the
    CTS table as route table, while [slack_prediction_train] answers 400
    with [route_table] as the only missing table.  In every other case
    [slack_prediction_train] answers 400, and its list of missing tables is
    never empty. *)
Theorem slack_prediction_train_needs_route
  (place_table cts_table route_table place cts route : option string) :
  let p := py_or place_table place in
  let c := py_or cts_table cts in
  let r := py_or route_table route in
  let trained (request : TrainRequest) :=
    match train_model request with
    | inr result => (JsonResult result, Trained result)
    | inl e =>
        (Json 500 [("status", "error"); ("message", e)],
         JSONResponse 500 [("status", "error"); ("message", e)])
    end in
  let here :=
    slack_prediction_train train_result train_model
      place_table cts_table route_table place cts route in
  let there :=
    api_train train_result train_model
      place_table cts_table route_table place cts route in
  match truthy p, truthy c, truthy r with
  | true, true, true =>
      exists place_name cts_name route_name,
        p = Some place_name /\ c = Some cts_name /\ r = Some route_name
        /\ place_name <> "" /\ cts_name <> "" /\ route_name <> ""
        /\ (here, there)
           = trained (MkTrainRequest place_name cts_name route_name)
  | true, true, false =>
      exists place_name cts_name,
        p = Some place_name /\ c = Some cts_name
        /\ there = (trained (MkTrainRequest place_name cts_name cts_name)).2
        /\ here = Json 400 (all_three_required ["route_table"])
  | _, _, _ =>
      exists missing,
        here = Json 400 (all_three_required missing)
        /\ missing <> []
        /\ missing = missing_tables p c r
  end.
Proof.
  intros p c r trained here there.
  unfold here, there, slack_prediction_train, api_train.
  fold p c r. rewrite !py_and_truthy.
  destruct (truthy p) eqn:Tp; destruct (truthy c) eqn:Tc;
    destruct (truthy r) eqn:Tr; simpl.
  - destruct (truthy_Some _ Tp) as (pn & Ep & Hp).
    destruct (truthy_Some _ Tc) as (cn & Ec & Hc).
    destruct (truthy_Some _ Tr) as (rn & Er & Hr).
    exists pn, cn, rn. rewrite Ep, Ec, Er.
    repeat (split; [first [reflexivity | assumption] |]).
    unfold trained. now destruct (train_model _).
  - destruct (truthy_Some _ Tp) as (pn & Ep & Hp).
    destruct (truthy_Some _ Tc) as (cn & Ec & Hc).
    exists pn, cn. rewrite Ep, Ec.
    split; [reflexivity |]. split; [reflexivity |]. split.
    + unfold trained. now destruct (train_model _).
    + unfold missing_tables. rewrite <- Ep, <- Ec, Tp, Tc, Tr. reflexivity.
  - eexists. split; [reflexivity |]. split; [| reflexivity].
    unfold missing_tables. rewrite Tp, Tc, Tr. discriminate.
  - eexists. split; [reflexivity |]. split; [| reflexivity].
    unfold missing_tables. rewrite Tp, Tc, Tr. discriminate.
  - eexists. split; [reflexivity |]. split; [| reflexivity].
    unfold missing_tables. rewrite Tp, Tc, Tr. discriminate.
  - eexists. split; [reflexivity |]. split; [| reflexivity].
    unfold missing_tables. rewrite Tp, Tc, Tr. discriminate.
  - eexists. split; [reflexivity |]. split; [| reflexivity].
    unfold missing_tables. rewrite Tp, Tc, Tr. discriminate.
  - eexists. split; [reflexivity |]. split; [| reflexivity].
    unfold missing_tables. rewrite Tp, Tc, Tr. discriminate.
Qed.

End TrainRoutesFacts.

(** ** [generate_synthetic_data]: the shape of the result *)

Section SyntheticShapeFacts.
Import Synthetic SyntheticShape.
Local Open Scope string_scope.

Lemma bind_inr {A B : Type} (m : M A) (k : A -> M B) (w w' : world) (b : B) :
  (m ≫= k) w = (inr b, w') ->
  exists a w1, m w = (inr a, w1) /\ k a w1 = (inr b, w').
Proof.
  unfold mbind, M_bind, bind.
  destruct (m w) as [[e | a] w1]; [discriminate | eauto].
Qed.

Lemma reads_only_ret {A : Type} (a : A) : reads_only (mret a).
Proof. intros w. reflexivity. Qed.

Lemma reads_only_raise {A : Type} (msg : string) : reads_only (@raise A msg).
Proof. intros w. reflexivity. Qed.

Lemma reads_only_bind {A B : Type} (m : M A) (k : A -> M B) :
  reads_only m -> (forall a, reads_only (k a)) -> reads_only (m ≫= k).
Proof.
  intros Hm Hk w. unfold mbind, M_bind, bind.
  specialize (Hm w). destruct (m w) as [[e | a] w1]; simpl in *.
  - exact Hm.
  - now rewrite Hk.
Qed.

Lemma reads_only_df_read (df : ref) : reads_only (df_read df).
Proof. intros w. unfold df_read. now destruct (heap w !! df). Qed.

Lemma reads_only_draw (source : nat -> Q) (size : nat) :
  reads_only (draw source size).
Proof. intros w. reflexivity. Qed.

Create HintDb reads_only discriminated.
#[local] Hint Resolve reads_only_ret reads_only_raise reads_only_df_read
  reads_only_draw : reads_only.

Ltac reads_only_step :=
  lazymatch goal with
  | |- reads_only (_ ≫= _) => apply reads_only_bind; [| intros ?]
  | |- reads_only (if ?b then _ else _) => destruct b
  | |- reads_only (match ?x with _ => _ end) => destruct x
  | |- reads_only _ => solve [eauto with reads_only]
  end.

Lemma reads_only_df_len (df : ref) : reads_only (df_len df).
Proof. unfold df_len. repeat reads_only_step. Qed.

Lemma reads_only_df_has_column (df : ref) (name : string) :
  reads_only (df_has_column df name).
Proof. unfold df_has_column. repeat reads_only_step. Qed.

Lemma reads_only_df_getitem (df : ref) (name : string) :
  reads_only (df_getitem df name).
Proof. unfold df_getitem. repeat reads_only_step. Qed.

Lemma reads_only_column_op (op : Q -> Q -> Q) (c : column) (b : list Q) :
  reads_only (column_op op c b).
Proof. unfold column_op, array_op. repeat reads_only_step. Qed.

Lemma reads_only_np_random_uniform (uniform01 : nat -> Q) (low high : Q)
  (size : nat) :
  reads_only (np_random_uniform uniform01 low high size).
Proof. unfold np_random_uniform. repeat reads_only_step. Qed.

Lemma reads_only_np_random_normal (std_normal : nat -> Q) (loc scale : Q)
  (size : nat) :
  reads_only (np_random_normal std_normal loc scale size).
Proof. unfold np_random_normal. repeat reads_only_step. Qed.

#[local] Hint Resolve reads_only_df_len reads_only_df_has_column
  reads_only_df_getitem reads_only_column_op reads_only_np_random_uniform
  reads_only_np_random_normal : reads_only.

Lemma reads_only_keeps {A : Type} (P : gmap ref frame -> Prop) (m : M A) :
  reads_only m -> keeps P m.
Proof. intros Hm w Hw. now rewrite Hm. Qed.

Lemma keeps_bind {A B : Type} (P : gmap ref frame -> Prop) (m : M A)
  (k : A -> M B) :
  keeps P m -> (forall a, keeps P (k a)) -> keeps P (m ≫= k).
Proof.
  intros Hm Hk w Hw. unfold mbind, M_bind, bind.
  specialize (Hm w Hw). destruct (m w) as [[e | a] w1]; simpl in *.
  - exact Hm.
  - now apply Hk.
Qed.

Lemma keeps_for_each {A : Type} (P : gmap ref frame -> Prop) (xs : list A)
  (body : A -> M unit) :
  (forall x, keeps P (body x)) -> keeps P (for_each xs body).
Proof.
  intros Hbody. induction xs as [| x rest IH]; simpl.
  - apply reads_only_keeps, reads_only_ret.
  - apply keeps_bind; [apply Hbody | intros _; exact IH].
Qed.

Lemma lookup_column_nil (name : string) (n : nat) :
  lookup_column name (Frame n []) = None.
Proof. reflexivity. Qed.

Lemma lookup_column_cons (name k : string) (v : column) (n n' : nat)
  (cols : list (string * column)) :
  lookup_column name (Frame n ((k, v) :: cols))
  = if decide (k = name) then Some v else lookup_column name (Frame n' cols).
Proof.
  unfold lookup_column. simpl. case_decide; [reflexivity |].
  now destruct (list_find _ cols) as [[i [k' v']] |].
Qed.

(** Reading a column after [set_column]. *)
Lemma lookup_set_column (name name' : string) (c : column) (n n' : nat)
  (cols : list (string * column)) :
  lookup_column name' (Frame n (set_column name c cols))
  = if decide (name' = name) then Some c
    else lookup_column name' (Frame n' cols).
Proof.
  induction cols as [| [k v] cols IH]; simpl.
  - rewrite (lookup_column_cons _ _ _ _ n'), !lookup_column_nil.
    repeat case_decide; congruence.
  - destruct (decide (k = name)) as [-> | Hk].
    + rewrite !(lookup_column_cons _ _ _ _ n').
      repeat case_decide; congruence.
    + rewrite (lookup_column_cons _ _ _ n n), IH,
        (lookup_column_cons _ _ _ n' n').
      repeat case_decide; congruence.
Qed.

Lemma df_getitem_run (df : ref) (name : string) (w : world) (f : frame) :
  heap w !! df = Some f ->
  df_getitem df name w
  = match lookup_column name f with
    | Some c => (inr c, w)
    | None => (inl ("KeyError: " ++ name), w)
    end.
Proof.
  intros H. unfold df_getitem, df_read, mbind, M_bind, bind. rewrite H.
  now destruct (lookup_column name f).
Qed.

Lemma df_len_run (df : ref) (w : world) (f : frame) :
  heap w !! df = Some f -> df_len df w = (inr (nrows f), w).
Proof.
  intros H. unfold df_len, df_read, mbind, M_bind, bind. now rewrite H.
Qed.

Lemma df_setitem_run (df : ref) (name : string) (values : list (option Q))
  (w : world) (f : frame) :
  heap w !! df = Some f ->
  (df_setitem df name values w).1 = inr tt ->
  heap (df_setitem df name values w).2
  = <[df := Frame (nrows f) (set_column name (NumCol values) (columns f))]>
      (heap w).
Proof.
  intros H. unfold df_setitem, df_read, df_write, mbind, M_bind, bind.
  rewrite H. destruct (negb _); [discriminate | reflexivity].
Qed.

Lemma df_setitem_raises (df : ref) (name : string) (values : list (option Q))
  (w : world) :
  (df_setitem df name values w).1 <> inr tt ->
  heap (df_setitem df name values w).2 = heap w.
Proof.
  unfold df_setitem, df_read, df_write, mbind, M_bind, bind.
  destruct (heap w !! df) as [f |]; [| reflexivity].
  destruct (negb _); [reflexivity |]. simpl. congruence.
Qed.

(** Writing a numeric column over a numeric column, or the [slack] column,
    keeps the shape. *)
Lemma df_setitem_keeps_shape (df : ref) (f : frame) (name : string)
  (values : list (option Q)) (w : world) (f' : frame) :
  heap w !! df = Some f' ->
  same_shape f f' ->
  name = "slack" \/ (exists old, lookup_column name f' = Some (NumCol old)) ->
  shaped df f (heap w) \/ name = "slack" ->
  (df_setitem df name values w).1 = inr tt ->
  shaped df f (heap (df_setitem df name values w).2).
Proof.
  intros Hf' (Hn & Hobj & Hnames) Hname Hslack Hok.
  rewrite (df_setitem_run df name values w f' Hf' Hok).
  exists (Frame (nrows f') (set_column name (NumCol values) (columns f'))).
  split; [apply lookup_insert_eq |].
  assert (Hlookup : forall name',
            lookup_column name'
              (Frame (nrows f') (set_column name (NumCol values) (columns f')))
            = if decide (name' = name) then Some (NumCol values)
              else lookup_column name' f').
  { intros name'. rewrite (lookup_set_column _ _ _ _ (nrows f')).
    now destruct f'. }
  split; [split; [exact Hn | split] |].
  - intros name' vs Hne Hl. rewrite Hlookup.
    destruct (decide (name' = name)) as [-> | _]; [| now apply Hobj].
    destruct Hname as [-> | [old Hold]]; [congruence |].
    rewrite (Hobj _ _ Hne Hl) in Hold. discriminate Hold.
  - intros name' Hne. rewrite Hlookup.
    destruct (decide (name' = name)) as [-> | _]; [| now apply Hnames].
    destruct Hname as [-> | [old Hold]]; [congruence |].
    rewrite <- (Hnames _ Hne), Hold. split; eauto.
  - rewrite Hlookup. destruct (decide ("slack" = name)); [eauto |].
    destruct Hslack as [(f'' & Hf'' & _ & Hs) | ->]; [| congruence].
    rewrite Hf' in Hf''. now injection Hf'' as <-.
Qed.

(** One round of the loop over the numeric columns keeps the shape. *)
Lemma perturb_column_keeps_shape (std_normal : nat -> Q) (synthetic_data : ref)
  (f : frame) (col : string) :
  keeps (shaped synthetic_data f)
    (n ← df_len synthetic_data;
     variation ← np_random_normal std_normal 1.0 0.05 n;
     series ← df_getitem synthetic_data col;
     scaled ← column_op Qmult series variation;
     df_setitem synthetic_data col scaled).
Proof.
  intros w Hw. pose proof Hw as (f' & Hf' & Hs & Hsl).
  unfold mbind, M_bind, bind. rewrite (df_len_run _ _ _ Hf').
  pose proof (reads_only_np_random_normal std_normal 1.0 0.05 (nrows f') w)
    as R.
  destruct (np_random_normal std_normal 1.0 0.05 (nrows f') w)
    as [[e | variation] w1]; simpl in R; [simpl; now rewrite R |].
  assert (Hf1 : heap w1 !! synthetic_data = Some f') by now rewrite R.
  rewrite (df_getitem_run _ _ _ _ Hf1).
  destruct (lookup_column col f') as [series |] eqn:Ecol;
    [| simpl; now rewrite R].
  destruct series as [old | objects]; simpl; [| now rewrite R].
  unfold array_op. destruct (negb _); simpl; [now rewrite R |].
  set (scaled := zip_with _ old variation).
  destruct (df_setitem synthetic_data col scaled w1) as [[e | []] w2] eqn:Es.
  - pose proof (df_setitem_raises synthetic_data col scaled w1) as Hr.
    rewrite Es in Hr. simpl in *. rewrite Hr, R; [exact Hw | discriminate].
  - pose proof (df_setitem_keeps_shape synthetic_data f col scaled w1 f'
                  Hf1 Hs) as Hk.
    rewrite Es in Hk. simpl in *. apply Hk; [eauto | | reflexivity].
    left. now rewrite R.
Qed.

Lemma perturb_columns_keep_shape (std_normal : nat -> Q)
  (synthetic_data : ref) (f : frame) (numeric_columns : list string) :
  keeps (shaped synthetic_data f)
    (for_each numeric_columns
       (fun col =>
          if bool_decide (col ∈ ["slack"]) then ret tt
          else
            series ← df_getitem synthetic_data col;
            let present :=
              match series with
              | NumCol values => count_present values
              | ObjCol values => length values
              end in
            if (0 <? present)%nat then
              if negb (bool_decide (col ∈ protected_columns)) then
                n ← df_len synthetic_data;
                variation ← np_random_normal std_normal 1.0 0.05 n;
                series ← df_getitem synthetic_data col;
                scaled ← column_op Qmult series variation;
                df_setitem synthetic_data col scaled
              else ret tt
            else ret tt)).
Proof.
  apply keeps_for_each. intros col.
  destruct (bool_decide _); [apply reads_only_keeps, reads_only_ret |].
  apply keeps_bind; [apply reads_only_keeps, reads_only_df_getitem |].
  intros series. cbv zeta.
  destruct (0 <? _)%nat; [| apply reads_only_keeps, reads_only_ret].
  destruct (negb _); [| apply reads_only_keeps, reads_only_ret].
  apply perturb_column_keeps_shape.
Qed.

(** X15: the frame [generate_synthetic_data] returns has the shape of the
    reference frame: as many rows, a [slack] column, and apart from [slack]
    the same column names and the same object columns, so that the
    synthetic table has the endpoints of the reference table. *)
Theorem generate_synthetic_data_same_shape
  (uniform01 std_normal : nat -> Q) (reference_data : ref)
  (data_type : string) (w w' : world) (f : frame) (synthetic_data : ref) :
  heap w !! reference_data = Some f ->
  generate_synthetic_data uniform01 std_normal reference_data data_type w
  = (inr synthetic_data, w') ->
  exists f',
    heap w' !! synthetic_data = Some f'
    /\ nrows f' = nrows f
    /\ is_Some (lookup_column "slack" f')
    /\ (forall name values,
          name <> "slack" ->
          lookup_column name f = Some (ObjCol values) ->
          lookup_column name f' = Some (ObjCol values))
    /\ (forall name,
          name <> "slack" ->
          (is_Some (lookup_column name f') <-> is_Some (lookup_column name f))).
Proof.
  intros Hf Hrun. unfold generate_synthetic_data in Hrun.
  apply bind_inr in Hrun as (copy & w1 & Hcopy & Hrun).
  assert (H1 : heap w1 !! copy = Some f /\ heap w1 !! reference_data = Some f).
  { unfold df_copy_deep, df_read, df_alloc, mbind, M_bind, bind in Hcopy.
    rewrite Hf in Hcopy. injection Hcopy as <- <-. simpl.
    split; [apply lookup_insert_eq |].
    rewrite lookup_insert_ne; [exact Hf |].
    intros E. pose proof (is_fresh (dom (heap w))) as Hfresh.
    rewrite E in Hfresh. apply Hfresh, elem_of_dom. eauto. }
  destruct H1 as (Hc1 & _). cbv zeta in Hrun.
  apply bind_inr in Hrun as (num_rows & w2 & Hlen & Hrun).
  pose proof (reads_only_df_len reference_data w1) as R2.
  rewrite Hlen in R2. simpl in R2.
  apply bind_inr in Hrun as (synthetic_slacks & w3 & Hslacks & Hrun).
  assert (R3 : heap w3 = heap w2).
  { destruct (String.eqb data_type "place");
      match type of Hslacks with
      | ?m w2 = _ =>
          assert (R : reads_only m) by repeat reads_only_step;
          specialize (R w2); rewrite Hslacks in R; exact R
      end. }
  assert (Hc3 : heap w3 !! copy = Some f) by now rewrite R3, R2.
  apply bind_inr in Hrun as ([] & w4 & Hset & Hrun).
  assert (H4 : shaped copy f (heap w4)).
  { pose proof (df_setitem_keeps_shape copy f "slack" synthetic_slacks w3 f
                  Hc3) as Hk.
    rewrite Hset in Hk. apply Hk; [| now left | now right | reflexivity].
    split; [reflexivity |]. split; [tauto | tauto]. }
  apply bind_inr in Hrun as (f4 & w5 & Hread & Hrun).
  pose proof (reads_only_df_read copy w4) as R5.
  rewrite Hread in R5. simpl in R5.
  apply bind_inr in Hrun as ([] & w6 & Hloop & Hrun).
  pose proof (perturb_columns_keep_shape std_normal copy f
                (numeric_columns_of f4) w5) as H6.
  cbv zeta in H6. rewrite Hloop, R5 in H6. specialize (H6 H4).
  injection Hrun as <- <-.
  destruct H6 as (f' & Hf' & (Hn & Hobj & Hnames) & Hslack).
  exists f'. auto.
Qed.

Lemma generate_synthetic_data_same_shape_witness :
  exists f',
    heap (generate_synthetic_data sample_uniform sample_normal 0%nat "cts"
            sample_world).2 !! 1%nat = Some f'
    /\ nrows f' = 2%nat.
Proof.
  destruct (generate_synthetic_data_same_shape sample_uniform sample_normal
              0%nat "cts" sample_world
              (generate_synthetic_data sample_uniform sample_normal 0%nat
                 "cts" sample_world).2
              sample_frame 1%nat eq_refl eq_refl)
    as (f' & Hf' & Hn & _).
  exists f'. split; [exact Hf' | exact Hn].
Defined.

End SyntheticShapeFacts.

(** ** The slack values reported by [predict] *)

Section ReportedFacts.
Import Prediction Train Reported.
Local Open Scope string_scope.

(** The dict holds, for an endpoint, the slack of the last row that has
    it. *)
Lemma original_slacks_lookup (data : list row) (e : string) :
  original_slacks data !! e
  = slack <$> last (filter (fun r => endpoint r = PStr e) data).
Proof.
  unfold original_slacks.
  induction data as [| r data IH] using rev_ind; [reflexivity |].
  rewrite foldl_app, filter_app. simpl.
  destruct (endpoint r) as [e' | obj] eqn:Er.
  - destruct (decide (e' = e)) as [-> | Hne].
    + rewrite lookup_insert_eq.
      rewrite (filter_cons_True _ r) by exact Er.
      now rewrite filter_nil, last_snoc.
    + rewrite lookup_insert_ne by exact Hne.
      rewrite (filter_cons_False _ r) by congruence.
      now rewrite filter_nil, app_nil_r.
  - rewrite (filter_cons_False _ r) by congruence.
    now rewrite filter_nil, app_nil_r.
Qed.

Lemma last_filter_elem {A : Type} (P : A -> Prop) `{!forall x, Decision (P x)}
  (l : list A) (x : A) :
  x ∈ l -> P x ->
  exists y, last (filter P l) = Some y /\ y ∈ l /\ P y.
Proof.
  intros Hin HP.
  assert (Hx : x ∈ filter P l) by now apply list_elem_of_filter.
  destruct (last (filter P l)) as [y |] eqn:E.
  - exists y. split; [reflexivity |].
    apply last_Some in E as [front E].
    assert (Hy : y ∈ filter P l) by (rewrite E; set_solver).
    apply list_elem_of_filter in Hy. tauto.
  - apply last_None in E. rewrite E in Hx. now apply elem_of_nil in Hx.
Qed.

(** The same by normalized endpoint. *)
Lemma original_slacks_normalized_lookup (data : list row) (key : string) :
  original_slacks_normalized data !! key
  = slack <$> last (filter (fun r => normalize_endpoint (endpoint r) = key)
                      data).
Proof.
  unfold original_slacks_normalized.
  induction data as [| r data IH] using rev_ind; [reflexivity |].
  rewrite foldl_app, filter_app. simpl.
  destruct (decide (normalize_endpoint (endpoint r) = key)) as [<- | Hne].
  - rewrite lookup_insert_eq.
    rewrite (filter_cons_True _ r) by reflexivity.
    now rewrite filter_nil, last_snoc.
  - rewrite lookup_insert_ne by exact Hne.
    rewrite (filter_cons_False _ r) by exact Hne.
    now rewrite filter_nil, app_nil_r.
Qed.

(** X16: the place and CTS slacks that [predict] reports for a row of the
    merge of two real tables, whose place row [p] has a string for
    endpoint.  Both are looked up under the endpoint of the place row.  The
    place slack is the slack of the last row of the fetched place table
    with that endpoint, not the slack of [p] itself; the two agree when the
    rows with that endpoint have one slack.  The CTS slack is the slack of
    the last row of the fetched CTS table whose endpoint is the endpoint of
    the place row, when there is one, and otherwise the slack of the last
    row of the fetched CTS table with the normalized endpoint of the merge;
    the CTS row [c] of the merge is one of the rows with that normalized
    endpoint, not always the last one. *)
Theorem reported_slack_last_row (place_data cts_data : list row)
  (p c : row) (e : string) :
  p ∈ place_data ->
  c ∈ cts_data ->
  endpoint p = PStr e ->
  normalize_endpoint (endpoint c) = normalize_endpoint (endpoint p) ->
  let key := normalize_endpoint (endpoint p) in
  let merged := (NRow p key, NRow c key) in
  let with_endpoint (data : list row) :=
    filter (fun r => endpoint r = PStr e) data in
  let with_key (data : list row) :=
    filter (fun r => normalize_endpoint (endpoint r) = key) data in
  (exists r,
     last (with_endpoint place_data) = Some r
     /\ place_slack_val true place_data merged = slack r)
  /\ ((forall r, r ∈ place_data -> endpoint r = PStr e -> slack r = slack p) ->
      place_slack_val true place_data merged = slack p)
  /\ (exists r,
        match last (with_endpoint cts_data) with
        | Some r' => r = r'
        | None => last (with_key cts_data) = Some r
        end
        /\ r ∈ cts_data
        /\ cts_slack_val true cts_data merged = slack r).
Proof.
  intros Hp Hc He Hkey key merged with_endpoint with_key.
  assert (Hlen : forall (data : list row) (r : row),
            r ∈ data -> (0 <? length data)%nat = true).
  { intros data r Hr. apply Nat.ltb_lt.
    destruct data; [now apply elem_of_nil in Hr | simpl; lia]. }
  destruct (last_filter_elem (fun r => endpoint r = PStr e) place_data p Hp He)
    as (r & Hlast & Hr & Hre).
  assert (Hplace : place_slack_val true place_data merged = slack r).
  { unfold place_slack_val, reported_slack, merged_endpoint,
      merged_normalized_endpoint, merged.
    rewrite (Hlen _ _ Hp). simpl. rewrite He. simpl.
    rewrite original_slacks_lookup, Hlast. simpl. reflexivity. }
  split; [exists r; auto |].
  split; [intros Hsame; rewrite Hplace; now apply Hsame |].
  destruct (last_filter_elem
              (fun r => normalize_endpoint (endpoint r) = key) cts_data c Hc
              Hkey)
    as (rk & Hklast & Hrk & _).
  unfold cts_slack_val, reported_slack, merged_endpoint,
    merged_normalized_endpoint, merged.
  rewrite (Hlen _ _ Hc). simpl. rewrite He. simpl.
  rewrite original_slacks_lookup, original_slacks_normalized_lookup.
  unfold with_key. rewrite Hklast.
  destruct (last (with_endpoint cts_data)) as [re |] eqn:Ee;
    unfold with_endpoint in Ee; rewrite Ee; simpl.
  - exists re. split; [reflexivity |]. split; [| reflexivity].
    apply last_Some in Ee as [front Ee].
    assert (Hin : re ∈ filter (fun r => endpoint r = PStr e) cts_data)
      by (rewrite Ee; set_solver).
    apply list_elem_of_filter in Hin. tauto.
  - exists rk. auto.
Qed.

Lemma reported_slack_last_row_witness :
  let merged :=
    (NRow (Row (PStr "top/u1/reg/D") (Some (-0.52)%Q) []) "reg/D",
     NRow (Row (PStr "u1/reg/D") (Some (-0.61)%Q) []) "reg/D") in
  Some (place_slack_val true sample_repeated merged) = Some (Some (-0.40)%Q)
  /\ Some (cts_slack_val true sample_cts_fetched merged)
     = Some (Some (-0.3)%Q).
Proof.
  intros merged.
  destruct (reported_slack_last_row sample_repeated sample_cts_fetched
              (Row (PStr "top/u1/reg/D") (Some (-0.52)%Q) [])
              (Row (PStr "u1/reg/D") (Some (-0.61)%Q) [])
              "top/u1/reg/D")
    as ((r & Hlast & Hplace) & _ & (r' & Hlast' & _ & Hcts)).
  - apply list_elem_of_here.
  - apply list_elem_of_here.
  - reflexivity.
  - reflexivity.
  - change (Some (Row (PStr "top/u1/reg/D") (Some (-0.40)%Q) []) = Some r)
      in Hlast.
    change (r' = Row (PStr "top/u1/reg/D") (Some (-0.3)%Q) []) in Hlast'.
    injection Hlast as <-. subst r'.
    split; [exact (f_equal Some Hplace) | exact (f_equal Some Hcts)].
Defined.

(** The two sample tables through the alignment and the report: the merge
    pairs the first place row with the first CTS row, whose slacks are
    [-0.52] and [-0.61], and the values reported for it are [-0.40] and
    [-0.3]. *)
Example reported_slack_run :
  match Predict.predict_align sample_repeated sample_cts_fetched with
  | inr [merged] =>
      slack (base merged.1) = Some (-0.52)%Q
      /\ slack (base merged.2) = Some (-0.61)%Q
      /\ place_slack_val true sample_repeated merged = Some (-0.40)%Q
      /\ cts_slack_val true sample_cts_fetched merged = Some (-0.3)%Q
  | _ => False
  end.
Proof. vm_compute. repeat split. Qed.

End ReportedFacts.

(** ** The connection is closed, or not *)

Section ConnectionsFacts.
Import Retry RetryCount Connections.
Local Open Scope string_scope.

Context {conn rows table column : Type}.
Variable connect : nat -> string + conn.
Variable fetch : conn -> string -> string + rows.
Variable list_tables : conn -> string + list table.
Variable table_columns : conn -> table -> string + list column.

Lemma count_attempts (t : list event) :
  opens (Attempt <$> t) = 0%nat
  /\ closes (Attempt <$> t) = 0%nat
  /\ attempts (Attempt <$> t) = connects t.
Proof.
  unfold opens, closes, attempts, connects.
  induction t as [| e t (IHo & IHc & IHa)]; [repeat split |].
  rewrite fmap_cons.
  rewrite (filter_cons_False (fun e => e = Opened)) by discriminate.
  rewrite (filter_cons_False (fun e => e = Closed)) by discriminate.
  split; [exact IHo |]. split; [exact IHc |].
  destruct e as [| seconds].
  - rewrite !filter_cons_True by reflexivity. simpl. now rewrite IHa.
  - rewrite (filter_cons_False (fun e => e = Attempt EvConnect))
      by discriminate.
    rewrite (filter_cons_False (fun e => is_connect e = true))
      by discriminate.
    exact IHa.
Qed.

Lemma count_app (t1 t2 : list db_event) :
  opens (t1 ++ t2) = (opens t1 + opens t2)%nat
  /\ closes (t1 ++ t2) = (closes t1 + closes t2)%nat
  /\ attempts (t1 ++ t2) = (attempts t1 + attempts t2)%nat.
Proof.
  unfold opens, closes, attempts.
  now rewrite !filter_app, !length_app.
Qed.

(** X17: [execute_sql] and its connection.  Whatever the database does,
    the call makes at most three connection attempts, obtains at most one
    connection and closes every connection it obtained, also when the query
    fails; a returned frame comes from a connection that was closed; and
    every exception carries the prefix ["Failed to execute query: "]. *)
Theorem execute_sql_closes_connection (query : string) :
  let run := execute_sql connect fetch query in
  opens run.2 = closes run.2
  /\ (opens run.2 <= 1)%nat
  /\ (attempts run.2 <= 3)%nat
  /\ (forall results, run.1 = inr results -> closes run.2 = 1%nat)
  /\ (forall msg, run.1 = inl msg -> exists e, msg = failed e).
Proof.
  intros run. subst run. unfold execute_sql.
  destruct (retry_loop_bounded connect 3 2 3 initial_state)
    as (added & Ht & Hc & _); [simpl; lia |].
  unfold get_connection_with_retry_default, get_connection_with_retry.
  destruct (retry_loop connect 3 2 initial_state) as [got retried].
  simpl in Ht, Hc. subst retried.
  destruct (count_attempts added) as (Ho & Hcl & Ha).
  destruct (count_app (Attempt <$> added) [Opened; Closed]) as (Ho' & Hcl' & Ha').
  change (opens [Opened; Closed]) with 1%nat in Ho'.
  change (closes [Opened; Closed]) with 1%nat in Hcl'.
  change (attempts [Opened; Closed]) with 0%nat in Ha'.
  destruct got as [c | e | |]; simpl.
  - destruct (fetch c query) as [e | results]; simpl;
      rewrite Ho', Hcl', Ha', Ho, Hcl, Ha;
      (split; [reflexivity |]); (split; [lia |]); (split; [lia |]);
      (split; [reflexivity || discriminate |]).
    + intros msg [= <-]. eauto.
    + discriminate.
  - rewrite Ho, Hcl, Ha. split; [reflexivity |]. split; [lia |].
    split; [lia |]. split; [discriminate |]. intros msg [= <-]. eauto.
  - rewrite Ho, Hcl, Ha. split; [reflexivity |]. split; [lia |].
    split; [lia |]. split; [discriminate |]. intros msg [= <-]. eauto.
  - rewrite Ho, Hcl, Ha. split; [reflexivity |]. split; [lia |].
    split; [lia |]. split; [discriminate |]. intros msg [= <-]. eauto.
Qed.

Lemma with_columns_fails (c : conn) (tables : list table) :
  (exists e, with_columns table_columns c tables = inl e)
  <-> exists t e, t ∈ tables /\ table_columns c t = inl e.
Proof.
  induction tables as [| t rest IH]; simpl.
  - split; [intros [e [=]] | intros (t & e & H & _)].
    now apply elem_of_nil in H.
  - destruct (table_columns c t) as [e | columns] eqn:Et.
    + split; [intros _ | eauto]. exists t, e. split; [left | exact Et].
    + destruct (with_columns table_columns c rest) as [e | described].
      * split; [intros _ | eauto].
        destruct (proj1 IH) as (t' & e' & Hin & Ht'); [eauto |].
        exists t', e'. split; [now right | exact Ht'].
      * split; [intros [e [=]] |].
        intros (t' & e' & Hin & Ht').
        apply elem_of_cons in Hin as [-> | Hin]; [congruence |].
        destruct (proj2 IH) as [e'' [=]]. eauto.
Qed.

(** X18: [get_database_schema] and its connection.  The call never raises,
    and it closes its connection only at the end of a run without
    exception: once connected, the connection is left open exactly when
    the query for the tables or the query for the columns of one of the
    tables raises, and the schema returned then is empty. *)
Theorem get_database_schema_leaves_connection_open (c : conn) :
  connect 0%nat = inr c ->
  let run := get_database_schema connect list_tables table_columns in
  opens run.2 = 1%nat
  /\ (closes run.2 = 0%nat
      <-> (exists e, list_tables c = inl e)
          \/ exists tables t e,
               list_tables c = inr tables
               /\ t ∈ tables /\ table_columns c t = inl e)
  /\ (closes run.2 = 0%nat -> run.1 = []).
Proof.
  intros Hc run. subst run. unfold get_database_schema. rewrite Hc.
  destruct (list_tables c) as [e | tables] eqn:El.
  { simpl. split; [reflexivity |]. split; [| reflexivity].
    split; [eauto | reflexivity]. }
  pose proof (with_columns_fails c tables) as Hw.
  destruct (with_columns table_columns c tables) as [e | described].
  - simpl. split; [reflexivity |]. split; [| reflexivity].
    split; [| reflexivity]. intros _. right.
    destruct (proj1 Hw) as (t & e' & Hin & Ht); [eauto |].
    exists tables, t, e'. auto.
  - simpl. split; [reflexivity |]. split; [| discriminate].
    split; [discriminate |].
    intros [[e [=]] | (tables' & t & e & [= <-] & Hin & Ht)].
    destruct (proj2 Hw) as [e' [=]]. eauto.
Qed.

End ConnectionsFacts.

Section ConnectionsRuns.
Import Retry Connections.
Local Open Scope string_scope.

Lemma get_database_schema_leaves_connection_open_witness :
  let run :=
    get_database_schema (conn := nat) (table := string) (column := string)
      (fun _ => inr 7%nat)
      (fun _ => inr ["users"; "orders"])
      (fun _ t => if String.eqb t "orders" then inl "timeout" else inr ["id"])
  in
  opens run.2 = 1%nat /\ closes run.2 = 0%nat /\ run.1 = [].
Proof.
  destruct (get_database_schema_leaves_connection_open
              (conn := nat) (table := string) (column := string)
              (fun _ => inr 7%nat)
              (fun _ => inr ["users"; "orders"])
              (fun _ t => if String.eqb t "orders" then inl "timeout"
                          else inr ["id"])
              7%nat eq_refl)
    as (Ho & Hc & He).
  split; [exact Ho |].
  assert (H0 : closes
                 (get_database_schema (conn := nat) (table := string)
                    (column := string)
                    (fun _ => inr 7%nat)
                    (fun _ => inr ["users"; "orders"])
                    (fun _ t => if String.eqb t "orders" then inl "timeout"
                                else inr ["id"])).2
               = 0%nat).
  { apply Hc. right. exists ["users"; "orders"], "orders", "timeout".
    split; [reflexivity |]. split; [set_solver | reflexivity]. }
  split; [exact H0 | exact (He H0)].
Defined.

End ConnectionsRuns.

(** ** The table groups of [get_available_tables] *)

Section AvailableTablesFacts.
Import PySeq AvailableTables.
Local Open Scope string_scope.

(** Joining two non-empty lists of parts. *)
Lemma join_app (sep : string) (front back : list string) :
  front <> [] -> back <> [] ->
  join sep (front ++ back) = join sep front ++ sep ++ join sep back.
Proof.
  intros Hf Hb. induction front as [| x front IH]; [congruence |].
  destruct front as [| y front].
  - destruct back as [| z back]; [congruence |]. reflexivity.
  - change (join sep ((x :: y :: front) ++ back))
      with (x ++ sep ++ join sep ((y :: front) ++ back)).
    rewrite IH by discriminate.
    rewrite join_cons_cons, !string_app_assoc. reflexivity.
Qed.

(** A prefix and a suffix of the parts of a name give the name back. *)
Lemma prefix_suffix_name (name : string) (i : nat) :
  (1 <= i < length (split "_" name))%nat ->
  join "_" (take i (split "_" name)) ++ "_" ++ join "_" (drop i (split "_" name))
  = name.
Proof.
  intros Hi. rewrite <- join_app.
  - rewrite take_drop. apply join_split.
  - intros E. apply (f_equal length) in E. rewrite length_take in E.
    simpl in E. lia.
  - intros E. apply (f_equal length) in E. rewrite length_drop in E.
    simpl in E. lia.
Qed.

(** What a group holds after [group_append]. *)
Lemma group_append_elem (prefix : string) (entry : group_entry)
  (table_groups : groups) (key : string) (entries : list group_entry)
  (e : group_entry) :
  (key, entries) ∈ group_append prefix entry table_groups -> e ∈ entries ->
  (key = prefix /\ e = entry)
  \/ exists entries', (key, entries') ∈ table_groups /\ e ∈ entries'.
Proof.
  induction table_groups as [| [k es] rest IH]; simpl; intros Hin He.
  - apply list_elem_of_singleton in Hin. injection Hin as -> ->.
    apply list_elem_of_singleton in He. now left.
  - destruct (String.eqb_spec k prefix) as [-> | Hne].
    + apply elem_of_cons in Hin as [Hin | Hin].
      * injection Hin as -> ->. apply elem_of_app in He as [He | He].
        -- right. exists es. split; [left | exact He].
        -- apply list_elem_of_singleton in He. now left.
      * right. exists entries. split; [now right | exact He].
    + apply elem_of_cons in Hin as [Hin | Hin].
      * injection Hin as -> ->. right. exists es. split; [left | exact He].
      * destruct (IH Hin He) as [H | (es' & Hin' & He')]; [now left |].
        right. exists es'. split; [now right | exact He'].
Qed.

(** The entries of the groups name suitable tables, cut after their
    prefix. *)
Lemma group_tables_sound (tables : list table_info) (key : string)
  (entries : list group_entry) (e : group_entry) :
  (key, entries) ∈ group_tables tables -> e ∈ entries ->
  entry_table_name e = key ++ "_" ++ suffix e
  /\ exists t,
       t ∈ tables /\ suitable_for_training t = true
       /\ table_name t = entry_table_name e
       /\ row_count t = entry_row_count e.
Proof.
  unfold group_tables.
  set (sound := fun (g : groups) =>
         forall key entries e,
           (key, entries) ∈ g -> e ∈ entries ->
           entry_table_name e = key ++ "_" ++ suffix e
           /\ exists t,
                t ∈ tables /\ suitable_for_training t = true
                /\ table_name t = entry_table_name e
                /\ row_count t = entry_row_count e).
  assert (Hfold : forall (todo : list table_info) (g : groups),
            (forall t, t ∈ todo ->
                       t ∈ tables /\ suitable_for_training t = true) ->
            sound g -> sound (foldl group_table g todo)).
  { induction todo as [| t todo IH]; intros g Htodo Hg; [exact Hg |].
    simpl. apply IH; [intros t' Ht'; apply Htodo; now right |].
    destruct (Htodo t) as (Ht & Hs); [now left |].
    unfold group_table.
    destruct (2 <=? length (split "_" (table_name t)))%nat; [| exact Hg].
    assert (Hsteps : forall (steps : list nat) (g : groups),
              (forall i, i ∈ steps ->
                         (1 <= i < length (split "_" (table_name t)))%nat) ->
              sound g ->
              sound
                (foldl
                   (fun table_groups i =>
                      group_append
                        (join "_" (take i (split "_" (table_name t))))
                        (GroupEntry (table_name t)
                           (join "_" (drop i (split "_" (table_name t))))
                           (row_count t))
                        table_groups)
                   g steps)).
    { induction steps as [| i steps IHs]; intros g' Hsteps Hg';
        [exact Hg' |].
      simpl. apply IHs; [intros j Hj; apply Hsteps; now right |].
      intros k es e' Hin He'.
      destruct (group_append_elem _ _ _ _ _ _ Hin He')
        as [[-> ->] | (es' & Hin' & He'')]; [| now apply (Hg' k es')].
      simpl. split.
      - symmetry. apply prefix_suffix_name. apply Hsteps. now left.
      - exists t. auto. }
    apply Hsteps; [| exact Hg].
    intros i Hi. apply elem_of_seq in Hi. lia. }
  apply Hfold.
  - intros t Ht. apply list_elem_of_filter in Ht. tauto.
  - intros k es e' Hin. now apply elem_of_nil in Hin.
Qed.

(** X19: the complete training sets of [get_available_tables].  Each of
    the three tables of a set is a table that is suitable for training, its
    name is the group name, ['_'] and a suffix, and the lower-cased suffix
    contains the keyword of its role ([place], [cts], [route]). *)
Theorem complete_training_sets_sound (lower : string -> string)
  (tables : list table_info) (s : training_set) :
  s ∈ complete_training_sets lower (group_tables tables) ->
  forall keyword name,
    (keyword, name)
    ∈ [("place", place_table s); ("cts", cts_table s);
       ("route", route_table s)] ->
    exists t rest,
      t ∈ tables
      /\ suitable_for_training t = true
      /\ table_name t = name
      /\ name = group_name s ++ "_" ++ rest
      /\ contains keyword (lower rest) = true.
Proof.
  intros Hs keyword name Hrole.
  unfold complete_training_sets in Hs.
  apply list_elem_of_omap in Hs as ([prefix entries] & Hin & Hsome).
  assert (Hentry : forall keyword e others,
            with_keyword lower keyword entries = e :: others ->
            exists t,
              t ∈ tables /\ suitable_for_training t = true
              /\ table_name t = entry_table_name e
              /\ entry_table_name e = prefix ++ "_" ++ suffix e
              /\ contains keyword (lower (suffix e)) = true).
  { intros kw e others E.
    assert (He : e ∈ with_keyword lower kw entries) by (rewrite E; now left).
    apply list_elem_of_filter in He as (Hk & He).
    destruct (group_tables_sound tables prefix entries e Hin He)
      as (Hname & t & Ht & Hsuit & Htn & _).
    exists t. auto. }
  destruct (with_keyword lower "place" entries) as [| place ?] eqn:Ep;
    [discriminate |].
  destruct (with_keyword lower "cts" entries) as [| cts ?] eqn:Ec;
    [discriminate |].
  destruct (with_keyword lower "route" entries) as [| route ?] eqn:Er;
    [discriminate |].
  injection Hsome as <-. simpl in Hrole.
  repeat (apply elem_of_cons in Hrole as [[= -> ->] | Hrole]);
    [| | | now apply elem_of_nil in Hrole].
  - destruct (Hentry _ _ _ Ep) as (t & ? & ? & ? & ? & ?).
    exists t, (suffix place). auto.
  - destruct (Hentry _ _ _ Ec) as (t & ? & ? & ? & ? & ?).
    exists t, (suffix cts). auto.
  - destruct (Hentry _ _ _ Er) as (t & ? & ? & ? & ? & ?).
    exists t, (suffix route). auto.
Qed.

Lemma complete_training_sets_sound_witness :
  let tables :=
    [TableInfo "ariane_place_csv" 120 true;
     TableInfo "ariane_cts_csv" 118 true;
     TableInfo "notes" 3 false;
     TableInfo "ariane_route_csv" 118 true] in
  exists t rest,
    t ∈ tables
    /\ table_name t = "ariane_cts_csv"
    /\ "ariane_cts_csv" = "ariane" ++ "_" ++ rest.
Proof.
  intros tables.
  destruct (complete_training_sets_sound Chat2SQL.ascii_lower tables
              (TrainingSet "ariane" "ariane_place_csv" "ariane_cts_csv"
                 "ariane_route_csv" (120, 118, 118)%Z))
    with (keyword := "cts") (name := "ariane_cts_csv")
    as (t & rest & Ht & _ & Hn & Hname & _).
  - vm_compute. apply list_elem_of_here.
  - simpl. apply list_elem_of_further, list_elem_of_here.
  - exists t, rest. auto.
Defined.

(** One table can fill the three roles of a set. *)
Example complete_training_set_one_table :
  complete_training_sets Chat2SQL.ascii_lower
    (group_tables [TableInfo "run_place_cts_route" 10 true])
  = [TrainingSet "run" "run_place_cts_route" "run_place_cts_route"
       "run_place_cts_route" (10, 10, 10)%Z].
Proof. vm_compute. reflexivity. Qed.

End AvailableTablesFacts.

(** ** [process_natural_language_query] and the order of the metrics *)

Section ProcessQueryFacts.
Import PySeq ConsistentQuery ProcessQuery.
Local Open Scope string_scope.

Variable lower : string -> string.
Variable split_whitespace : string -> list string.
Variable clean : string -> string.
(** Two orders in which [list(s)] may enumerate a set. *)
Variable list_of_set1 list_of_set2 : list string -> list string.
Hypothesis list_of_set1_elements :
  forall (added : list string) (x : string),
    x ∈ list_of_set1 added <-> x ∈ added.
Hypothesis list_of_set2_elements :
  forall (added : list string) (x : string),
    x ∈ list_of_set2 added <-> x ∈ added.

(** X20: for a query typed as SQL ([select ...]) and for a query of type
    [prediction], the text that [process_natural_language_query] returns
    does not depend on the order in which the interpreter enumerates the
    set of found metrics; for the other queries it is the text of
    [generate_consistent_sql], whose columns follow that order. *)
Theorem process_natural_language_query_prediction_text (query_text : string) :
  String.prefix "select " (lower (Chat2SQL.strip query_text)) = true
  \/ get_query_type lower query_text = "prediction" ->
  process_natural_language_query lower split_whitespace clean list_of_set1
    query_text
  = process_natural_language_query lower split_whitespace clean list_of_set2
      query_text.
Proof.
  intros H. unfold process_natural_language_query.
  destruct (String.prefix "select " (lower (Chat2SQL.strip query_text)));
    [reflexivity |].
  destruct H as [H | H]; [discriminate H |]. rewrite H.
  change ("prediction" =? "prediction") with true. cbv zeta iota beta.
  assert (Hsame : forall metric,
            bool_decide
              (metric ∈ extract_metrics lower split_whitespace clean
                          list_of_set1 query_text)
            = bool_decide
                (metric ∈ extract_metrics lower split_whitespace clean
                            list_of_set2 query_text)).
  { intros metric. apply bool_decide_ext. unfold extract_metrics.
    now rewrite list_of_set1_elements, list_of_set2_elements. }
  now rewrite !Hsame.
Qed.

End ProcessQueryFacts.

Section ProcessQueryRuns.
Import PySeq ConsistentQuery ProcessQuery.
Local Open Scope string_scope.

Lemma process_natural_language_query_prediction_text_witness :
  let process order :=
    process_natural_language_query Chat2SQL.ascii_lower
      TrainApi.split_ascii_whitespace clean_ascii order
      "Predict the CTS and place slack" in
  get_query_type Chat2SQL.ascii_lower "Predict the CTS and place slack"
  = "prediction"
  /\ process remove_dups = process (fun added => reverse (remove_dups added)).
Proof.
  assert (H : get_query_type Chat2SQL.ascii_lower
                "Predict the CTS and place slack"
              = "prediction") by reflexivity.
  split; [exact H |].
  apply (process_natural_language_query_prediction_text Chat2SQL.ascii_lower
           TrainApi.split_ascii_whitespace clean_ascii
           remove_dups (fun added => reverse (remove_dups added))
           (fun added x => elem_of_remove_dups added x)).
  - intros added x. rewrite elem_of_reverse. apply elem_of_remove_dups.
  - right. exact H.
Defined.

Example process_natural_language_query_prediction :
  process_natural_language_query Chat2SQL.ascii_lower
    TrainApi.split_ascii_whitespace clean_ascii remove_dups
    "Predict the CTS and place slack"
  = "SELECT design, stage, place_setup_WNS, place_hold_WNS, cts_setup_WNS, cts_hold_WNS, route_setup_WNS, route_hold_WNS FROM qor_metrics ORDER BY design, stage LIMIT 100;".
Proof. vm_compute. reflexivity. Qed.

End ProcessQueryRuns.
